(** * Investment-Calculator: the projection engine [calculateInvestment]

    A shallow embedding of [services/finance.ts] (the latest revision of
    the engine, the one that knows the GOAL and RETIREMENT modes) together
    with the properties its specification states about it.  The engine is
    a pure function of a mode and an input record; it is embedded as a
    total function, one definition for each strategy of its [switch], and
    its loops as folds over the month or year counter.

    Numbers.  A JavaScript [number] is modelled by [num]: an exact rational
    or one of the three special values of IEEE 754 arithmetic.  Finite
    results are exact (no rounding error, no overflow) and zero carries no
    sign; what the model keeps of the floating-point semantics is the part
    the engine can observe: division by zero, [NaN] propagation, the
    comparisons that [NaN] falsifies, truthiness, [Math.round] and
    [isFinite].  [Math.pow] is exact at whole exponents; at a finite
    non-integral exponent of a positive base other than 1 the exact power
    is not rational in general, and the finite number the call returns is
    supplied by the host ([pow_nonint]).

    Properties.  Where the engine rounds a figure that it computed, a
    property compares the rounded figure with its closed form to within
    one unit ([near], [within_one]): the doubles of the engine carry
    rounding errors that can tip [Math.round] at a half unit, so that the
    figure of exact arithmetic is met only up to that unit.  Equalities
    are stated where both sides come from the same operations, or from no
    arithmetic at all. *)

From Stdlib Require Import ZArith QArith Qround Qabs Qminmax Qpower.
From Stdlib Require Import List Bool Lia Lqa.
Import ListNotations.

Local Open Scope Q_scope.

(** ** JavaScript numbers *)

Inductive num : Type :=
| Fin (q : Q)
| PInf
| NInf
| NaN.

Declare Scope num_scope.
Delimit Scope num_scope with num.
Bind Scope num_scope with num.

(** The host environment of one call: the calendar year returned by
    [new Date().getFullYear()], and the finite value of [Math.pow] at a
    positive base and a non-integral exponent. *)
Record Host : Type := {
  now_year : Z;
  pow_nonint : Q -> Q -> Q
}.

Module Js.

Definition of_Z (z : Z) : num := Fin (inject_Z z).
Definition of_nat (n : nat) : num := of_Z (Z.of_nat n).

Definition is_zero (q : Q) : bool := Qeq_bool q 0.
Definition is_pos (q : Q) : bool := negb (Qle_bool q 0).
Definition is_neg (q : Q) : bool := negb (Qle_bool 0 q).

Definition neg (x : num) : num :=
  match x with
  | Fin q => Fin (- q)
  | PInf => NInf
  | NInf => PInf
  | NaN => NaN
  end.

Definition add (x y : num) : num :=
  match x, y with
  | NaN, _ | _, NaN => NaN
  | Fin a, Fin b => Fin (a + b)
  | PInf, NInf | NInf, PInf => NaN
  | PInf, _ | _, PInf => PInf
  | NInf, _ | _, NInf => NInf
  end.

Definition sub (x y : num) : num := add x (neg y).

(** An infinity scaled by a finite factor. *)
Definition scale_inf (positive : bool) (q : Q) : num :=
  if is_zero q then NaN
  else if Bool.eqb positive (is_pos q) then PInf else NInf.

Definition mul (x y : num) : num :=
  match x, y with
  | NaN, _ | _, NaN => NaN
  | Fin a, Fin b => Fin (a * b)
  | PInf, Fin q | Fin q, PInf => scale_inf true q
  | NInf, Fin q | Fin q, NInf => scale_inf false q
  | PInf, PInf | NInf, NInf => PInf
  | PInf, NInf | NInf, PInf => NInf
  end.

Definition div (x y : num) : num :=
  match x, y with
  | NaN, _ | _, NaN => NaN
  | Fin a, Fin b =>
    if is_zero b then
      (if is_zero a then NaN else if is_pos a then PInf else NInf)
    else Fin (a / b)
  | Fin _, (PInf | NInf) => Fin 0
  | PInf, Fin b => if is_neg b then NInf else PInf
  | NInf, Fin b => if is_neg b then PInf else NInf
  | (PInf | NInf), (PInf | NInf) => NaN
  end.

(** Comparisons: every comparison with [NaN] is false. *)
Definition lt (x y : num) : bool :=
  match x, y with
  | NaN, _ | _, NaN => false
  | Fin a, Fin b => negb (Qle_bool b a)
  | NInf, NInf | PInf, _ => false
  | NInf, _ | Fin _, PInf => true
  | Fin _, NInf => false
  end.

Definition le (x y : num) : bool :=
  match x, y with
  | NaN, _ | _, NaN => false
  | Fin a, Fin b => Qle_bool a b
  | NInf, _ | _, PInf => true
  | PInf, _ | Fin _, NInf => false
  end.

Definition gt (x y : num) : bool := lt y x.
Definition ge (x y : num) : bool := le y x.

(** [x === y] on numbers. *)
Definition strict_eq (x y : num) : bool :=
  match x, y with
  | Fin a, Fin b => Qeq_bool a b
  | PInf, PInf | NInf, NInf => true
  | _, _ => false
  end.

(** Truthiness of a number: [0] and [NaN] are falsy. *)
Definition truthy (x : num) : bool :=
  match x with
  | Fin q => negb (is_zero q)
  | PInf | NInf => true
  | NaN => false
  end.

(** [x || d] on numbers. *)
Definition or_else (x d : num) : num := if truthy x then x else d.

Definition isFinite (x : num) : bool :=
  match x with Fin _ => true | _ => false end.

Definition Math_max (x y : num) : num :=
  match x, y with
  | NaN, _ | _, NaN => NaN
  | _, _ => if lt x y then y else x
  end.

(** [Math.round]: the nearest integer, halves going up. *)
Definition round_Q (q : Q) : Z := Qfloor (q + (1 # 2)).

Definition Math_round (x : num) : num :=
  match x with
  | Fin q => of_Z (round_Q q)
  | _ => x
  end.

Definition is_int (q : Q) : bool := Qeq_bool (inject_Z (Qfloor q)) q.

Definition is_odd_int (q : Q) : bool := is_int q && Z.odd (Qfloor q).

(** Magnitude of a finite base against 1, for infinite exponents. *)
Definition pow_inf (b : Q) (grows : bool) : num :=
  match Qabs b ?= 1 with
  | Eq => NaN
  | Gt => if grows then PInf else Fin 0
  | Lt => if grows then Fin 0 else PInf
  end.

Section Pow.
Variable host : Host.

Definition pow_fin (b e : Q) : num :=
  if is_int e then
    (if is_zero b && is_neg e then PInf else Fin (b ^ Qfloor e))
  else if is_neg b then NaN
  else if is_zero b then (if is_pos e then Fin 0 else PInf)
  else if Qeq_bool b 1 then Fin 1
  else Fin (pow_nonint host b e).

Definition Math_pow (x y : num) : num :=
  match y with
  | NaN => NaN
  | Fin e =>
      if is_zero e then Fin 1
      else match x with
           | NaN => NaN
           | Fin b => pow_fin b e
           | PInf => if is_pos e then PInf else Fin 0
           | NInf =>
               if is_pos e then (if is_odd_int e then NInf else PInf)
               else Fin 0
           end
  | PInf =>
      match x with
      | NaN => NaN
      | Fin b => pow_inf b true
      | PInf | NInf => PInf
      end
  | NInf =>
      match x with
      | NaN => NaN
      | Fin b => pow_inf b false
      | PInf | NInf => Fin 0
      end
  end.
End Pow.

End Js.

Coercion Fin : Q >-> num.

Notation "x + y" := (Js.add x y) : num_scope.
Notation "x - y" := (Js.sub x y) : num_scope.
Notation "x * y" := (Js.mul x y) : num_scope.
Notation "x / y" := (Js.div x y) : num_scope.


(** ** Data model ([types.ts]) *)

Inductive CalculatorMode : Type :=
| SIP | LUMPSUM | STOCK | PROPERTY | LOAN
| COMPOUND | ROI | TAX | GOAL | RETIREMENT.

(** The input record.  A field the engine reads with a default or through
    [||] may be absent ([None]); [timePeriodYears] and [interestRate] are
    read as they are.  Supplied values are finite numbers.  The field
    [monthlyExpensesRetirement] of [types.ts] is never read by the engine
    and is left out. *)
Record InvestmentInputs : Type := {
  initialInvestment : option Q;
  monthlyContribution : option Q;
  stepUpRate : option Q;
  timePeriodYears : Q;
  interestRate : Q;
  compoundingFrequency : option Q;
  inflationRate : option Q;
  taxRate : option Q;
  expenseRatio : option Q;
  startYear : option Q;
  buyPrice : option Q;
  sellPrice : option Q;
  quantity : option Q;
  dividendYield : option Q;
  propertyPrice : option Q;
  rentalIncome : option Q;
  monthlyExpenses : option Q;
  appreciationRate : option Q;
  annualIncome : option Q;
  deductions : option Q;
  targetAmount : option Q;
  currentAge : option Q;
  retirementAge : option Q
}.

Record YearData : Type := {
  year : num;
  label : num;
  invested : num;
  interest : num;
  total : num;
  realValue : num
}.

Record CalculationResult : Type := {
  totalInvested : num;
  finalValue : num;
  totalInterest : num;
  taxPayable : num;
  postTaxValue : num;
  yearlyData : list YearData;
  monthlyPayment : num;
  roiPercentage : num;
  cagr : num;
  durationYears : num;
  doublingTime : num;
  purchasingPowerLoss : num
}.

(** ** Reading the inputs *)

(** A destructuring default, [{ f = d } = inputs]: only an absent field
    takes the default. *)
Definition dflt (x : option Q) (d : Q) : Q :=
  match x with Some q => q | None => d end.

(** [f || d] on a field: an absent field and a zero both give [d]. *)
Definition or_dflt (x : option Q) (d : Q) : Q :=
  match x with
  | Some q => if Js.is_zero q then d else q
  | None => d
  end.

(** Truthiness of a field, as in [if (currentAge && retirementAge)]. *)
Definition supplied (x : option Q) : bool :=
  match x with Some q => negb (Js.is_zero q) | None => false end.

(** ** Control *)

(** [for (let i = 1; i <= bound; i++)] runs its body for
    i = 1, ..., floor(bound). *)
Definition trip_count (bound : Q) : nat := Z.to_nat (Qfloor bound).

Fixpoint for_loop {St : Type} (n : nat) (body : nat -> St -> St) (s : St) : St :=
  match n with
  | O => s
  | S k => body n (for_loop k body s)
  end.

(** [yearlyData[yearlyData.length - 1]]. *)
Fixpoint last_row (rows : list YearData) : option YearData :=
  match rows with
  | [] => None
  | [row] => Some row
  | _ :: rest => last_row rest
  end.

(** What a strategy leaves in the engine's local variables when the
    [switch] is over. *)
Record Locals : Type := {
  l_totalInvested : num;
  l_finalValue : num;
  l_yearlyData : list YearData;
  l_monthlyPayment : num;
  l_roiPercentage : num
}.

(** State of the month loop of SIP, RETIREMENT and GOAL. *)
Record Accum : Type := {
  currentBalance : num;
  currentInvested : num;
  currentMonthlyContribution : num;
  rows : list YearData
}.

(** State of the PROPERTY loop. *)
Record PropAccum : Type := {
  currentPropValue : num;
  accumulatedNetRent : num;
  prop_rows : list YearData
}.

(** [q || d] on a number already read. *)
Definition q_or (q d : Q) : Q := if Js.is_zero q then d else q.

(** ** The engine ([calculateInvestment]) *)

Section Engine.
Variable host : Host.

Local Open Scope num_scope.

(** [duration]: the time period, overridden in RETIREMENT mode when both
    ages are truthy. *)
Definition effective_duration (mode : CalculatorMode) (inputs : InvestmentInputs) : Q :=
  match mode with
  | RETIREMENT =>
    if supplied (currentAge inputs) && supplied (retirementAge inputs)
    then Qmax 1 (dflt (retirementAge inputs) 0 - dflt (currentAge inputs) 0)%Q
    else timePeriodYears inputs
  | _ => timePeriodYears inputs
  end.

(** [effectiveRate = Math.max(0, interestRate - (expenseRatio || 0))]. *)
Definition effective_rate (inputs : InvestmentInputs) : Q :=
  Qmax 0 (interestRate inputs - q_or (dflt (expenseRatio inputs) 0) 0)%Q.

(** The schedule row pushed by the SIP, RETIREMENT and GOAL loops. *)
Definition month_row (inflationRate startYear : Q) (i : nat)
    (currentBalance currentInvested : num) : YearData :=
  let year := Js.of_nat (i / 12) in
  let inflationFactor := Js.Math_pow host (1 + inflationRate / 100) year in
  {| year := year;
     label := startYear + year;
     invested := Js.Math_round currentInvested;
     interest := Js.Math_round (currentBalance - currentInvested);
     total := Js.Math_round currentBalance;
     realValue := Js.Math_round (currentBalance / inflationFactor) |}.

(** One month of the SIP / RETIREMENT loop. *)
Definition sip_month (monthlyRate stepUpRate inflationRate startYear : Q)
    (i : nat) (a : Accum) : Accum :=
  let balance := currentBalance a * (1 + monthlyRate) in
  let balance := balance + currentMonthlyContribution a in
  let paid := currentInvested a + currentMonthlyContribution a in
  if (i mod 12 =? 0)%nat then
    {| currentBalance := balance;
       currentInvested := paid;
       currentMonthlyContribution :=
         if Js.gt stepUpRate 0
         then currentMonthlyContribution a * (1 + stepUpRate / 100)
         else currentMonthlyContribution a;
       rows := rows a ++ [month_row inflationRate startYear i balance paid] |}
  else
    {| currentBalance := balance;
       currentInvested := paid;
       currentMonthlyContribution := currentMonthlyContribution a;
       rows := rows a |}.

Definition sip_branch (initialInvestment monthlyContribution stepUpRate
    inflationRate startYear r months : Q) : Locals :=
  let monthlyRate := (r / 12)%Q in
  let a := for_loop (trip_count months)
             (sip_month monthlyRate stepUpRate inflationRate startYear)
             {| currentBalance := initialInvestment;
                currentInvested := initialInvestment;
                currentMonthlyContribution := monthlyContribution;
                rows := [] |} in
  {| l_totalInvested := currentInvested a;
     l_finalValue := currentBalance a;
     l_yearlyData := rows a;
     l_monthlyPayment := 0;
     l_roiPercentage := 0 |}.

(** The contribution the GOAL strategy solves for. *)
Definition goal_payment (target initialInvestment ratePerMonth nMonths : Q) : num :=
  let lumpsumCompounded :=
    initialInvestment * Js.Math_pow host (1 + ratePerMonth) nMonths in
  let remainingTarget := target - lumpsumCompounded in
  if Js.le remainingTarget 0 then 0
  else if Js.strict_eq ratePerMonth 0 then remainingTarget / nMonths
  else remainingTarget * ratePerMonth
       / (Js.Math_pow host (1 + ratePerMonth) nMonths - 1).

(** One month of the GOAL loop; the payment is kept in
    [currentMonthlyContribution] and never changes. *)
Definition goal_month (ratePerMonth inflationRate startYear : Q)
    (i : nat) (a : Accum) : Accum :=
  let balance :=
    currentBalance a * (1 + ratePerMonth) + currentMonthlyContribution a in
  let paid := currentInvested a + currentMonthlyContribution a in
  {| currentBalance := balance;
     currentInvested := paid;
     currentMonthlyContribution := currentMonthlyContribution a;
     rows := if (i mod 12 =? 0)%nat
             then rows a ++ [month_row inflationRate startYear i balance paid]
             else rows a |}.

Definition goal_branch (targetAmount : option Q) (initialInvestment
    inflationRate startYear r months : Q) : Locals :=
  let target := or_dflt targetAmount 1000000 in
  let ratePerMonth := (r / 12)%Q in
  let nMonths := months in
  let monthlyPayment := goal_payment target initialInvestment ratePerMonth nMonths in
  let a := for_loop (trip_count months)
             (goal_month ratePerMonth inflationRate startYear)
             {| currentBalance := initialInvestment;
                currentInvested := initialInvestment;
                currentMonthlyContribution := monthlyPayment;
                rows := [] |} in
  {| l_totalInvested := currentInvested a;
     l_finalValue := currentBalance a;
     l_yearlyData := rows a;
     l_monthlyPayment := monthlyPayment;
     l_roiPercentage := 0 |}.

(** LUMPSUM and COMPOUND; [n] is the compounding frequency. *)
Definition compound_row (initialInvestment inflationRate startYear r n : Q)
    (i : nat) : YearData :=
  let val := initialInvestment
             * Js.Math_pow host (1 + r / n) (n * Js.of_nat i) in
  let inflationFactor := Js.Math_pow host (1 + inflationRate / 100) (Js.of_nat i) in
  {| year := Js.of_nat i;
     label := startYear + Js.of_nat i;
     invested := initialInvestment;
     interest := Js.Math_round (val - initialInvestment);
     total := Js.Math_round val;
     realValue := Js.Math_round (val / inflationFactor) |}.

Definition compound_branch (initialInvestment inflationRate startYear r n
    duration : Q) : Locals :=
  let t := duration in
  {| l_totalInvested := initialInvestment;
     l_finalValue := initialInvestment * Js.Math_pow host (1 + r / n) (n * t);
     l_yearlyData :=
       for_loop (trip_count t)
         (fun i acc => acc ++ [compound_row initialInvestment inflationRate startYear r n i])
         [];
     l_monthlyPayment := 0;
     l_roiPercentage := 0 |}.

(** LOAN. *)
Definition loan_payment (P R_loan N_loan : Q) : num :=
  if Js.strict_eq R_loan 0 then P / N_loan
  else (P * R_loan * Js.Math_pow host (1 + R_loan) N_loan)
       / (Js.Math_pow host (1 + R_loan) N_loan - 1).

Definition loan_row (P R_loan N_loan startYear : Q) (monthlyPayment : num)
    (i : nat) : YearData :=
  let monthsPassed := Js.of_nat i * 12 in
  let remaining :=
    (P * (Js.Math_pow host (1 + R_loan) N_loan
          - Js.Math_pow host (1 + R_loan) monthsPassed))
    / (Js.Math_pow host (1 + R_loan) N_loan - 1) in
  let paidSoFar := monthlyPayment * monthsPassed in
  let interestPaid := paidSoFar - (P - remaining) in
  {| year := Js.of_nat i;
     label := startYear + Js.of_nat i;
     invested := Js.Math_round (P - remaining);
     interest := Js.Math_round interestPaid;
     total := Js.Math_round remaining;
     realValue := 0 |}.

Definition loan_branch (initialInvestment interestRate startYear duration : Q) : Locals :=
  let P := initialInvestment in
  let R_loan := (interestRate / 12 / 100)%Q in
  let N_loan := (duration * 12)%Q in
  let monthlyPayment := loan_payment P R_loan N_loan in
  {| l_totalInvested := P;
     l_finalValue := monthlyPayment * N_loan;
     l_yearlyData :=
       for_loop (trip_count duration)
         (fun i acc => acc ++ [loan_row P R_loan N_loan startYear monthlyPayment i])
         [];
     l_monthlyPayment := monthlyPayment;
     l_roiPercentage := 0 |}.

(** STOCK. *)
Definition stock_row (inflationRate startYear duration : Q)
    (totalInvested capitalGains totalDividends : num) (i : nat) : YearData :=
  let progress := Js.of_nat i / duration in
  let currentVal :=
    totalInvested + capitalGains * progress
    + (totalDividends / duration) * Js.of_nat i in
  let inflationFactor := Js.Math_pow host (1 + inflationRate / 100) (Js.of_nat i) in
  {| year := Js.of_nat i;
     label := startYear + Js.of_nat i;
     invested := totalInvested;
     interest := Js.Math_round (currentVal - totalInvested);
     total := Js.Math_round currentVal;
     realValue := Js.Math_round (currentVal / inflationFactor) |}.

Definition stock_branch (quantity buyPrice sellPrice dividendYield : option Q)
    (inflationRate startYear duration : Q) : Locals :=
  let qty := or_dflt quantity 0 in
  let bPrice := or_dflt buyPrice 0 in
  let sPrice := or_dflt sellPrice 0 in
  let divYield := or_dflt dividendYield 0 in
  let totalInvested := qty * bPrice in
  let capitalGains := (sPrice - bPrice) * qty in
  let totalDividends := (bPrice * qty) * (divYield / 100) * duration in
  {| l_totalInvested := totalInvested;
     l_finalValue := totalInvested + capitalGains + totalDividends;
     l_yearlyData :=
       for_loop (trip_count duration)
         (fun i acc => acc ++ [stock_row inflationRate startYear duration
                                 totalInvested capitalGains totalDividends i])
         [];
     l_monthlyPayment := 0;
     l_roiPercentage := 0 |}.

(** PROPERTY. *)
Definition property_year (pPrice rIncome mExpenses appRate inflationRate
    startYear : Q) (i : nat) (a : PropAccum) : PropAccum :=
  let value := currentPropValue a * (1 + appRate / 100) in
  let yearlyNetRent := rIncome - mExpenses in
  let rent := accumulatedNetRent a + yearlyNetRent in
  let inflationFactor := Js.Math_pow host (1 + inflationRate / 100) (Js.of_nat i) in
  {| currentPropValue := value;
     accumulatedNetRent := rent;
     prop_rows :=
       prop_rows a ++
       [{| year := Js.of_nat i;
           label := startYear + Js.of_nat i;
           invested := pPrice;
           interest := Js.Math_round ((value - pPrice) + rent);
           total := Js.Math_round (value + rent);
           realValue := Js.Math_round ((value + rent) / inflationFactor) |}] |}.

Definition property_branch (propertyPrice rentalIncome monthlyExpenses
    appreciationRate : option Q) (inflationRate startYear duration : Q) : Locals :=
  let pPrice := or_dflt propertyPrice 0 in
  let rIncome := (or_dflt rentalIncome 0 * 12)%Q in
  let mExpenses := (or_dflt monthlyExpenses 0 * 12)%Q in
  let appRate := or_dflt appreciationRate 0 in
  let a := for_loop (trip_count duration)
             (property_year pPrice rIncome mExpenses appRate inflationRate startYear)
             {| currentPropValue := pPrice;
                accumulatedNetRent := 0;
                prop_rows := [] |} in
  {| l_totalInvested := pPrice;
     l_finalValue := currentPropValue a + accumulatedNetRent a;
     l_yearlyData := prop_rows a;
     l_monthlyPayment := 0;
     l_roiPercentage := 0 |}.

(** ROI. *)
Definition roi_row (inflationRate startYear duration : Q)
    (totalInvested profit : num) (i : nat) : YearData :=
  let progress := Js.of_nat i / duration in
  let currentVal := totalInvested + profit * progress in
  let inflationFactor := Js.Math_pow host (1 + inflationRate / 100) (Js.of_nat i) in
  {| year := Js.of_nat i;
     label := startYear + Js.of_nat i;
     invested := totalInvested;
     interest := Js.Math_round (currentVal - totalInvested);
     total := Js.Math_round currentVal;
     realValue := Js.Math_round (currentVal / inflationFactor) |}.

Definition roi_branch (sellPrice : option Q) (initialInvestment inflationRate
    startYear duration : Q) : Locals :=
  let totalInvested : num := initialInvestment in
  let finalValue : num := or_dflt sellPrice initialInvestment in
  let profit := finalValue - totalInvested in
  {| l_totalInvested := totalInvested;
     l_finalValue := finalValue;
     l_yearlyData :=
       for_loop (trip_count duration)
         (fun i acc => acc ++ [roi_row inflationRate startYear duration
                                 totalInvested profit i])
         [];
     l_monthlyPayment := 0;
     l_roiPercentage :=
       if Js.gt totalInvested 0 then (profit / totalInvested) * 100 else 0 |}.

(** TAX. *)
Definition tax_branch (annualIncome deductions : option Q)
    (taxRate startYear : Q) : Locals :=
  let totalInvested : num := or_dflt annualIncome 0 in
  let taxableIncome := Js.Math_max 0 (totalInvested - or_dflt deductions 0) in
  let calculatedTax := taxableIncome * (taxRate / 100) in
  let finalValue := totalInvested - calculatedTax in
  {| l_totalInvested := totalInvested;
     l_finalValue := finalValue;
     l_yearlyData :=
       [{| year := 1;
           label := startYear;
           invested := totalInvested;
           interest := calculatedTax;
           total := finalValue;
           realValue := finalValue |}];
     l_monthlyPayment := 0;
     l_roiPercentage := 0 |}.

(** The [switch (mode)]: the locals after the selected strategy ran. *)
Definition strategy (mode : CalculatorMode) (inputs : InvestmentInputs) : Locals :=
  let initialInvestment := dflt (initialInvestment inputs) 0 in
  let monthlyContribution := dflt (monthlyContribution inputs) 0 in
  let stepUpRate := dflt (stepUpRate inputs) 0 in
  let compoundingFrequency := dflt (compoundingFrequency inputs) 1 in
  let inflationRate := dflt (inflationRate inputs) 0 in
  let taxRate := dflt (taxRate inputs) 0 in
  let startYear := dflt (startYear inputs) (inject_Z (now_year host)) in
  let duration := effective_duration mode inputs in
  let r := (effective_rate inputs / 100)%Q in
  let months := (duration * 12)%Q in
  match mode with
  | SIP | RETIREMENT =>
    sip_branch initialInvestment monthlyContribution stepUpRate
      inflationRate startYear r months
  | GOAL =>
    goal_branch (targetAmount inputs) initialInvestment inflationRate
      startYear r months
  | LUMPSUM =>
    compound_branch initialInvestment inflationRate startYear r 1 duration
  | COMPOUND =>
    compound_branch initialInvestment inflationRate startYear r
      (q_or compoundingFrequency 1) duration
  | LOAN =>
    loan_branch initialInvestment (interestRate inputs) startYear duration
  | STOCK =>
    stock_branch (quantity inputs) (buyPrice inputs) (sellPrice inputs)
      (dividendYield inputs) inflationRate startYear duration
  | PROPERTY =>
    property_branch (propertyPrice inputs) (rentalIncome inputs)
      (monthlyExpenses inputs) (appreciationRate inputs)
      inflationRate startYear duration
  | ROI =>
    roi_branch (sellPrice inputs) initialInvestment inflationRate
      startYear duration
  | TAX =>
    tax_branch (annualIncome inputs) (deductions inputs) taxRate startYear
  end.

(** The tax of the common post-calculation stage. *)
Definition tax_on (mode : CalculatorMode) (taxRate : Q)
    (totalInvested finalValue : num) : num :=
  match mode with
  | LOAN => 0
  | TAX => totalInvested - finalValue
  | _ =>
    let totalGain := finalValue - totalInvested in
    if Js.gt totalGain 0 then totalGain * (taxRate / 100) else 0
  end.

Definition cagr_of (duration : Q) (totalInvested finalValue : num) : num :=
  if Js.gt totalInvested 0 && Js.gt finalValue 0 && Js.gt duration 0
  then (Js.Math_pow host (finalValue / totalInvested) (1 / duration) - 1) * 100
  else 0.

Definition doubling_of (effectiveRate : Q) : num :=
  if Js.gt effectiveRate 0 then 72 / effectiveRate else 0.

Definition calculateInvestment (mode : CalculatorMode)
    (inputs : InvestmentInputs) : CalculationResult :=
  let taxRate := dflt (taxRate inputs) 0 in
  let duration := effective_duration mode inputs in
  let effectiveRate := effective_rate inputs in
  let st := strategy mode inputs in
  let totalInvested := l_totalInvested st in
  let finalValue := l_finalValue st in
  let yearlyData := l_yearlyData st in
  let taxPayable := tax_on mode taxRate totalInvested finalValue in
  let postTaxValue :=
    finalValue - (match mode with TAX => 0 | _ => taxPayable end) in
  let cagr := cagr_of duration totalInvested finalValue in
  let doublingTime := doubling_of effectiveRate in
  {| totalInvested := Js.Math_round totalInvested;
     finalValue := Js.Math_round finalValue;
     totalInterest := Js.Math_round (finalValue - totalInvested);
     taxPayable := Js.Math_round taxPayable;
     postTaxValue := Js.Math_round postTaxValue;
     yearlyData := yearlyData;
     monthlyPayment := Js.Math_round (l_monthlyPayment st);
     roiPercentage := l_roiPercentage st;
     cagr := if Js.isFinite cagr then cagr else 0;
     durationYears := duration;
     doublingTime := if Js.isFinite doublingTime then doublingTime else 0;
     purchasingPowerLoss :=
       finalValue - match last_row yearlyData with
                    | Some row => Js.or_else (realValue row) 0
                    | None => 0
                    end |}.

End Engine.

(** ** Building inputs *)

(** The inputs with every optional field absent. *)
Definition blank (years rate : Q) : InvestmentInputs :=
  {| initialInvestment := None; monthlyContribution := None; stepUpRate := None;
     timePeriodYears := years; interestRate := rate;
     compoundingFrequency := None; inflationRate := None; taxRate := None;
     expenseRatio := None; startYear := None; buyPrice := None;
     sellPrice := None; quantity := None; dividendYield := None;
     propertyPrice := None; rentalIncome := None; monthlyExpenses := None;
     appreciationRate := None; annualIncome := None; deductions := None;
     targetAmount := None; currentAge := None; retirementAge := None |}.

(** Functional updates of one field, [{ ...i, f: v }]. *)
Definition set_initialInvestment (v : option Q) (i : InvestmentInputs) : InvestmentInputs :=
  {| initialInvestment := v; monthlyContribution := monthlyContribution i;
     stepUpRate := stepUpRate i; timePeriodYears := timePeriodYears i;
     interestRate := interestRate i;
     compoundingFrequency := compoundingFrequency i;
     inflationRate := inflationRate i; taxRate := taxRate i;
     expenseRatio := expenseRatio i; startYear := startYear i;
     buyPrice := buyPrice i; sellPrice := sellPrice i; quantity := quantity i;
     dividendYield := dividendYield i; propertyPrice := propertyPrice i;
     rentalIncome := rentalIncome i; monthlyExpenses := monthlyExpenses i;
     appreciationRate := appreciationRate i; annualIncome := annualIncome i;
     deductions := deductions i; targetAmount := targetAmount i;
     currentAge := currentAge i; retirementAge := retirementAge i |}.

Definition set_monthlyContribution (v : option Q) (i : InvestmentInputs) : InvestmentInputs :=
  {| initialInvestment := initialInvestment i; monthlyContribution := v;
     stepUpRate := stepUpRate i; timePeriodYears := timePeriodYears i;
     interestRate := interestRate i;
     compoundingFrequency := compoundingFrequency i;
     inflationRate := inflationRate i; taxRate := taxRate i;
     expenseRatio := expenseRatio i; startYear := startYear i;
     buyPrice := buyPrice i; sellPrice := sellPrice i; quantity := quantity i;
     dividendYield := dividendYield i; propertyPrice := propertyPrice i;
     rentalIncome := rentalIncome i; monthlyExpenses := monthlyExpenses i;
     appreciationRate := appreciationRate i; annualIncome := annualIncome i;
     deductions := deductions i; targetAmount := targetAmount i;
     currentAge := currentAge i; retirementAge := retirementAge i |}.

Definition set_stepUpRate (v : option Q) (i : InvestmentInputs) : InvestmentInputs :=
  {| initialInvestment := initialInvestment i;
     monthlyContribution := monthlyContribution i; stepUpRate := v;
     timePeriodYears := timePeriodYears i; interestRate := interestRate i;
     compoundingFrequency := compoundingFrequency i;
     inflationRate := inflationRate i; taxRate := taxRate i;
     expenseRatio := expenseRatio i; startYear := startYear i;
     buyPrice := buyPrice i; sellPrice := sellPrice i; quantity := quantity i;
     dividendYield := dividendYield i; propertyPrice := propertyPrice i;
     rentalIncome := rentalIncome i; monthlyExpenses := monthlyExpenses i;
     appreciationRate := appreciationRate i; annualIncome := annualIncome i;
     deductions := deductions i; targetAmount := targetAmount i;
     currentAge := currentAge i; retirementAge := retirementAge i |}.

Definition set_compoundingFrequency (v : option Q) (i : InvestmentInputs) : InvestmentInputs :=
  {| initialInvestment := initialInvestment i;
     monthlyContribution := monthlyContribution i; stepUpRate := stepUpRate i;
     timePeriodYears := timePeriodYears i; interestRate := interestRate i;
     compoundingFrequency := v; inflationRate := inflationRate i;
     taxRate := taxRate i; expenseRatio := expenseRatio i;
     startYear := startYear i; buyPrice := buyPrice i; sellPrice := sellPrice i;
     quantity := quantity i; dividendYield := dividendYield i;
     propertyPrice := propertyPrice i; rentalIncome := rentalIncome i;
     monthlyExpenses := monthlyExpenses i;
     appreciationRate := appreciationRate i; annualIncome := annualIncome i;
     deductions := deductions i; targetAmount := targetAmount i;
     currentAge := currentAge i; retirementAge := retirementAge i |}.

Definition set_taxRate (v : option Q) (i : InvestmentInputs) : InvestmentInputs :=
  {| initialInvestment := initialInvestment i;
     monthlyContribution := monthlyContribution i; stepUpRate := stepUpRate i;
     timePeriodYears := timePeriodYears i; interestRate := interestRate i;
     compoundingFrequency := compoundingFrequency i;
     inflationRate := inflationRate i; taxRate := v;
     expenseRatio := expenseRatio i; startYear := startYear i;
     buyPrice := buyPrice i; sellPrice := sellPrice i; quantity := quantity i;
     dividendYield := dividendYield i; propertyPrice := propertyPrice i;
     rentalIncome := rentalIncome i; monthlyExpenses := monthlyExpenses i;
     appreciationRate := appreciationRate i; annualIncome := annualIncome i;
     deductions := deductions i; targetAmount := targetAmount i;
     currentAge := currentAge i; retirementAge := retirementAge i |}.

Definition set_startYear (v : option Q) (i : InvestmentInputs) : InvestmentInputs :=
  {| initialInvestment := initialInvestment i;
     monthlyContribution := monthlyContribution i; stepUpRate := stepUpRate i;
     timePeriodYears := timePeriodYears i; interestRate := interestRate i;
     compoundingFrequency := compoundingFrequency i;
     inflationRate := inflationRate i; taxRate := taxRate i;
     expenseRatio := expenseRatio i; startYear := v; buyPrice := buyPrice i;
     sellPrice := sellPrice i; quantity := quantity i;
     dividendYield := dividendYield i; propertyPrice := propertyPrice i;
     rentalIncome := rentalIncome i; monthlyExpenses := monthlyExpenses i;
     appreciationRate := appreciationRate i; annualIncome := annualIncome i;
     deductions := deductions i; targetAmount := targetAmount i;
     currentAge := currentAge i; retirementAge := retirementAge i |}.

Definition set_sellPrice (v : option Q) (i : InvestmentInputs) : InvestmentInputs :=
  {| initialInvestment := initialInvestment i;
     monthlyContribution := monthlyContribution i; stepUpRate := stepUpRate i;
     timePeriodYears := timePeriodYears i; interestRate := interestRate i;
     compoundingFrequency := compoundingFrequency i;
     inflationRate := inflationRate i; taxRate := taxRate i;
     expenseRatio := expenseRatio i; startYear := startYear i;
     buyPrice := buyPrice i; sellPrice := v; quantity := quantity i;
     dividendYield := dividendYield i; propertyPrice := propertyPrice i;
     rentalIncome := rentalIncome i; monthlyExpenses := monthlyExpenses i;
     appreciationRate := appreciationRate i; annualIncome := annualIncome i;
     deductions := deductions i; targetAmount := targetAmount i;
     currentAge := currentAge i; retirementAge := retirementAge i |}.

Definition set_annualIncome (v : option Q) (i : InvestmentInputs) : InvestmentInputs :=
  {| initialInvestment := initialInvestment i;
     monthlyContribution := monthlyContribution i; stepUpRate := stepUpRate i;
     timePeriodYears := timePeriodYears i; interestRate := interestRate i;
     compoundingFrequency := compoundingFrequency i;
     inflationRate := inflationRate i; taxRate := taxRate i;
     expenseRatio := expenseRatio i; startYear := startYear i;
     buyPrice := buyPrice i; sellPrice := sellPrice i; quantity := quantity i;
     dividendYield := dividendYield i; propertyPrice := propertyPrice i;
     rentalIncome := rentalIncome i; monthlyExpenses := monthlyExpenses i;
     appreciationRate := appreciationRate i; annualIncome := v;
     deductions := deductions i; targetAmount := targetAmount i;
     currentAge := currentAge i; retirementAge := retirementAge i |}.

Definition set_deductions (v : option Q) (i : InvestmentInputs) : InvestmentInputs :=
  {| initialInvestment := initialInvestment i;
     monthlyContribution := monthlyContribution i; stepUpRate := stepUpRate i;
     timePeriodYears := timePeriodYears i; interestRate := interestRate i;
     compoundingFrequency := compoundingFrequency i;
     inflationRate := inflationRate i; taxRate := taxRate i;
     expenseRatio := expenseRatio i; startYear := startYear i;
     buyPrice := buyPrice i; sellPrice := sellPrice i; quantity := quantity i;
     dividendYield := dividendYield i; propertyPrice := propertyPrice i;
     rentalIncome := rentalIncome i; monthlyExpenses := monthlyExpenses i;
     appreciationRate := appreciationRate i; annualIncome := annualIncome i;
     deductions := v; targetAmount := targetAmount i;
     currentAge := currentAge i; retirementAge := retirementAge i |}.

Definition set_targetAmount (v : option Q) (i : InvestmentInputs) : InvestmentInputs :=
  {| initialInvestment := initialInvestment i;
     monthlyContribution := monthlyContribution i; stepUpRate := stepUpRate i;
     timePeriodYears := timePeriodYears i; interestRate := interestRate i;
     compoundingFrequency := compoundingFrequency i;
     inflationRate := inflationRate i; taxRate := taxRate i;
     expenseRatio := expenseRatio i; startYear := startYear i;
     buyPrice := buyPrice i; sellPrice := sellPrice i; quantity := quantity i;
     dividendYield := dividendYield i; propertyPrice := propertyPrice i;
     rentalIncome := rentalIncome i; monthlyExpenses := monthlyExpenses i;
     appreciationRate := appreciationRate i; annualIncome := annualIncome i;
     deductions := deductions i; targetAmount := v; currentAge := currentAge i;
     retirementAge := retirementAge i |}.

Definition set_currentAge (v : option Q) (i : InvestmentInputs) : InvestmentInputs :=
  {| initialInvestment := initialInvestment i;
     monthlyContribution := monthlyContribution i; stepUpRate := stepUpRate i;
     timePeriodYears := timePeriodYears i; interestRate := interestRate i;
     compoundingFrequency := compoundingFrequency i;
     inflationRate := inflationRate i; taxRate := taxRate i;
     expenseRatio := expenseRatio i; startYear := startYear i;
     buyPrice := buyPrice i; sellPrice := sellPrice i; quantity := quantity i;
     dividendYield := dividendYield i; propertyPrice := propertyPrice i;
     rentalIncome := rentalIncome i; monthlyExpenses := monthlyExpenses i;
     appreciationRate := appreciationRate i; annualIncome := annualIncome i;
     deductions := deductions i; targetAmount := targetAmount i;
     currentAge := v; retirementAge := retirementAge i |}.

Definition set_retirementAge (v : option Q) (i : InvestmentInputs) : InvestmentInputs :=
  {| initialInvestment := initialInvestment i;
     monthlyContribution := monthlyContribution i; stepUpRate := stepUpRate i;
     timePeriodYears := timePeriodYears i; interestRate := interestRate i;
     compoundingFrequency := compoundingFrequency i;
     inflationRate := inflationRate i; taxRate := taxRate i;
     expenseRatio := expenseRatio i; startYear := startYear i;
     buyPrice := buyPrice i; sellPrice := sellPrice i; quantity := quantity i;
     dividendYield := dividendYield i; propertyPrice := propertyPrice i;
     rentalIncome := rentalIncome i; monthlyExpenses := monthlyExpenses i;
     appreciationRate := appreciationRate i; annualIncome := annualIncome i;
     deductions := deductions i; targetAmount := targetAmount i;
     currentAge := currentAge i; retirementAge := v |}.

(** ** Auxiliary notions for the properties *)

Definition CalculatorMode_eq_dec (a b : CalculatorMode) : {a = b} + {a <> b}.
Proof. decide equality. Defined.

(** A number is whole: finite, with no fractional part. *)
Definition is_whole (x : num) : bool :=
  match x with Fin q => Js.is_int q | _ => false end.

(** [g] to the [k], by repeated multiplication. *)
Fixpoint qpow (g : Q) (k : nat) : Q :=
  match k with
  | O => 1
  | S k' => qpow g k' * g
  end.

(** The value after [k] months of a unit paid at the end of every month and
    compounded by [g] a month: 1 + g + ... + g^(k-1). *)
Fixpoint annuity (g : Q) (k : nat) : Q :=
  match k with
  | O => 0
  | S k' => annuity g k' * g + 1
  end.

(** ** Worked inputs *)

(** A host for the worked examples.  None of them raises a number to a
    non-integral power, so the value chosen for [pow_nonint] is never
    consulted. *)
Definition host_2025 : Host := {| now_year := 2025; pow_nonint := fun _ _ => 1 |}.

(** ROI: 0.25 invested, 0.625 returned after one year. *)
Definition roi_quarter : InvestmentInputs :=
  set_sellPrice (Some (5 # 8)) (set_initialInvestment (Some (1 # 4)) (blank 1 0)).

(** ROI: 1000 invested, no [sellPrice]. *)
Definition roi_unsold : InvestmentInputs :=
  set_initialInvestment (Some 1000) (blank 1 0).

(** LUMPSUM: 10 at 5% for one year. *)
Definition lumpsum_10 : InvestmentInputs :=
  set_initialInvestment (Some 10) (blank 1 5).

(** LUMPSUM: 1000 at 0% for two and a half years. *)
Definition lumpsum_30_months : InvestmentInputs :=
  set_initialInvestment (Some 1000) (blank (5 # 2) 0).

(** COMPOUND: 1000 at 5% for one year, compounded yearly, gains taxed at
    20%. *)
Definition compound_taxed : InvestmentInputs :=
  set_compoundingFrequency (Some 1)
    (set_taxRate (Some 20) (set_initialInvestment (Some 1000) (blank 1 5))).

(** COMPOUND: 1 at 100% for one year with a compounding frequency of -1
    and no tax on gains. *)
Definition compound_backwards : InvestmentInputs :=
  set_compoundingFrequency (Some (-1))
    (set_taxRate (Some 0) (set_initialInvestment (Some 1) (blank 1 100))).

(** SIP: 100 a month for two years at 0%. *)
Definition sip_100 : InvestmentInputs :=
  set_monthlyContribution (Some 100) (blank 2 0).

(** GOAL: reach 12000 in one year at 0%. *)
Definition goal_12000 : InvestmentInputs :=
  set_targetAmount (Some 12000) (blank 1 0).

(** GOAL: reach 24000 in two years at 0%. *)
Definition goal_24000 : InvestmentInputs :=
  set_targetAmount (Some 24000) (blank 2 0).

(** GOAL: reach 12600 in 1.05 years (12.6 months) at 0%. *)
Definition goal_12600 : InvestmentInputs :=
  set_targetAmount (Some 12600) (blank (21 # 20) 0).

(** RETIREMENT: ten-year period, retirement at 60, current age 0. *)
Definition retire_from_birth : InvestmentInputs :=
  set_retirementAge (Some 60) (set_currentAge (Some 0) (blank 10 0)).

(** RETIREMENT: ten-year period, retirement at 60, current age 57. *)
Definition retire_at_57 : InvestmentInputs :=
  set_retirementAge (Some 60) (set_currentAge (Some 57) (blank 10 0)).

(** TAX: income 60000, deductions 5000, rate 15%. *)
Definition tax_60000 : InvestmentInputs :=
  set_taxRate (Some 15)
    (set_deductions (Some 5000) (set_annualIncome (Some 60000) (blank 1 0))).

(** LOAN: 12000 over one year at 0%. *)
Definition loan_zero_rate : InvestmentInputs :=
  set_startYear (Some 2025) (set_initialInvestment (Some 12000) (blank 1 0)).

(** LOAN: 24000 over two years at 0%. *)
Definition loan_zero_rate_2y : InvestmentInputs :=
  set_startYear (Some 2025) (set_initialInvestment (Some 24000) (blank 2 0)).

(** LOAN: 12000 over one year at 12% a year. *)
Definition loan_12_percent : InvestmentInputs :=
  set_startYear (Some 2025) (set_initialInvestment (Some 12000) (blank 1 12)).



(** ** Further input updates *)

Definition set_timePeriodYears (v : Q) (i : InvestmentInputs) : InvestmentInputs :=
  {| initialInvestment := initialInvestment i;
     monthlyContribution := monthlyContribution i; stepUpRate := stepUpRate i;
     timePeriodYears := v; interestRate := interestRate i;
     compoundingFrequency := compoundingFrequency i;
     inflationRate := inflationRate i; taxRate := taxRate i;
     expenseRatio := expenseRatio i; startYear := startYear i;
     buyPrice := buyPrice i; sellPrice := sellPrice i; quantity := quantity i;
     dividendYield := dividendYield i; propertyPrice := propertyPrice i;
     rentalIncome := rentalIncome i; monthlyExpenses := monthlyExpenses i;
     appreciationRate := appreciationRate i; annualIncome := annualIncome i;
     deductions := deductions i; targetAmount := targetAmount i;
     currentAge := currentAge i; retirementAge := retirementAge i |}.

(** SIP: 1000 at the start and 100 a month for two years at 12% a year,
    stepped up by 10% a year. *)
Definition sip_stepped : InvestmentInputs :=
  set_stepUpRate (Some 10)
    (set_monthlyContribution (Some 100)
       (set_initialInvestment (Some 1000) (blank 2 12))).

(** SIP: 1000 at the start and 100 a month for one year at 12% a year. *)
Definition sip_level : InvestmentInputs :=
  set_monthlyContribution (Some 100)
    (set_initialInvestment (Some 1000) (blank 1 12)).

(** The balance of a loan of [P] after [m] monthly payments of [emi], each
    made after a month of interest at the growth factor [g]. *)
Fixpoint amortize (P g emi : Q) (m : nat) : Q :=
  match m with
  | O => P
  | S m' => amortize P g emi m' * g - emi
  end.

(** SIP: 1000 at the start and 100 a month for two years at 12% a year,
    with inflation at 6% a year. *)
Definition sip_inflated : InvestmentInputs :=
  {| initialInvestment := Some 1000; monthlyContribution := Some 100;
     stepUpRate := None; timePeriodYears := 2; interestRate := 12;
     compoundingFrequency := None; inflationRate := Some 6; taxRate := None;
     expenseRatio := None; startYear := None; buyPrice := None;
     sellPrice := None; quantity := None; dividendYield := None;
     propertyPrice := None; rentalIncome := None; monthlyExpenses := None;
     appreciationRate := None; annualIncome := None; deductions := None;
     targetAmount := None; currentAge := None; retirementAge := None |}.

(** STOCK: 10 shares bought at 100 and sold at 150 after two years, with a
    dividend yield of 2% a year. *)
Definition stock_held : InvestmentInputs :=
  {| initialInvestment := None; monthlyContribution := None;
     stepUpRate := None; timePeriodYears := 2; interestRate := 0;
     compoundingFrequency := None; inflationRate := None; taxRate := Some 10;
     expenseRatio := None; startYear := None; buyPrice := Some 100;
     sellPrice := Some 150; quantity := Some 10; dividendYield := Some 2;
     propertyPrice := None; rentalIncome := None; monthlyExpenses := None;
     appreciationRate := None; annualIncome := None; deductions := None;
     targetAmount := None; currentAge := None; retirementAge := None |}.

(** PROPERTY: a property of 100000 appreciating by 10% a year, let at 500 a
    month with expenses of 100 a month, for two years. *)
Definition property_let : InvestmentInputs :=
  {| initialInvestment := None; monthlyContribution := None;
     stepUpRate := None; timePeriodYears := 2; interestRate := 0;
     compoundingFrequency := None; inflationRate := None; taxRate := None;
     expenseRatio := None; startYear := None; buyPrice := None;
     sellPrice := None; quantity := None; dividendYield := None;
     propertyPrice := Some 100000; rentalIncome := Some 500;
     monthlyExpenses := Some 100; appreciationRate := Some 10;
     annualIncome := None; deductions := None;
     targetAmount := None; currentAge := None; retirementAge := None |}.

From Stdlib Require String.

(** ** The results view ([Results]) *)

Module Results.
Import String.

(** An entry of the pie chart's data. *)
Record Slice : Type := { name : string; value : num }.

(** [a[i] = x] at an index within the array. *)
Fixpoint assign {A : Type} (i : nat) (x : A) (a : list A) : list A :=
  match a, i with
  | [], _ => []
  | _ :: rest, O => x :: rest
  | y :: rest, S j => y :: assign j x rest
  end.

(** [pieData], after the overrides of LOAN and TAX. *)
Definition pieData (result : CalculationResult) (mode : CalculatorMode) : list Slice :=
  let pieData :=
    [ {| name := "Invested"%string; value := totalInvested result |};
      {| name := "Gains"%string;
         value := if Js.gt (totalInterest result) (Fin 0)
                  then totalInterest result else Fin 0 |} ] in
  match mode with
  | LOAN =>
    assign 1 {| name := "Interest"%string; value := totalInterest result |}
      (assign 0 {| name := "Principal"%string; value := totalInvested result |}
         pieData)
  | TAX =>
    assign 1 {| name := "Tax"%string; value := taxPayable result |}
      (assign 0 {| name := "Net Income"%string; value := finalValue result |}
         pieData)
  | _ => pieData
  end.

(** The figure of the fourth card in TAX mode, before it is formatted:
    [totalInvested > 0 ? (taxPayable / totalInvested) * 100 : 0]. *)
Definition effectiveTaxRate (result : CalculationResult) : num :=
  if Js.gt (totalInvested result) (Fin 0)
  then (taxPayable result / totalInvested result * Fin 100)%num
  else Fin 0.

End Results.

(** ** The progress indicator of [handleCalculate] *)

(** The updater that the interval passes to [setProgress]. *)
Definition progress_tick (prev : num) : num :=
  if Js.ge prev (Fin 90) then Fin 90 else (prev + Fin 10)%num.

(** The progress after [n] ticks of the interval, from the
    [setProgress(0)] that starts a calculation. *)
Fixpoint progress_after (n : nat) : num :=
  match n with
  | O => Fin 0
  | S k => progress_tick (progress_after k)
  end.


(** ** Predicates on rows *)

(** A row whose figures are whole, with a total that covers the amount
    paid in and an interest that is not negative. *)
Definition row_covers (row : YearData) : Prop :=
  exists a b g : Z,
    invested row = Js.of_Z a /\ total row = Js.of_Z b /\
    interest row = Js.of_Z g /\ (0 <= a <= b)%Z /\ (0 <= g)%Z.

(** ** Closeness of rounded figures *)

(** [x] is a whole number less than one unit away from [q].  The engine
    rounds its figures with [Math.round] after computing them in floating
    point; a rounded figure is compared with a closed form up to this
    distance, which the rounding errors of the doubles do not exceed for
    amounts far below 2^53. *)
Definition near (x : num) (q : Q) : Prop :=
  exists z : Z, x = Js.of_Z z /\ -1 < inject_Z z - q /\ inject_Z z - q < 1.

(** [x] and [y] are whole numbers at most one unit apart. *)
Definition within_one (x y : num) : Prop :=
  exists a b : Z, x = Js.of_Z a /\ y = Js.of_Z b /\ (-1 <= a - b <= 1)%Z.

(** ** More input updates *)

Definition set_inflationRate (v : option Q) (i : InvestmentInputs) : InvestmentInputs :=
  {| initialInvestment := initialInvestment i;
     monthlyContribution := monthlyContribution i; stepUpRate := stepUpRate i;
     timePeriodYears := timePeriodYears i; interestRate := interestRate i;
     compoundingFrequency := compoundingFrequency i;
     inflationRate := v; taxRate := taxRate i;
     expenseRatio := expenseRatio i; startYear := startYear i;
     buyPrice := buyPrice i; sellPrice := sellPrice i; quantity := quantity i;
     dividendYield := dividendYield i; propertyPrice := propertyPrice i;
     rentalIncome := rentalIncome i; monthlyExpenses := monthlyExpenses i;
     appreciationRate := appreciationRate i; annualIncome := annualIncome i;
     deductions := deductions i; targetAmount := targetAmount i;
     currentAge := currentAge i; retirementAge := retirementAge i |}.

Definition set_expenseRatio (v : option Q) (i : InvestmentInputs) : InvestmentInputs :=
  {| initialInvestment := initialInvestment i;
     monthlyContribution := monthlyContribution i; stepUpRate := stepUpRate i;
     timePeriodYears := timePeriodYears i; interestRate := interestRate i;
     compoundingFrequency := compoundingFrequency i;
     inflationRate := inflationRate i; taxRate := taxRate i;
     expenseRatio := v; startYear := startYear i;
     buyPrice := buyPrice i; sellPrice := sellPrice i; quantity := quantity i;
     dividendYield := dividendYield i; propertyPrice := propertyPrice i;
     rentalIncome := rentalIncome i; monthlyExpenses := monthlyExpenses i;
     appreciationRate := appreciationRate i; annualIncome := annualIncome i;
     deductions := deductions i; targetAmount := targetAmount i;
     currentAge := currentAge i; retirementAge := retirementAge i |}.

(** * Properties *)

(** ** Numbers *)

Lemma is_pos_true (q : Q) : Js.is_pos q = true <-> 0 < q.
Proof.
  unfold Js.is_pos. rewrite negb_true_iff, <- not_true_iff_false, Qle_bool_iff.
  split; [apply Qnot_le_lt | apply Qlt_not_le].
Qed.

Lemma is_pos_false (q : Q) : Js.is_pos q = false <-> q <= 0.
Proof.
  unfold Js.is_pos. now rewrite negb_false_iff, Qle_bool_iff.
Qed.

Lemma is_neg_true (q : Q) : Js.is_neg q = true <-> q < 0.
Proof.
  unfold Js.is_neg. rewrite negb_true_iff, <- not_true_iff_false, Qle_bool_iff.
  split; [apply Qnot_le_lt | apply Qlt_not_le].
Qed.

Lemma is_neg_false (q : Q) : Js.is_neg q = false <-> 0 <= q.
Proof.
  unfold Js.is_neg. now rewrite negb_false_iff, Qle_bool_iff.
Qed.

Lemma is_zero_true (q : Q) : Js.is_zero q = true <-> q == 0.
Proof. apply Qeq_bool_iff. Qed.

Lemma is_zero_false (q : Q) : Js.is_zero q = false <-> ~ q == 0.
Proof.
  unfold Js.is_zero. rewrite <- not_true_iff_false. now rewrite Qeq_bool_iff.
Qed.

(** Settle a sign test of the model from the order facts at hand. *)
Ltac known_nonzero q :=
  let H := fresh in
  assert (Js.is_zero q = false) as H by (apply is_zero_false; lra);
  rewrite H; clear H.

Ltac known_positive q :=
  let H := fresh in
  assert (Js.is_pos q = true) as H by (apply is_pos_true; lra);
  rewrite H; clear H.

(** [Math.max(0, x)] on a finite number. *)
Lemma Math_max_0_Fin (x : Q) :
  exists m, Js.Math_max (Fin 0) (Fin x) = Fin m /\ m == Qmax 0 x.
Proof.
  unfold Js.Math_max, Js.lt. fold (Js.is_pos x).
  destruct (Js.is_pos x) eqn:E.
  - exists x. split; [reflexivity|].
    apply is_pos_true in E. symmetry. apply Q.max_r. lra.
  - exists 0. split; [reflexivity|].
    apply is_pos_false in E. symmetry. now apply Q.max_l.
Qed.

Lemma round_Q_comp (a b : Q) : a == b -> Js.round_Q a = Js.round_Q b.
Proof.
  intros E. unfold Js.round_Q. now rewrite E.
Qed.

Lemma round_Q_bounds (q : Q) :
  inject_Z (Js.round_Q q) <= q + (1 # 2) /\ q + (1 # 2) < inject_Z (Js.round_Q q + 1).
Proof.
  unfold Js.round_Q. split.
  - apply Qfloor_le.
  - apply Qlt_floor.
Qed.

Lemma round_Q_inject (z : Z) : Js.round_Q (inject_Z z) = z.
Proof.
  pose proof (round_Q_bounds (inject_Z z)) as [L U].
  set (k := Js.round_Q (inject_Z z)) in *.
  assert (inject_Z (2 * k) <= inject_Z (2 * z + 1)) as L'.
  { rewrite inject_Z_mult, inject_Z_plus, inject_Z_mult.
    change (inject_Z 2) with 2. change (inject_Z 1) with 1. lra. }
  assert (inject_Z (2 * z + 1) < inject_Z (2 * (k + 1))) as U'.
  { rewrite inject_Z_plus in U.
    rewrite inject_Z_mult, inject_Z_plus, !inject_Z_mult, inject_Z_plus.
    change (inject_Z 2) with 2. change (inject_Z 1) with 1 in *. lra. }
  rewrite <- Zle_Qle in L'. rewrite <- Zlt_Qlt in U'. lia.
Qed.

Lemma round_Q_nonneg (q : Q) : 0 <= q -> (0 <= Js.round_Q q)%Z.
Proof.
  intros H. pose proof (round_Q_bounds q) as [_ U].
  set (k := Js.round_Q q) in *.
  assert (inject_Z 0 < inject_Z (k + 1)) as U'.
  { change (inject_Z 0) with 0. lra. }
  rewrite <- Zlt_Qlt in U'. lia.
Qed.

(** Rounding a difference and subtracting two roundings differ by at most
    one unit. *)
Lemma round_Q_diff (a b : Q) :
  (-1 <= Js.round_Q (a - b) - (Js.round_Q a - Js.round_Q b) <= 1)%Z.
Proof.
  pose proof (round_Q_bounds a) as [La Ua].
  pose proof (round_Q_bounds b) as [Lb Ub].
  pose proof (round_Q_bounds (a - b)) as [Ld Ud].
  set (ra := Js.round_Q a) in *. set (rb := Js.round_Q b) in *.
  set (rd := Js.round_Q (a - b)) in *.
  rewrite inject_Z_plus in Ua, Ub, Ud. change (inject_Z 1) with 1 in *.
  assert (inject_Z (2 * rd) < inject_Z (2 * ra - 2 * rb + 3)) as H1.
  { unfold Z.sub. rewrite !inject_Z_plus, inject_Z_opp, !inject_Z_mult.
    change (inject_Z 2) with 2. change (inject_Z 3) with 3. lra. }
  assert (inject_Z (2 * ra - 2 * rb - 3) < inject_Z (2 * rd)) as H2.
  { unfold Z.sub. rewrite !inject_Z_plus, !inject_Z_opp, !inject_Z_mult.
    change (inject_Z 2) with 2. change (inject_Z 3) with 3. lra. }
  rewrite <- Zlt_Qlt in H1, H2. lia.
Qed.

Lemma isFinite_round (x : num) : Js.isFinite (Js.Math_round x) = Js.isFinite x.
Proof. now destruct x. Qed.

Lemma is_whole_round (x : num) : is_whole (Js.Math_round x) = Js.isFinite x.
Proof.
  destruct x; try reflexivity. simpl. unfold Js.is_int.
  rewrite Qfloor_Z. apply Qeq_bool_refl.
Qed.

Lemma round_Fin_inv (x : num) (q : Q) :
  Js.Math_round x = Fin q -> exists y, x = Fin y /\ q = inject_Z (Js.round_Q y).
Proof.
  destruct x; simpl; try discriminate. intros [= <-]. now exists q0.
Qed.

Lemma round_Q_le (a b : Q) : a <= b -> (Js.round_Q a <= Js.round_Q b)%Z.
Proof.
  intros H. unfold Js.round_Q. apply Qfloor_resp_le. lra.
Qed.

Lemma round_Q_0 : Js.round_Q 0 = 0%Z.
Proof. reflexivity. Qed.

Lemma of_Z_inj (a b : Z) : Js.of_Z a = Js.of_Z b -> a = b.
Proof.
  unfold Js.of_Z. intros [= H]. exact H.
Qed.

Lemma of_Z_round_inv (x : num) (z : Z) :
  Js.Math_round x = Js.of_Z z -> exists q, x = Fin q /\ z = Js.round_Q q.
Proof.
  intros H. destruct (round_Fin_inv x _ H) as (q & -> & E).
  exists q. split; [reflexivity|]. unfold inject_Z in E. now injection E.
Qed.

Lemma round_Q_near (x q : Q) : x == q -> near (Js.Math_round (Fin x)) q.
Proof.
  intros E. exists (Js.round_Q x). split; [reflexivity|].
  pose proof (round_Q_bounds x) as [L U].
  rewrite inject_Z_plus in U. change (inject_Z 1) with 1 in U.
  split; lra.
Qed.

Lemma near_of_eq (x : num) (y q : Q) :
  x = Js.of_Z (Js.round_Q y) -> y == q -> near x q.
Proof.
  intros -> E. exact (round_Q_near y q E).
Qed.


Lemma near_comp (x : num) (p q : Q) : p == q -> near x p -> near x q.
Proof.
  intros E (z & Hz & L & U). exists z. split; [exact Hz|]. rewrite <- E.
  split; assumption.
Qed.

(** ** Powers and annuities *)

Lemma qpow_pos (g : Q) (k : nat) : 0 < g -> 0 < qpow g k.
Proof.
  intros Hg. induction k as [|k IH]; simpl; [reflexivity|].
  now apply Qmult_lt_0_compat.
Qed.

Lemma qpow_ge_1 (g : Q) (k : nat) : 1 <= g -> 1 <= qpow g k.
Proof.
  intros Hg. induction k as [|k IH]; simpl; [apply Qle_refl|].
  setoid_replace 1 with (1 * 1) at 1 by ring.
  apply Qmult_le_compat_nonneg; split; lra.
Qed.

Lemma qpow_gt_1 (g : Q) (k : nat) : 1 < g -> (0 < k)%nat -> 1 < qpow g k.
Proof.
  intros Hg Hk. destruct k as [|k]; [lia|]. simpl.
  pose proof (qpow_ge_1 g k ltac:(lra)) as H.
  apply Qlt_le_trans with (1 * g); [lra|].
  apply Qmult_le_compat_r; lra.
Qed.

Lemma qpow_one (g : Q) (k : nat) : g == 1 -> qpow g k == 1.
Proof.
  intros E. induction k as [|k IH]; simpl; [reflexivity|].
  rewrite IH, E. ring.
Qed.

Lemma Qpower_qpow (g : Q) (k : nat) : 0 < g -> g ^ Z.of_nat k == qpow g k.
Proof.
  intros Hg. induction k as [|k IH]; [reflexivity|].
  rewrite Nat2Z.inj_succ. unfold Z.succ.
  rewrite Qpower_plus by lra. rewrite IH. simpl. reflexivity.
Qed.

(** The geometric sum in closed form. *)
Lemma annuity_closed (g : Q) (k : nat) : (g - 1) * annuity g k == qpow g k - 1.
Proof.
  induction k as [|k IH]; simpl; [ring|].
  setoid_replace ((g - 1) * (annuity g k * g + 1))
    with (((g - 1) * annuity g k) * g + (g - 1)) by ring.
  rewrite IH. ring.
Qed.

Lemma annuity_flat (g : Q) (k : nat) : g == 1 -> annuity g k == inject_Z (Z.of_nat k).
Proof.
  intros E. induction k as [|k IH]; [reflexivity|].
  cbn [annuity]. rewrite IH, E, Nat2Z.inj_succ. unfold Z.succ.
  rewrite inject_Z_plus. change (inject_Z 1) with 1. ring.
Qed.

(** [Math.pow] of a positive base at a whole, non-zero number of periods. *)
Lemma Math_pow_whole (host : Host) (b e : Q) (n : nat) :
  0 < b -> e == inject_Z (Z.of_nat n) -> (0 < n)%nat ->
  Js.Math_pow host (Fin b) (Fin e) = Fin (b ^ Z.of_nat n).
Proof.
  intros Hb He Hn. unfold Js.Math_pow.
  assert (Js.is_zero e = false) as ->.
  { apply is_zero_false. rewrite He. intros H.
    assert (inject_Z 0 < inject_Z (Z.of_nat n)) as H' by (rewrite <- Zlt_Qlt; lia).
    rewrite H in H'. now apply Qlt_irrefl in H'. }
  unfold Js.pow_fin.
  assert (Qfloor e = Z.of_nat n) as Hf by (rewrite He; apply Qfloor_Z).
  assert (Js.is_int e = true) as ->.
  { unfold Js.is_int. rewrite Hf. apply Qeq_bool_iff. now symmetry. }
  assert (Js.is_zero b = false) as ->.
  { apply is_zero_false. intros H. rewrite H in Hb. now apply Qlt_irrefl in Hb. }
  now rewrite Hf.
Qed.

(** ** The returned record (C1, C8) *)

(** C1, as the specification words it, fails: with 0.25 invested and 0.625
    returned the three fields are 0, 1 and 0, and 0 is not 1 - 0. *)
Lemma totalInterest_is_not_the_field_difference :
  let r := calculateInvestment host_2025 ROI roi_quarter in
  totalInvested r = Fin 0 /\ finalValue r = Fin 1 /\ totalInterest r = Fin 0 /\
  Js.strict_eq (totalInterest r) (finalValue r - totalInvested r)%num = false.
Proof. vm_compute. repeat split. Qed.

(** C1 (amended): [totalInterest] is the rounding of the unrounded
    difference [finalValue - totalInvested]; the returned [finalValue] and
    [totalInvested] are rounded separately, so the returned fields satisfy
    the equation up to one unit. *)
Theorem totalInterest_rounds_the_difference (host : Host)
    (mode : CalculatorMode) (inputs : InvestmentInputs) :
  let st := strategy host mode inputs in
  let r := calculateInvestment host mode inputs in
  totalInvested r = Js.Math_round (l_totalInvested st) /\
  finalValue r = Js.Math_round (l_finalValue st) /\
  totalInterest r = Js.Math_round (l_finalValue st - l_totalInvested st)%num /\
  forall a b t : Q,
    totalInvested r = Fin a -> finalValue r = Fin b -> totalInterest r = Fin t ->
    Qabs (t - (b - a)) <= 1.
Proof.
  cbv zeta. repeat split.
  intros a b t Ha Hb Ht.
  unfold calculateInvestment in Ha, Hb, Ht.
  cbn [totalInvested finalValue totalInterest] in Ha, Hb, Ht.
  apply round_Fin_inv in Ha as (x & Ex & ->).
  apply round_Fin_inv in Hb as (y & Ey & ->).
  rewrite Ex, Ey in Ht. injection Ht as <-.
  pose proof (round_Q_diff y x) as [L U].
  fold (y - x) in *.
  set (rd := Js.round_Q (y - x)) in *.
  set (ry := Js.round_Q y) in *. set (rx := Js.round_Q x) in *.
  apply Qabs_Qle_condition. split.
  - setoid_replace (inject_Z rd - (inject_Z ry - inject_Z rx))
      with (inject_Z (rd - (ry - rx))).
    + change (- (1)) with (inject_Z (-1)). now rewrite <- Zle_Qle.
    + unfold Z.sub. rewrite !inject_Z_plus, !inject_Z_opp, inject_Z_plus, inject_Z_opp. ring.
  - setoid_replace (inject_Z rd - (inject_Z ry - inject_Z rx))
      with (inject_Z (rd - (ry - rx))).
    + change 1 with (inject_Z 1). now rewrite <- Zle_Qle.
    + unfold Z.sub. rewrite !inject_Z_plus, !inject_Z_opp, inject_Z_plus, inject_Z_opp. ring.
Qed.

Lemma totalInterest_rounds_the_difference_witness :
  let r := calculateInvestment host_2025 ROI roi_quarter in
  totalInvested r = Fin 0 /\ finalValue r = Fin 1 /\ totalInterest r = Fin 0 /\
  Qabs (0 - (1 - 0)) <= 1.
Proof.
  cbv zeta. repeat split; try (vm_compute; reflexivity).
  apply (totalInterest_rounds_the_difference host_2025 ROI roi_quarter);
    vm_compute; reflexivity.
Defined.

(** C8, as the specification words it, fails: 10 at 5% for one year ends
    at 10.5, the last row's [realValue] is 11, and [purchasingPowerLoss]
    is -0.5. *)
Lemma purchasingPowerLoss_is_not_whole :
  let r := calculateInvestment host_2025 LUMPSUM lumpsum_10 in
  Js.strict_eq (purchasingPowerLoss r) (Fin (- (1 # 2))) = true /\
  is_whole (purchasingPowerLoss r) = false.
Proof. vm_compute. split; reflexivity. Qed.

(** C8 (amended): [totalInvested], [finalValue], [totalInterest],
    [taxPayable], [postTaxValue] and [monthlyPayment] are whole numbers
    whenever they are finite; [purchasingPowerLoss] is the unrounded final
    value less the last row's [realValue] and is not rounded. *)
Theorem rounded_fields_are_whole (host : Host) (mode : CalculatorMode)
    (inputs : InvestmentInputs) :
  let st := strategy host mode inputs in
  let r := calculateInvestment host mode inputs in
  is_whole (totalInvested r) = Js.isFinite (totalInvested r) /\
  is_whole (finalValue r) = Js.isFinite (finalValue r) /\
  is_whole (totalInterest r) = Js.isFinite (totalInterest r) /\
  is_whole (taxPayable r) = Js.isFinite (taxPayable r) /\
  is_whole (postTaxValue r) = Js.isFinite (postTaxValue r) /\
  is_whole (monthlyPayment r) = Js.isFinite (monthlyPayment r) /\
  purchasingPowerLoss r =
    (l_finalValue st - match last_row (l_yearlyData st) with
                       | Some row => Js.or_else (realValue row) 0
                       | None => 0
                       end)%num.
Proof.
  cbv zeta. unfold calculateInvestment.
  cbn [totalInvested finalValue totalInterest taxPayable postTaxValue
       monthlyPayment purchasingPowerLoss].
  rewrite !is_whole_round, !isFinite_round. repeat split.
Qed.

(** ** Defaults of absent fields (C4) *)

(** C4, as the specification words it, fails: with no [targetAmount], the
    GOAL strategy asks for 83333 a month and ends at 1000000; a target of
    0 would ask for nothing. *)
Lemma absent_target_is_a_million :
  let r := calculateInvestment host_2025 GOAL (blank 1 0) in
  targetAmount (blank 1 0) = None /\
  monthlyPayment r = Fin 83333 /\
  finalValue r = Fin 1000000 /\
  Js.Math_round (goal_payment host_2025 0 0 0 12) = Fin 0.
Proof. vm_compute. repeat split. Qed.

(** A [targetAmount] of 0 is read as 1000000 too. *)
Lemma zero_target_is_a_million :
  let r := calculateInvestment host_2025 GOAL
             (set_targetAmount (Some 0) (blank 1 0)) in
  monthlyPayment r = Fin 83333 /\ finalValue r = Fin 1000000.
Proof. vm_compute. split; reflexivity. Qed.

(** In ROI mode an absent [sellPrice] is read as the amount invested. *)
Lemma absent_sellPrice_is_the_investment :
  let r := calculateInvestment host_2025 ROI roi_unsold in
  sellPrice roi_unsold = None /\ finalValue r = Fin 1000.
Proof. vm_compute. split; reflexivity. Qed.

(** ** The length of the schedule (C5) *)

Lemma for_loop_push_length {A : Type} (f : nat -> A) (n : nat) :
  length (for_loop n (fun i acc => acc ++ [f i]) []) = n.
Proof.
  induction n as [|n IH]; [reflexivity|].
  cbn [for_loop]. rewrite length_app, IH. simpl. lia.
Qed.

Lemma div12_succ (k : nat) :
  (S k / 12 = k / 12 + (if S k mod 12 =? 0 then 1 else 0))%nat.
Proof.
  pose proof (Nat.div_mod_eq (S k) 12). pose proof (Nat.div_mod_eq k 12).
  pose proof (Nat.mod_upper_bound (S k) 12 ltac:(lia)).
  pose proof (Nat.mod_upper_bound k 12 ltac:(lia)).
  destruct (S k mod 12 =? 0)%nat eqn:E.
  - apply Nat.eqb_eq in E. lia.
  - apply Nat.eqb_neq in E. lia.
Qed.

(** Twelve months to the year: the month loop meets as many year ends as
    the year loops have iterations. *)
Lemma trip_count_months (d : Q) : (trip_count (d * 12) / 12 = trip_count d)%nat.
Proof.
  unfold trip_count.
  pose proof (Qfloor_le d) as Ld. pose proof (Qlt_floor d) as Ud.
  pose proof (Qfloor_le (d * 12)) as Lm. pose proof (Qlt_floor (d * 12)) as Um.
  set (k := Qfloor d) in *. set (m := Qfloor (d * 12)) in *.
  rewrite inject_Z_plus in Ud, Um. change (inject_Z 1) with 1 in *.
  assert (12 * k <= m < 12 * k + 12)%Z as [L U].
  { split.
    - assert (inject_Z (12 * k) < inject_Z (m + 1)) as H.
      { rewrite inject_Z_mult, inject_Z_plus.
        change (inject_Z 12) with 12. change (inject_Z 1) with 1. lra. }
      rewrite <- Zlt_Qlt in H. lia.
    - assert (inject_Z m < inject_Z (12 * k + 12)) as H.
      { rewrite inject_Z_plus, inject_Z_mult.
        change (inject_Z 12) with 12. lra. }
      now rewrite <- Zlt_Qlt in H. }
  destruct (Z.le_gt_cases 0 k) as [Hk|Hk].
  - change 12%nat with (Z.to_nat 12).
    rewrite <- Z2Nat.inj_div by lia. f_equal.
    symmetry. apply (Z.div_unique m 12 k (m - 12 * k)); lia.
  - replace (Z.to_nat m) with 0%nat by lia. replace (Z.to_nat k) with 0%nat by lia.
    reflexivity.
Qed.

Lemma trip_count_whole (n : nat) (d : Q) :
  d == inject_Z (Z.of_nat n) -> trip_count d = n.
Proof.
  intros E. unfold trip_count. rewrite E, Qfloor_Z. apply Nat2Z.id.
Qed.

Lemma supplied_nonzero (x : option Q) (q : Q) :
  x = Some q -> ~ q == 0 -> supplied x = true.
Proof.
  intros -> H. unfold supplied. apply negb_true_iff. now apply is_zero_false.
Qed.

Section ScheduleLength.
Variable host : Host.

Lemma sip_rows_length (mr su infl sy : Q) (a0 : Accum) (n : nat) :
  length (rows (for_loop n (sip_month host mr su infl sy) a0))
  = (length (rows a0) + n / 12)%nat.
Proof.
  induction n as [|n IH]; [simpl; lia|].
  rewrite div12_succ. cbn [for_loop]. unfold sip_month at 1.
  destruct (S n mod 12 =? 0)%nat; cbn [rows].
  - rewrite length_app, IH. simpl. lia.
  - rewrite IH. lia.
Qed.

Lemma goal_rows_length (rpm infl sy : Q) (a0 : Accum) (n : nat) :
  length (rows (for_loop n (goal_month host rpm infl sy) a0))
  = (length (rows a0) + n / 12)%nat.
Proof.
  induction n as [|n IH]; [simpl; lia|].
  rewrite div12_succ. cbn [for_loop]. unfold goal_month at 1. cbn [rows].
  destruct (S n mod 12 =? 0)%nat.
  - rewrite length_app, IH. simpl. lia.
  - rewrite IH. lia.
Qed.

Lemma property_rows_length (p ri me ar infl sy : Q)
    (a0 : PropAccum) (n : nat) :
  length (prop_rows (for_loop n (property_year host p ri me ar infl sy) a0))
  = (length (prop_rows a0) + n)%nat.
Proof.
  induction n as [|n IH]; [simpl; lia|].
  cbn [for_loop]. unfold property_year at 1. cbn [prop_rows].
  rewrite length_app, IH. simpl. lia.
Qed.

Lemma strategy_rows_length (mode : CalculatorMode)
    (inputs : InvestmentInputs) :
  length (l_yearlyData (strategy host mode inputs))
  = match mode with
    | TAX => 1%nat
    | _ => trip_count (effective_duration mode inputs)
    end.
Proof.
  unfold strategy.
  destruct mode; cbn [l_yearlyData sip_branch goal_branch compound_branch
    loan_branch stock_branch property_branch roi_branch tax_branch];
    try apply for_loop_push_length; try reflexivity.
  - rewrite sip_rows_length. apply trip_count_months.
  - rewrite property_rows_length. reflexivity.
  - rewrite goal_rows_length. apply trip_count_months.
  - rewrite sip_rows_length. apply trip_count_months.
Qed.

End ScheduleLength.

(** C5, as the specification words it, fails: with both ages supplied,
    retirement at 60 and a current age of 0, the effective duration is not
    max(1, 60 - 0) = 60 but the ten-year period, and the schedule has ten
    rows. *)
Lemma zero_age_keeps_the_time_period :
  let r := calculateInvestment host_2025 RETIREMENT retire_from_birth in
  currentAge retire_from_birth = Some 0 /\
  retirementAge retire_from_birth = Some 60 /\
  Z.to_nat (Qfloor (Qmax 1 (60 - 0))) = 60%nat /\
  durationYears r = Fin 10 /\
  length (yearlyData r) = 10%nat.
Proof. vm_compute. repeat split. Qed.

(** A duration that is not a whole number of years leaves the schedule
    with its whole part: two rows for two and a half years. *)
Lemma fractional_years_are_dropped :
  let r := calculateInvestment host_2025 LUMPSUM lumpsum_30_months in
  durationYears r = Fin (5 # 2) /\ length (yearlyData r) = 2%nat.
Proof. vm_compute. split; reflexivity. Qed.

(** C5 (amended): the schedule has one row in TAX mode and, in every other
    mode, as many rows as the whole part of the effective duration, hence
    exactly the effective duration when that is a whole number of years.
    The effective duration is [timePeriodYears], except in RETIREMENT mode
    when both ages are supplied and are not zero, where it is
    [max 1 (retirementAge - currentAge)]. *)
Theorem yearlyData_length (host : Host) (mode : CalculatorMode)
    (inputs : InvestmentInputs) :
  let r := calculateInvestment host mode inputs in
  let d := effective_duration mode inputs in
  durationYears r = Fin d /\
  length (yearlyData r)
  = match mode with TAX => 1%nat | _ => Z.to_nat (Qfloor d) end /\
  (forall n : nat,
     d == inject_Z (Z.of_nat n) -> mode <> TAX -> length (yearlyData r) = n) /\
  (mode <> RETIREMENT -> d = timePeriodYears inputs) /\
  (forall c ret : Q,
     mode = RETIREMENT ->
     currentAge inputs = Some c -> retirementAge inputs = Some ret ->
     ~ c == 0 -> ~ ret == 0 -> d = Qmax 1 (ret - c)) /\
  (mode = RETIREMENT ->
   supplied (currentAge inputs) && supplied (retirementAge inputs) = false ->
   d = timePeriodYears inputs).
Proof.
  cbv zeta.
  assert (length (yearlyData (calculateInvestment host mode inputs))
          = match mode with
            | TAX => 1%nat
            | _ => trip_count (effective_duration mode inputs)
            end) as Hlen by apply strategy_rows_length.
  split; [reflexivity|]. split; [exact Hlen|]. split.
  { intros n E Hm. rewrite Hlen.
    destruct mode; try (now apply trip_count_whole); now elim Hm. }
  split.
  { intros Hm. destruct mode; try reflexivity. now elim Hm. }
  split.
  - intros c ret -> Hc Hr Nc Nr. unfold effective_duration.
    rewrite (supplied_nonzero _ _ Hc Nc), (supplied_nonzero _ _ Hr Nr).
    rewrite Hc, Hr. reflexivity.
  - intros -> E. unfold effective_duration. now rewrite E.
Qed.

Lemma yearlyData_length_witness :
  let r := calculateInvestment host_2025 RETIREMENT retire_at_57 in
  currentAge retire_at_57 = Some 57 /\ retirementAge retire_at_57 = Some 60 /\
  effective_duration RETIREMENT retire_at_57 = Qmax 1 (60 - 57) /\
  effective_duration RETIREMENT retire_at_57 == inject_Z (Z.of_nat 3) /\
  length (yearlyData r) = 3%nat.
Proof.
  destruct (yearlyData_length host_2025 RETIREMENT retire_at_57)
    as (_ & _ & Hwhole & _ & Hages & _).
  split; [reflexivity|]. split; [reflexivity|]. split.
  - apply Hages; [reflexivity..| |]; discriminate.
  - split; [reflexivity|]. apply Hwhole; [reflexivity|discriminate].
Defined.

(** ** TAX mode (C6) *)

(** The final value and the tax of TAX mode before rounding. *)
Lemma tax_final_value (host : Host) (inputs : InvestmentInputs) :
  let income := or_dflt (annualIncome inputs) 0 in
  let taxableIncome := Qmax 0 (income - or_dflt (deductions inputs) 0) in
  let tax := taxableIncome * (dflt (taxRate inputs) 0 / 100) in
  exists fv, l_finalValue (strategy host TAX inputs) = Fin fv /\ fv == income - tax.
Proof.
  cbv zeta. unfold strategy, tax_branch. cbn [l_finalValue].
  set (income := or_dflt (annualIncome inputs) 0).
  set (ded := or_dflt (deductions inputs) 0).
  change (Fin income - Fin ded)%num with (Fin (income - ded)).
  destruct (Math_max_0_Fin (income - ded)) as (m & -> & Hm).
  eexists. split; [reflexivity|]. now rewrite Hm.
Qed.

Lemma tax_mode_payable (host : Host) (inputs : InvestmentInputs) :
  let income := or_dflt (annualIncome inputs) 0 in
  let taxableIncome := Qmax 0 (income - or_dflt (deductions inputs) 0) in
  let tax := taxableIncome * (dflt (taxRate inputs) 0 / 100) in
  taxPayable (calculateInvestment host TAX inputs) = Js.of_Z (Js.round_Q tax).
Proof.
  cbv zeta. destruct (tax_final_value host inputs) as (fv & Efv & Hfv).
  unfold calculateInvestment. cbn [taxPayable tax_on]. rewrite Efv.
  change (l_totalInvested (strategy host TAX inputs))
    with (Fin (or_dflt (annualIncome inputs) 0)).
  simpl. f_equal. apply round_Q_comp. rewrite Hfv. ring.
Qed.

(** C6: the TAX strategy.  With [income], [deductions] and [taxRate] read
    with their defaults, the taxable income is [max 0 (income - deductions)]
    and the tax is that times [taxRate / 100].  The amount invested is the
    income; the single row carries the income, the unrounded tax and the
    unrounded final value; the returned [finalValue] is the income less
    the tax and the returned [taxPayable], which rounds
    [totalInvested - finalValue], is the tax, each to within one unit; and
    [postTaxValue] is [finalValue].  For income 60000, deductions 5000 and
    rate 15 the tax is 8250 and the final value 51750. *)
Theorem tax_mode_figures (host : Host) (inputs : InvestmentInputs) :
  let income := or_dflt (annualIncome inputs) 0 in
  let taxableIncome := Qmax 0 (income - or_dflt (deductions inputs) 0) in
  let tax := taxableIncome * (dflt (taxRate inputs) 0 / 100) in
  let st := strategy host TAX inputs in
  let r := calculateInvestment host TAX inputs in
  l_totalInvested st = Fin income /\
  totalInvested r = Js.of_Z (Js.round_Q income) /\
  (exists row,
     yearlyData r = [row] /\ invested row = Fin income /\
     near (Js.Math_round (interest row)) tax /\
     Js.Math_round (total row) = finalValue r /\
     realValue row = total row) /\
  near (finalValue r) (income - tax) /\
  taxPayable r = Js.Math_round (l_totalInvested st - l_finalValue st)%num /\
  near (taxPayable r) tax /\
  postTaxValue r = finalValue r /\
  (annualIncome inputs = Some 60000 -> deductions inputs = Some 5000 ->
   taxRate inputs = Some 15 ->
   taxPayable r = Fin 8250 /\ finalValue r = Fin 51750).
Proof.
  cbv zeta.
  destruct (tax_final_value host inputs) as (fv & Efv & Hfv).
  pose proof (tax_mode_payable host inputs) as Etp. cbv zeta in Etp.
  set (income := or_dflt (annualIncome inputs) 0) in *.
  set (ded := or_dflt (deductions inputs) 0) in *.
  set (rate := dflt (taxRate inputs) 0) in *.
  set (tax := Qmax 0 (income - ded) * (rate / 100)) in *.
  assert (finalValue (calculateInvestment host TAX inputs)
          = Js.of_Z (Js.round_Q (income - tax))) as Ef.
  { unfold calculateInvestment. cbn [finalValue]. rewrite Efv. simpl.
    f_equal. now apply round_Q_comp. }
  split; [reflexivity|]. split; [reflexivity|]. split.
  { eexists. split; [reflexivity|]. cbn [invested interest total realValue].
    split; [reflexivity|]. split; [|split; reflexivity].
    change (Js.Math_max (Fin 0)
              (Fin (or_dflt (annualIncome inputs) 0)
               - Fin (or_dflt (deductions inputs) 0))%num)
      with (Js.Math_max (Fin 0) (Fin (income - ded))).
    destruct (Math_max_0_Fin (income - ded)) as (m & -> & Hm).
    change (Fin m * (Fin (dflt (taxRate inputs) 0) / Fin 100))%num
      with (Fin (m * (rate / 100))).
    apply round_Q_near. unfold tax. now rewrite Hm. }
  split; [exact (near_of_eq _ _ _ Ef (Qeq_refl _))|].
  split; [reflexivity|].
  split; [exact (near_of_eq _ _ _ Etp (Qeq_refl _))|].
  split.
  { unfold calculateInvestment. cbn [postTaxValue finalValue].
    rewrite Efv. simpl. f_equal. apply round_Q_comp. ring. }
  intros Hi Hd Hr. rewrite Etp, Ef. unfold tax, income, ded, rate.
  rewrite Hi, Hd, Hr. split; reflexivity.
Qed.

Lemma tax_mode_figures_witness :
  let r := calculateInvestment host_2025 TAX tax_60000 in
  annualIncome tax_60000 = Some 60000 /\ deductions tax_60000 = Some 5000 /\
  taxRate tax_60000 = Some 15 /\
  taxPayable r = Fin 8250 /\ finalValue r = Fin 51750.
Proof.
  cbv zeta. split; [reflexivity|]. split; [reflexivity|]. split; [reflexivity|].
  apply (tax_mode_figures host_2025 tax_60000); reflexivity.
Defined.

(** ** The tax of the common stage (C10) *)

Lemma effective_rate_nonneg (inputs : InvestmentInputs) : 0 <= effective_rate inputs.
Proof. unfold effective_rate. apply Q.le_max_l. Qed.

Lemma q_or_pos (q : Q) : 0 <= q -> 0 < q_or q 1.
Proof.
  intros H. unfold q_or. destruct (Js.is_zero q) eqn:E; [reflexivity|].
  apply is_zero_false in E. lra.
Qed.

Section FiniteGain.
Variable host : Host.

(** [Math.pow] of a positive finite base at a finite exponent is finite. *)
Lemma Math_pow_pos_base (b e : Q) :
  0 < b -> exists x, Js.Math_pow host (Fin b) (Fin e) = Fin x.
Proof.
  intros Hb. unfold Js.Math_pow, Js.pow_fin.
  known_nonzero b.
  assert (Js.is_neg b = false) as -> by (apply is_neg_false; lra).
  destruct (Js.is_zero e); [now eexists|].
  destruct (Js.is_int e); [now eexists|].
  destruct (Qeq_bool b 1); now eexists.
Qed.

(** The month loop of SIP keeps balance and contributions finite. *)
Lemma sip_loop_finite (mr su infl sy P c : Q) (k : nat) :
  let a := for_loop k (sip_month host mr su infl sy)
             {| currentBalance := P; currentInvested := P;
                currentMonthlyContribution := c; rows := [] |} in
  exists b v c', currentBalance a = Fin b /\ currentInvested a = Fin v /\
                 currentMonthlyContribution a = Fin c'.
Proof.
  cbv zeta. induction k as [|k (b & v & c' & Hb & Hv & Hc)].
  - now exists P, P, c.
  - cbn [for_loop]. unfold sip_month at 1 3 5.
    rewrite Hb, Hv, Hc.
    destruct (S k mod 12 =? 0)%nat;
      cbn [currentBalance currentInvested currentMonthlyContribution].
    + destruct (Js.gt su 0); do 3 eexists; repeat split; reflexivity.
    + do 3 eexists; repeat split; reflexivity.
Qed.

(** The payment solved by GOAL is finite or [+Infinity]. *)
Lemma goal_payment_shape (target P i months : Q) :
  0 <= i ->
  (exists c, goal_payment host target P i months = Fin c)
  \/ goal_payment host target P i months = PInf.
Proof.
  intros Hi. unfold goal_payment.
  change (Fin 1 + Fin i)%num with (Fin (1 + i)).
  destruct (Math_pow_pos_base (1 + i) months ltac:(lra)) as (x & ->).
  change (Fin target - Fin P * Fin x)%num with (Fin (target - P * x)).
  set (rem := target - P * x).
  unfold Js.le. destruct (Qle_bool rem 0) eqn:Er; [left; now eexists|].
  assert (0 < rem) as Hr.
  { apply Qnot_le_lt. rewrite <- Qle_bool_iff. now rewrite Er. }
  unfold Js.strict_eq. destruct (Qeq_bool i 0) eqn:Ei.
  - unfold Js.div. destruct (Js.is_zero months); [|left; now eexists].
    known_nonzero rem. known_positive rem. now right.
  - assert (~ i == 0) as Ni by (now apply is_zero_false).
    change (Fin rem * Fin i)%num with (Fin (rem * i)).
    change (Fin x - Fin 1)%num with (Fin (x - 1)).
    assert (0 < rem * i) as Hp by (apply Qmult_lt_0_compat; lra).
    unfold Js.div. destruct (Js.is_zero (x - 1)); [|left; now eexists].
    known_nonzero (rem * i). known_positive (rem * i). now right.
Qed.

(** Under a finite payment the month loop of GOAL stays finite; under an
    infinite one, balance and contributions are both infinite from the
    first month on. *)
Lemma goal_loop_shape (rpm infl sy P : Q) (pay : num) (k : nat) :
  0 < 1 + rpm ->
  (exists c, pay = Fin c) \/ pay = PInf ->
  let a := for_loop k (goal_month host rpm infl sy)
             {| currentBalance := P; currentInvested := P;
                currentMonthlyContribution := pay; rows := [] |} in
  (exists b v, currentBalance a = Fin b /\ currentInvested a = Fin v)
  \/ (currentBalance a = PInf /\ currentInvested a = PInf).
Proof.
  intros Hg Hpay. cbv zeta.
  assert (forall j, currentMonthlyContribution
                      (for_loop j (goal_month host rpm infl sy)
                         {| currentBalance := P; currentInvested := P;
                            currentMonthlyContribution := pay; rows := [] |}) = pay) as Hc.
  { induction j as [|j IH]; [reflexivity|]. cbn [for_loop]. exact IH. }
  induction k as [|k IH].
  - left. now exists P, P.
  - cbn [for_loop]. unfold goal_month at 1 3 5 7.
    cbn [currentBalance currentInvested]. rewrite Hc.
    change (Fin 1 + Fin rpm)%num with (Fin (1 + rpm)).
    destruct IH as [(b & v & -> & ->)|[-> ->]].
    + destruct Hpay as [(c & ->)| ->].
      * left. now do 2 eexists.
      * right. now split.
    + destruct Hpay as [(c & ->)| ->]; right; simpl; unfold Js.scale_inf;
        known_nonzero (1 + rpm); known_positive (1 + rpm); now split.
Qed.

(** The year loop of PROPERTY keeps value and rent finite. *)
Lemma property_loop_finite (p ri me ar infl sy : Q) (k : nat) :
  let a := for_loop k (property_year host p ri me ar infl sy)
             {| currentPropValue := p; accumulatedNetRent := 0; prop_rows := [] |} in
  exists v w, currentPropValue a = Fin v /\ accumulatedNetRent a = Fin w.
Proof.
  cbv zeta. induction k as [|k (v & w & Hv & Hw)].
  - now exists p, 0.
  - cbn [for_loop]. unfold property_year at 1 3.
    cbn [currentPropValue accumulatedNetRent]. rewrite Hv, Hw.
    now do 2 eexists.
Qed.

(** The closed form of LUMPSUM and COMPOUND is finite when the frequency
    is positive. *)
Lemma compound_final_finite (P r n t : Q) :
  0 <= r -> 0 < n ->
  exists x, (Fin P * Js.Math_pow host (Fin 1 + Fin r / Fin n) (Fin n * Fin t))%num = Fin x.
Proof.
  intros Hr Hn. unfold Js.div.
  known_nonzero n.
  change (Fin 1 + Fin (r / n))%num with (Fin (1 + r / n)).
  change (Fin n * Fin t)%num with (Fin (n * t)).
  assert (0 <= r / n) as H by (apply Qle_shift_div_l; lra).
  destruct (Math_pow_pos_base (1 + r / n) (n * t) ltac:(lra)) as (x & ->).
  now eexists.
Qed.

(** Outside LOAN and TAX the unrounded gain is never [+Infinity]. *)
Lemma gain_not_PInf (mode : CalculatorMode) (inputs : InvestmentInputs) :
  (mode = COMPOUND -> 0 <= dflt (compoundingFrequency inputs) 1) ->
  mode <> LOAN -> mode <> TAX ->
  let st := strategy host mode inputs in
  (l_finalValue st - l_totalInvested st)%num <> PInf.
Proof.
  intros Hcf Hl Ht. cbv zeta. unfold strategy.
  pose proof (effective_rate_nonneg inputs) as Hr.
  assert (0 <= effective_rate inputs / 100) as Hr'
    by (apply Qle_shift_div_l; [reflexivity|lra]).
  assert (0 <= effective_rate inputs / 100 / 12) as Hi
    by (apply Qle_shift_div_l; [reflexivity|lra]).
  destruct mode; try (now elim Hl); try (now elim Ht).
  - (* SIP *)
    unfold sip_branch. cbn [l_finalValue l_totalInvested].
    match goal with |- context [for_loop ?k (sip_month _ ?mr ?su ?infl ?sy)
        {| currentBalance := Fin ?P; currentInvested := _;
           currentMonthlyContribution := Fin ?c; rows := _ |}] =>
      destruct (sip_loop_finite mr su infl sy P c k) as (b & v & c' & -> & -> & _)
    end. discriminate.
  - (* LUMPSUM *)
    unfold compound_branch. cbn [l_finalValue l_totalInvested].
    match goal with |- context [(Fin ?P * Js.Math_pow host (Fin 1 + Fin ?r / Fin ?n) (Fin ?n * Fin ?t))%num] =>
      destruct (compound_final_finite P r n t Hr' ltac:(reflexivity)) as (x & ->)
    end. discriminate.
  - (* STOCK *)
    unfold stock_branch. cbn [l_finalValue l_totalInvested]. discriminate.
  - (* PROPERTY *)
    unfold property_branch. cbn [l_finalValue l_totalInvested].
    match goal with |- context [for_loop ?k (property_year _ ?p ?ri ?me ?ar ?infl ?sy) _] =>
      destruct (property_loop_finite p ri me ar infl sy k) as (v & w & -> & ->)
    end. discriminate.
  - (* COMPOUND *)
    unfold compound_branch. cbn [l_finalValue l_totalInvested].
    match goal with |- context [(Fin ?P * Js.Math_pow host (Fin 1 + Fin ?r / Fin ?n) (Fin ?n * Fin ?t))%num] =>
      destruct (compound_final_finite P r n t Hr' (q_or_pos _ (Hcf eq_refl))) as (x & ->)
    end. discriminate.
  - (* ROI *)
    unfold roi_branch. cbn [l_finalValue l_totalInvested]. discriminate.
  - (* GOAL *)
    unfold goal_branch. cbn [l_finalValue l_totalInvested].
    match goal with |- context [for_loop ?k (goal_month _ ?rpm ?infl ?sy)
        {| currentBalance := Fin ?P; currentInvested := _;
           currentMonthlyContribution := ?pay; rows := _ |}] =>
      destruct (goal_loop_shape rpm infl sy P pay k ltac:(lra)
                  (goal_payment_shape _ _ _ _ Hi))
        as [(b & v & -> & ->)|[-> ->]]
    end; discriminate.
  - (* RETIREMENT *)
    unfold sip_branch. cbn [l_finalValue l_totalInvested].
    match goal with |- context [for_loop ?k (sip_month _ ?mr ?su ?infl ?sy)
        {| currentBalance := Fin ?P; currentInvested := _;
           currentMonthlyContribution := Fin ?c; rows := _ |}] =>
      destruct (sip_loop_finite mr su infl sy P c k) as (b & v & c' & -> & -> & _)
    end. discriminate.
Qed.

End FiniteGain.

(** The tax of the common stage is the rounding of a number that is not
    negative, or, when the gain is [+Infinity], [+Infinity] or [NaN]. *)
Lemma taxPayable_shape (host : Host) (mode : CalculatorMode)
    (inputs : InvestmentInputs) :
  0 <= dflt (taxRate inputs) 0 ->
  let st := strategy host mode inputs in
  let t := taxPayable (calculateInvestment host mode inputs) in
  (exists z : Z, t = Js.of_Z z /\ (0 <= z)%Z)
  \/ ((l_finalValue st - l_totalInvested st)%num = PInf
      /\ mode <> LOAN /\ mode <> TAX /\ (t = PInf \/ t = NaN)).
Proof.
  intros Hrate. cbv zeta.
  set (rate := dflt (taxRate inputs) 0) in *.
  assert (0 <= rate / 100) as Hr by (apply Qle_shift_div_l; [reflexivity|lra]).
  destruct (CalculatorMode_eq_dec mode LOAN) as [->|Nl].
  { left. exists 0%Z. split; [reflexivity|lia]. }
  destruct (CalculatorMode_eq_dec mode TAX) as [->|Nt].
  { left. rewrite tax_mode_payable. eexists. split; [reflexivity|].
    apply round_Q_nonneg. apply Qmult_le_0_compat; [apply Q.le_max_l|exact Hr]. }
  assert (taxPayable (calculateInvestment host mode inputs)
          = Js.Math_round
              (if Js.gt (l_finalValue (strategy host mode inputs)
                         - l_totalInvested (strategy host mode inputs)) 0
               then (l_finalValue (strategy host mode inputs)
                     - l_totalInvested (strategy host mode inputs))
                    * (Fin rate / Fin 100)
               else 0)%num) as ->.
  { unfold calculateInvestment. cbn [taxPayable]. fold rate.
    destruct mode; try reflexivity; [now elim Nl | now elim Nt]. }
  destruct (l_finalValue (strategy host mode inputs)
            - l_totalInvested (strategy host mode inputs))%num as [g| | |];
    try (left; exists 0%Z; split; [reflexivity|lia]).
  - left. change (Js.gt (Fin g) (Fin 0)) with (Js.is_pos g).
    destruct (Js.is_pos g) eqn:Eg; [|exists 0%Z; split; [reflexivity|lia]].
    apply is_pos_true in Eg.
    change (Fin g * (Fin rate / Fin 100))%num with (Fin (g * (rate / 100))).
    eexists. split; [reflexivity|].
    apply round_Q_nonneg. apply Qmult_le_0_compat; lra.
  - right. split; [reflexivity|]. split; [exact Nl|]. split; [exact Nt|].
    change (Js.gt PInf (Fin 0)) with true.
    change (PInf * (Fin rate / Fin 100))%num with (Js.scale_inf true (rate / 100)).
    unfold Js.scale_inf. destruct (Js.is_zero (rate / 100)) eqn:Ez; [now right|].
    apply is_zero_false in Ez. known_positive (rate / 100). now left.
Qed.

(** C10 (amended): with a tax rate that is not negative and, in COMPOUND
    mode, a compounding frequency that is not negative (as the documented
    frequencies are), the returned [taxPayable] is a whole number [>= 0].
    It is 0 in LOAN mode; in TAX mode it is, to within one unit, the flat
    tax [max 0 (income - deductions) * taxRate / 100]; and in the other
    modes it is the rounded tax on the gain, charged only when the gain is
    positive. *)
Theorem taxPayable_nonneg (host : Host) (mode : CalculatorMode)
    (inputs : InvestmentInputs) :
  let st := strategy host mode inputs in
  let r := calculateInvestment host mode inputs in
  let rate := dflt (taxRate inputs) 0 in
  let gain := (l_finalValue st - l_totalInvested st)%num in
  0 <= rate ->
  (mode = COMPOUND -> 0 <= dflt (compoundingFrequency inputs) 1) ->
  (exists z : Z, taxPayable r = Js.of_Z z /\ (0 <= z)%Z) /\
  Js.ge (taxPayable r) (Fin 0) = true /\
  (mode = LOAN -> taxPayable r = Fin 0) /\
  (mode = TAX ->
   near (taxPayable r)
     (Qmax 0 (or_dflt (annualIncome inputs) 0 - or_dflt (deductions inputs) 0)
      * (rate / 100))) /\
  (mode <> LOAN -> mode <> TAX ->
   taxPayable r
   = Js.Math_round (if Js.gt gain (Fin 0) then gain * (Fin rate / Fin 100)
                    else Fin 0)%num).
Proof.
  intros st r rate gain Hrate Hcf.
  pose proof (taxPayable_shape host mode inputs Hrate) as Hshape.
  cbv zeta in Hshape. fold st r in Hshape.
  assert (exists z : Z, taxPayable r = Js.of_Z z /\ (0 <= z)%Z) as Hz.
  { destruct Hshape as [Hz|(Hg & Nl & Nt & _)]; [exact Hz|].
    now elim (gain_not_PInf host mode inputs Hcf Nl Nt). }
  split; [exact Hz|]. split.
  { destruct Hz as (z & -> & Hz). unfold Js.ge, Js.le, Js.of_Z.
    apply Qle_bool_iff. change 0 with (inject_Z 0). now rewrite <- Zle_Qle. }
  split; [now intros ->|]. split.
  { intros ->. exact (near_of_eq _ _ _ (tax_mode_payable host inputs) (Qeq_refl _)). }
  intros Nl Nt. unfold r, calculateInvestment. cbn [taxPayable]. fold rate.
  destruct mode; try reflexivity; [now elim Nl | now elim Nt].
Qed.

Lemma taxPayable_nonneg_witness :
  0 <= dflt (taxRate compound_taxed) 0 /\
  0 <= dflt (compoundingFrequency compound_taxed) 1 /\
  taxPayable (calculateInvestment host_2025 COMPOUND compound_taxed) = Fin 10 /\
  Js.ge (taxPayable (calculateInvestment host_2025 COMPOUND compound_taxed)) (Fin 0)
  = true.
Proof.
  assert (0 <= dflt (taxRate compound_taxed) 0) as H1 by (vm_compute; discriminate).
  assert (0 <= dflt (compoundingFrequency compound_taxed) 1) as H2
    by (vm_compute; discriminate).
  destruct (taxPayable_nonneg host_2025 COMPOUND compound_taxed H1 (fun _ => H2))
    as (_ & Hge & _).
  split; [exact H1|]. split; [exact H2|]. split; [reflexivity|exact Hge].
Defined.

(** C10, as the specification words it, fails: at a compounding frequency
    of -1 and a rate of 100% the compounding base is 0, the final value is
    [+Infinity], and a tax rate of 0, which is not negative, turns the tax
    on that gain into [NaN], which is not [>= 0]. *)
Lemma negative_frequency_tax_is_NaN :
  let r := calculateInvestment host_2025 COMPOUND compound_backwards in
  0 <= dflt (taxRate compound_backwards) 0 /\
  compoundingFrequency compound_backwards = Some (-1) /\
  finalValue r = PInf /\
  taxPayable r = NaN /\
  Js.ge (taxPayable r) (Fin 0) = false.
Proof. vm_compute. repeat split. discriminate. Qed.

(** ** The GOAL strategy (C3, C9) *)

(** The month loop of GOAL with a finite payment: the balance after [k]
    months is the compounded lump sum plus the annuity of the payment. *)
Lemma goal_loop_balance (host : Host) (rpm infl sy P c : Q) (k : nat) :
  let a := for_loop k (goal_month host rpm infl sy)
             {| currentBalance := P; currentInvested := P;
                currentMonthlyContribution := c; rows := [] |} in
  currentMonthlyContribution a = Fin c /\
  exists b, currentBalance a = Fin b /\
            b == P * qpow (1 + rpm) k + c * annuity (1 + rpm) k.
Proof.
  cbv zeta. induction k as [|k (Hc & b & Hb & Eb)].
  - split; [reflexivity|]. exists P. split; [reflexivity|]. simpl. ring.
  - cbn [for_loop]. unfold goal_month at 1 3.
    cbn [currentMonthlyContribution currentBalance].
    rewrite Hc, Hb. split; [reflexivity|].
    eexists. split; [reflexivity|]. rewrite Eb. simpl. ring.
Qed.

(** With no step-up the month of SIP is the month of GOAL. *)
Lemma sip_month_level (host : Host) (mr infl sy : Q) (i : nat) (a : Accum) :
  sip_month host mr 0 infl sy i a = goal_month host mr infl sy i a.
Proof.
  unfold sip_month, goal_month. now destruct (i mod 12 =? 0)%nat.
Qed.

Lemma sip_loop_level (host : Host) (mr infl sy : Q) (k : nat) (a : Accum) :
  for_loop k (sip_month host mr 0 infl sy) a
  = for_loop k (goal_month host mr infl sy) a.
Proof.
  induction k as [|k IH]; [reflexivity|].
  cbn [for_loop]. now rewrite IH, sip_month_level.
Qed.

(** The payment solved by GOAL over a whole number [n] of months. *)
Lemma goal_payment_whole (host : Host) (target P i months : Q) (n : nat) :
  0 <= i -> (0 < n)%nat -> months == inject_Z (Z.of_nat n) ->
  let remaining := target - P * (1 + i) ^ Z.of_nat n in
  (remaining <= 0 -> goal_payment host target P i months = Fin 0) /\
  (0 < remaining ->
   exists pmt : Q,
     goal_payment host target P i months = Fin pmt /\
     (i == 0 -> pmt == remaining / inject_Z (Z.of_nat n)) /\
     P * qpow (1 + i) n + pmt * annuity (1 + i) n == target).
Proof.
  intros Hi Hn Hm remaining.
  assert (0 < 1 + i) as Hg by lra.
  assert (~ inject_Z (Z.of_nat n) == 0) as Hn0.
  { intros H.
    assert (inject_Z 0 < inject_Z (Z.of_nat n)) as H' by (rewrite <- Zlt_Qlt; lia).
    rewrite H in H'. now apply Qlt_irrefl in H'. }
  pose proof (Qpower_qpow (1 + i) n Hg) as Hpow.
  unfold goal_payment.
  change (Fin 1 + Fin i)%num with (Fin (1 + i)).
  rewrite (Math_pow_whole host (1 + i) months n Hg Hm Hn).
  change (Fin target - Fin P * Fin ((1 + i) ^ Z.of_nat n))%num with (Fin remaining).
  unfold Js.le. split.
  - intros Hr. apply Qle_bool_iff in Hr. now rewrite Hr.
  - intros Hr.
    assert (Qle_bool remaining 0 = false) as ->.
    { apply not_true_iff_false. rewrite Qle_bool_iff. lra. }
    unfold Js.strict_eq. destruct (Qeq_bool i 0) eqn:Ei.
    + apply Qeq_bool_iff in Ei.
      unfold Js.div.
      assert (Js.is_zero months = false) as ->.
      { apply is_zero_false. now rewrite Hm. }
      eexists. split; [reflexivity|]. split.
      * intros _. now rewrite Hm.
      * assert (1 + i == 1) as Eg by lra.
        rewrite (annuity_flat _ n Eg), Hm.
        unfold remaining. rewrite Hpow. field. exact Hn0.
    + assert (~ i == 0) as Ni by (now apply is_zero_false).
      assert (1 < qpow (1 + i) n) as Hx by (apply qpow_gt_1; [lra|lia]).
      change (Fin remaining * Fin i)%num with (Fin (remaining * i)).
      change (Fin ((1 + i) ^ Z.of_nat n) - Fin 1)%num
        with (Fin ((1 + i) ^ Z.of_nat n - 1)).
      unfold Js.div.
      assert (Js.is_zero ((1 + i) ^ Z.of_nat n - 1) = false) as ->.
      { apply is_zero_false. rewrite Hpow. lra. }
      eexists. split; [reflexivity|]. split.
      * intros E. now elim Ni.
      * pose proof (annuity_closed (1 + i) n) as Hc.
        assert (annuity (1 + i) n == (qpow (1 + i) n - 1) / i) as ->.
        { rewrite <- Hc. field. exact Ni. }
        unfold remaining. rewrite Hpow. field. split; [exact Ni|lra].
Qed.

Lemma annuity_nonneg (g : Q) (k : nat) : 0 <= g -> 0 <= annuity g k.
Proof.
  intros Hg. induction k as [|k IH]; [apply Qle_refl|].
  cbn [annuity]. assert (0 <= annuity g k * g) by (apply Qmult_le_0_compat; lra).
  lra.
Qed.

(** C3, as the specification words it, fails, in three ways.  In part
    months: to reach 12600 in 1.05 years (12.6 months) at 0% the solved
    payment is 12600 / 12.6 = 1000, but the month loop runs twelve times,
    so GOAL, and SIP fed with that payment, end at 12000.  With the
    returned payment: to reach 1000000 in one year at 0% the payment is
    83333.33..., returned as 83333, and SIP fed with 83333 ends at 999996.
    With the other parameters kept as they are: GOAL never reads a step-up
    of 10%, but SIP fed with the payment of 1000 a month for 24000 in two
    years raises it in the second year and ends at 25200. *)
Lemma goal_round_trip_fails :
  (targetAmount goal_12600 = Some 12600 /\
   Js.strict_eq (l_monthlyPayment (strategy host_2025 GOAL goal_12600)) (Fin 1000)
   = true /\
   finalValue (calculateInvestment host_2025 GOAL goal_12600) = Fin 12000 /\
   finalValue (calculateInvestment host_2025 SIP
                 (set_monthlyContribution (Some 1000) goal_12600)) = Fin 12000) /\
  (monthlyPayment (calculateInvestment host_2025 GOAL
                     (set_targetAmount (Some 1000000) (blank 1 0))) = Fin 83333 /\
   finalValue (calculateInvestment host_2025 GOAL
                 (set_targetAmount (Some 1000000) (blank 1 0))) = Fin 1000000 /\
   finalValue (calculateInvestment host_2025 SIP
                 (set_monthlyContribution (Some 83333)
                    (set_targetAmount (Some 1000000) (blank 1 0)))) = Fin 999996) /\
  (targetAmount (set_stepUpRate (Some 10) goal_24000) = Some 24000 /\
   monthlyPayment (calculateInvestment host_2025 GOAL
                     (set_stepUpRate (Some 10) goal_24000)) = Fin 1000 /\
   finalValue (calculateInvestment host_2025 SIP
                 (set_monthlyContribution (Some 1000)
                    (set_stepUpRate (Some 10) goal_24000))) = Fin 25200).
Proof.
  split; [vm_compute; repeat split|].
  split; [vm_compute; repeat split|].
  split; [reflexivity|]. split; [lazy; reflexivity|vm_compute; reflexivity].
Qed.

(** In exact arithmetic the payment solved by GOAL over a whole number
    [n > 0] of months inverts the accumulation exactly: GOAL, and SIP run
    with that payment as a level contribution, end at the rounded
    target. *)
Lemma goal_round_trip_exact (host : Host) (inputs : InvestmentInputs) (n : nat) :
  let P := dflt (initialInvestment inputs) 0 in
  let target := or_dflt (targetAmount inputs) 1000000 in
  let i := effective_rate inputs / 100 / 12 in
  let remaining := target - P * (1 + i) ^ Z.of_nat n in
  let pay := l_monthlyPayment (strategy host GOAL inputs) in
  (0 < n)%nat ->
  timePeriodYears inputs * 12 == inject_Z (Z.of_nat n) ->
  (remaining <= 0 -> pay = Fin 0) /\
  (0 < remaining ->
   exists pmt : Q,
     pay = Fin pmt /\
     monthlyPayment (calculateInvestment host GOAL inputs) = Js.Math_round pmt /\
     (i == 0 -> pmt == remaining / inject_Z (Z.of_nat n)) /\
     P * (1 + i) ^ Z.of_nat n + pmt * annuity (1 + i) n == target /\
     finalValue (calculateInvestment host GOAL inputs) = Js.Math_round target /\
     finalValue
       (calculateInvestment host SIP
          (set_stepUpRate (Some 0) (set_monthlyContribution (Some pmt) inputs)))
     = Js.Math_round target).
Proof.
  intros P target i remaining pay Hn Hm.
  assert (0 <= i) as Hi.
  { unfold i. pose proof (effective_rate_nonneg inputs). 
    apply Qle_shift_div_l; [reflexivity|]. apply Qle_shift_div_l; [reflexivity|].
    lra. }
  assert (0 < 1 + i) as Hg by lra.
  pose proof (Qpower_qpow (1 + i) n Hg) as Hpow.
  destruct (goal_payment_whole host target P i (timePeriodYears inputs * 12) n
              Hi Hn Hm) as [Hle Hgt].
  split; [exact Hle|].
  intros Hr. destruct (Hgt Hr) as (pmt & Hpay & Hflat & Hsum).
  fold remaining in Hflat.
  exists pmt. split; [exact Hpay|]. split.
  { unfold calculateInvestment. cbn [monthlyPayment].
    change (l_monthlyPayment (strategy host GOAL inputs))
      with (goal_payment host target P i (timePeriodYears inputs * 12)).
    now rewrite Hpay. }
  split; [exact Hflat|]. split.
  { now rewrite Hpow. }
  destruct (goal_loop_balance host i (dflt (inflationRate inputs) 0)
              (dflt (startYear inputs) (inject_Z (now_year host))) P pmt n)
    as (_ & b & Hb & Eb).
  assert (b == target) as Ebt by (now rewrite Eb).
  assert (Js.Math_round (Fin b) = Js.Math_round (Fin target)) as Hround.
  { simpl. f_equal. now apply round_Q_comp. }
  split.
  - unfold calculateInvestment. cbn [finalValue].
    unfold strategy, goal_branch. cbn [l_finalValue effective_duration].
    fold P target i. rewrite Hpay.
    rewrite (trip_count_whole n _ Hm). rewrite Hb. exact Hround.
  - unfold calculateInvestment. cbn [finalValue].
    unfold strategy, sip_branch. cbn [l_finalValue effective_duration].
    unfold set_stepUpRate, set_monthlyContribution, effective_rate.
    cbn [initialInvestment monthlyContribution stepUpRate inflationRate
         startYear timePeriodYears interestRate expenseRatio dflt].
    fold (effective_rate inputs). fold P i.
    rewrite (trip_count_whole n _ Hm), sip_loop_level, Hb. exact Hround.
Qed.

(** C3 (amended): over a whole number [n > 0] of months, with [target] the
    [targetAmount] (1000000 when it is absent or zero), [remaining] the
    target less the compounded lump sum and [A] the annuity factor
    [1 + (1+i) + ... + (1+i)^(n-1)]: when [remaining <= 0] the returned
    payment is 0; when [remaining > 0], with [pmt] the solution of
    [initial * (1+i)^n + pmt * A = target], which is [remaining / n] at a
    zero monthly rate, the returned [monthlyPayment] is [pmt] and the
    [finalValue] of GOAL is the target, each to within one unit; SIP run
    with the unrounded payment as a level contribution (no step-up) and
    the same other parameters returns the [finalValue] of GOAL; and SIP
    run with the returned, rounded payment ends within [A / 2 + 1] of the
    target. *)
Theorem goal_round_trip (host : Host) (inputs : InvestmentInputs) (n : nat) :
  let P := dflt (initialInvestment inputs) 0 in
  let target := or_dflt (targetAmount inputs) 1000000 in
  let i := effective_rate inputs / 100 / 12 in
  let remaining := target - P * (1 + i) ^ Z.of_nat n in
  let A := annuity (1 + i) n in
  let goal := calculateInvestment host GOAL inputs in
  let sip := fun c : Q =>
    calculateInvestment host SIP
      (set_stepUpRate (Some 0) (set_monthlyContribution (Some c) inputs)) in
  (0 < n)%nat ->
  timePeriodYears inputs * 12 == inject_Z (Z.of_nat n) ->
  (remaining <= 0 -> monthlyPayment goal = Fin 0) /\
  (0 < remaining ->
   exists pmt : Q,
     P * (1 + i) ^ Z.of_nat n + pmt * A == target /\
     (i == 0 -> pmt == remaining / inject_Z (Z.of_nat n)) /\
     near (monthlyPayment goal) pmt /\
     near (finalValue goal) target /\
     (exists c : Q,
        l_monthlyPayment (strategy host GOAL inputs) = Fin c /\
        finalValue (sip c) = finalValue goal) /\
     (forall m : Z, monthlyPayment goal = Js.of_Z m ->
        exists f : Z,
          finalValue (sip (inject_Z m)) = Js.of_Z f /\
          - (A / 2 + 1) <= inject_Z f - target <= A / 2 + 1)).
Proof.
  intros P target i remaining A goal sip Hn Hm.
  assert (0 <= i) as Hi.
  { unfold i. pose proof (effective_rate_nonneg inputs).
    apply Qle_shift_div_l; [reflexivity|]. apply Qle_shift_div_l; [reflexivity|].
    lra. }
  assert (0 < 1 + i) as Hg by lra.
  pose proof (Qpower_qpow (1 + i) n Hg) as Hpow.
  destruct (goal_round_trip_exact host inputs n Hn Hm) as [Hle Hgt].
  cbv zeta in Hle, Hgt. fold P target i remaining in Hle, Hgt.
  split.
  { intros Hr. unfold goal, calculateInvestment. cbn [monthlyPayment].
    now rewrite (Hle Hr). }
  intros Hr.
  destruct (Hgt Hr) as (pmt & Hpay & Hmp & Hflat & Hsum & Hfg & Hfs).
  fold goal in Hmp, Hfg. fold A in Hsum.
  exists pmt. split; [exact Hsum|]. split; [exact Hflat|].
  split; [rewrite Hmp; apply round_Q_near; reflexivity|].
  split; [rewrite Hfg; apply round_Q_near; reflexivity|].
  split; [exists pmt; split; [exact Hpay|]; unfold sip; now rewrite Hfs, Hfg|].
  intros m Em. rewrite Hmp in Em. cbn [Js.Math_round] in Em.
  apply of_Z_inj in Em. subst m.
  destruct (goal_loop_balance host i (dflt (inflationRate inputs) 0)
              (dflt (startYear inputs) (inject_Z (now_year host))) P
              (inject_Z (Js.round_Q pmt)) n) as (_ & b & Hb & Eb).
  fold A in Eb.
  exists (Js.round_Q b). split.
  - unfold sip, calculateInvestment. cbn [finalValue].
    unfold strategy, sip_branch. cbn [l_finalValue effective_duration].
    unfold set_stepUpRate, set_monthlyContribution, effective_rate.
    cbn [initialInvestment monthlyContribution stepUpRate inflationRate
         startYear timePeriodYears interestRate expenseRatio dflt].
    fold (effective_rate inputs). fold P i.
    rewrite (trip_count_whole n _ Hm), sip_loop_level, Hb. reflexivity.
  - pose proof (round_Q_bounds pmt) as [Lp Up].
    pose proof (round_Q_bounds b) as [Lb Ub].
    rewrite inject_Z_plus in Up, Ub. change (inject_Z 1) with 1 in Up, Ub.
    pose proof (annuity_nonneg (1 + i) n ltac:(lra)) as HA. fold A in HA.
    rewrite <- Hpow in Eb.
    set (e := inject_Z (Js.round_Q pmt) - pmt) in *.
    assert (b - target == e * A) as Ed.
    { rewrite Eb, <- Hsum. unfold e. ring. }
    assert (e * A <= (1 # 2) * A) as U1
      by (apply Qmult_le_compat_r; [unfold e; lra|exact HA]).
    assert ((- (1 # 2)) * A <= e * A) as L1
      by (apply Qmult_le_compat_r; [unfold e; lra|exact HA]).
    assert (A / 2 == (1 # 2) * A) as EA by (field).
    split; lra.
Qed.

Lemma goal_round_trip_witness :
  (0 < 12)%nat /\
  timePeriodYears goal_12000 * 12 == inject_Z (Z.of_nat 12) /\
  0 < 12000 - 0 * (1 + 0 / 100 / 12) ^ Z.of_nat 12 /\
  near (monthlyPayment (calculateInvestment host_2025 GOAL goal_12000)) 1000 /\
  near (finalValue (calculateInvestment host_2025 GOAL goal_12000)) 12000.
Proof.
  split; [lia|]. split; [reflexivity|]. split; [reflexivity|].
  destruct (goal_round_trip host_2025 goal_12000 12 ltac:(lia) ltac:(reflexivity))
    as [_ H].
  destruct (H ltac:(reflexivity)) as (pmt & _ & Hflat & Hm & Hf & _).
  assert (pmt == 1000) as E by (rewrite (Hflat ltac:(reflexivity)); reflexivity).
  split; [|exact Hf].
  destruct Hm as (z & Hz & L & U). exists z. split; [exact Hz|].
  rewrite E in L, U. split; assumption.
Defined.

(** C9: two inputs that differ only in [stepUpRate], that is, that agree
    once the field is erased, get the same GOAL result: the solved payment
    and the schedule never read the step-up. *)
Theorem goal_ignores_stepUpRate (host : Host) (i1 i2 : InvestmentInputs) :
  set_stepUpRate None i1 = set_stepUpRate None i2 ->
  calculateInvestment host GOAL i1 = calculateInvestment host GOAL i2.
Proof.
  intros E.
  change (calculateInvestment host GOAL (set_stepUpRate None i1)
          = calculateInvestment host GOAL (set_stepUpRate None i2)).
  now rewrite E.
Qed.

Lemma goal_ignores_stepUpRate_witness :
  set_stepUpRate None (set_stepUpRate (Some 10) goal_24000)
  = set_stepUpRate None goal_24000 /\
  calculateInvestment host_2025 GOAL (set_stepUpRate (Some 10) goal_24000)
  = calculateInvestment host_2025 GOAL goal_24000.
Proof.
  split; [reflexivity|].
  apply (goal_ignores_stepUpRate host_2025); reflexivity.
Defined.

(** SIP, for contrast, applies the step-up: 100 a month for two years
    gives 2400, and 2520 with a step-up of 10%. *)
Lemma sip_reads_stepUpRate :
  finalValue (calculateInvestment host_2025 SIP sip_100) = Fin 2400 /\
  finalValue (calculateInvestment host_2025 SIP (set_stepUpRate (Some 10) sip_100))
  = Fin 2520.
Proof. vm_compute. split; reflexivity. Qed.

(** ** LOAN mode and totality (C2, C7) *)

Lemma last_row_push (l : list YearData) (x : YearData) :
  last_row (l ++ [x]) = Some x.
Proof.
  induction l as [|y l IH]; [reflexivity|].
  simpl. rewrite IH. now destruct (l ++ [x]) eqn:E; [destruct l|].
Qed.

(** C2, at the failing input: a one-year loan of 12000 at 0% has the
    payment 1000, but its schedule row holds [NaN] in [invested],
    [interest] and [total]. *)
Theorem zero_rate_loan_row_is_NaN (host : Host) :
  let r := calculateInvestment host LOAN loan_zero_rate in
  monthlyPayment r = Fin 1000 /\
  yearlyData r = [{| year := 1; label := 2026; invested := NaN;
                     interest := NaN; total := NaN; realValue := 0 |}].
Proof. vm_compute. split; reflexivity. Qed.

(** C7, at the failing input: a two-year loan of 24000 at 0% has the
    payment 24000 / 24 = 1000, but the outstanding balance and the
    cumulative interest of its final row are [NaN], not 0. *)
Theorem zero_rate_loan_final_row (host : Host) :
  let r := calculateInvestment host LOAN loan_zero_rate_2y in
  monthlyPayment r = Fin 1000 /\
  length (yearlyData r) = 2%nat /\
  option_map total (last_row (yearlyData r)) = Some NaN /\
  option_map interest (last_row (yearlyData r)) = Some NaN.
Proof. vm_compute. repeat split. Qed.

(** At a positive rate and over a whole number [d > 0] of years the loan
    is paid off: the payment is the amortization formula, the last row
    shows no outstanding balance, the whole principal as paid, and
    [payment * N - principal] as cumulative interest. *)
Lemma loan_final_row_positive_rate (host : Host) (inputs : InvestmentInputs)
    (d : nat) :
  let P := dflt (initialInvestment inputs) 0 in
  let R := interestRate inputs / 12 / 100 in
  let N := Z.of_nat (d * 12) in
  let st := strategy host LOAN inputs in
  0 < interestRate inputs -> (0 < d)%nat ->
  timePeriodYears inputs == inject_Z (Z.of_nat d) ->
  exists (emi : Q) (row : YearData),
    l_monthlyPayment st = Fin emi /\
    emi == P * R * (1 + R) ^ N / ((1 + R) ^ N - 1) /\
    last_row (l_yearlyData st) = Some row /\
    total row = Fin 0 /\
    invested row = Js.of_Z (Js.round_Q P) /\
    interest row = Js.of_Z (Js.round_Q (emi * inject_Z N - P)).
Proof.
  intros P R N st Hrate Hd Hy.
  assert (0 < R) as HR.
  { unfold R. apply Qlt_shift_div_l; [reflexivity|].
    apply Qlt_shift_div_l; [reflexivity|]. lra. }
  assert (0 < 1 + R) as Hg by lra.
  assert (0 < d * 12)%nat as Hn by lia.
  assert (timePeriodYears inputs * 12 == inject_Z (Z.of_nat (d * 12))) as HN.
  { rewrite Hy, Nat2Z.inj_mul, inject_Z_mult. reflexivity. }
  assert (inject_Z (Z.of_nat d) * 12 == inject_Z (Z.of_nat (d * 12))) as HM.
  { rewrite Nat2Z.inj_mul, inject_Z_mult. reflexivity. }
  pose proof (Qpower_qpow (1 + R) (d * 12) Hg) as Hpow.
  pose proof (qpow_gt_1 (1 + R) (d * 12) ltac:(lra) Hn) as Hx.
  fold N in Hpow.
  set (x := (1 + R) ^ N) in *.
  assert (Js.is_zero (x - 1) = false) as Hx1 by (apply is_zero_false; lra).
  assert (Js.is_zero R = false) as HR0 by (apply is_zero_false; lra).
  assert (trip_count (timePeriodYears inputs) = d) as Htrip
    by (now apply trip_count_whole).
  unfold st, strategy, loan_branch.
  cbn [l_monthlyPayment l_yearlyData effective_duration].
  fold P R. rewrite Htrip.
  assert (loan_payment host P R (timePeriodYears inputs * 12)
          = Fin (P * R * x / (x - 1))) as Hpay.
  { unfold loan_payment, Js.strict_eq. fold (Js.is_zero R). rewrite HR0.
    change (Fin 1 + Fin R)%num with (Fin (1 + R)).
    rewrite (Math_pow_whole host (1 + R) _ (d * 12) Hg HN Hn). fold N x.
    change (Fin P * Fin R * Fin x)%num with (Fin (P * R * x)).
    change (Fin x - Fin 1)%num with (Fin (x - 1)).
    unfold Js.div. now rewrite Hx1. }
  rewrite Hpay.
  destruct d as [|d']; [lia|].
  cbn [for_loop]. rewrite last_row_push.
  do 2 eexists. split; [reflexivity|]. split; [reflexivity|].
  split; [reflexivity|].
  unfold loan_row. cbn [total invested interest].
  change (Fin 1 + Fin R)%num with (Fin (1 + R)).
  change (Js.of_nat (S d') * Fin 12)%num
    with (Fin (inject_Z (Z.of_nat (S d')) * 12)).
  rewrite (Math_pow_whole host (1 + R) _ (S d' * 12) Hg HN Hn).
  rewrite (Math_pow_whole host (1 + R) _ (S d' * 12) Hg HM Hn).
  fold N x.
  change (Fin P * (Fin x - Fin x))%num with (Fin (P * (x - x))).
  change (Fin x - Fin 1)%num with (Fin (x - 1)).
  unfold Js.div. rewrite Hx1.
  change (Fin P - Fin (P * (x - x) / (x - 1)))%num
    with (Fin (P - P * (x - x) / (x - 1))).
  change (Fin (P * R * x / (x - 1)) * Fin (inject_Z (Z.of_nat (S d')) * 12)
          - Fin (P - P * (x - x) / (x - 1)))%num
    with (Fin (P * R * x / (x - 1) * (inject_Z (Z.of_nat (S d')) * 12)
               - (P - P * (x - x) / (x - 1)))).
  cbn [Js.Math_round]. unfold Js.of_Z.
  split; [|split].
  - change (Fin 0) with (Fin (inject_Z (Js.round_Q 0))).
    do 2 f_equal. apply round_Q_comp. field. lra.
  - do 2 f_equal. apply round_Q_comp. field. lra.
  - do 2 f_equal. apply round_Q_comp. rewrite HM. fold N. field. lra.
Qed.

(** A one-year loan of 12000 at 12% a year: the last row is paid off. *)
Lemma loan_12_percent_paid_off :
  let r := calculateInvestment host_2025 LOAN loan_12_percent in
  monthlyPayment r = Fin 1066 /\
  option_map total (last_row (yearlyData r)) = Some (Fin 0) /\
  option_map invested (last_row (yearlyData r)) = Some (Fin 12000) /\
  option_map interest (last_row (yearlyData r)) = Some (Fin 794).
Proof. vm_compute. repeat split. Qed.

(** The ratios that pass through [isFinite] are finite in every result. *)
Lemma guarded_ratios_are_finite (host : Host) (mode : CalculatorMode)
    (inputs : InvestmentInputs) :
  let r := calculateInvestment host mode inputs in
  Js.isFinite (cagr r) = true /\ Js.isFinite (doublingTime r) = true.
Proof.
  cbv zeta. unfold calculateInvestment. cbn [cagr doublingTime]. split.
  - now destruct (Js.isFinite (cagr_of _ _ _ _)) eqn:E.
  - now destruct (Js.isFinite (doubling_of _)) eqn:E.
Qed.

(** * Further properties of the engine *)

(** ** The SIP and RETIREMENT strategy *)

Lemma mod12_succ (k : nat) :
  (if S k mod 12 =? 0 then k mod 12 = 11 else S k mod 12 = S (k mod 12))%nat.
Proof.
  pose proof (Nat.div_mod_eq (S k) 12). pose proof (Nat.div_mod_eq k 12).
  pose proof (Nat.mod_upper_bound (S k) 12 ltac:(lia)).
  pose proof (Nat.mod_upper_bound k 12 ltac:(lia)).
  destruct (S k mod 12 =? 0)%nat eqn:E.
  - apply Nat.eqb_eq in E. lia.
  - apply Nat.eqb_neq in E. lia.
Qed.

Lemma annuity_succ_r (g : Q) (k : nat) : annuity g (S k) == annuity g k + qpow g k.
Proof.
  induction k as [|k IH]; cbn [annuity qpow] in *; [ring|].
  transitivity ((annuity g k + qpow g k) * g + 1); [now rewrite <- IH | ring].
Qed.




Lemma sip_strategy (host : Host) (mode : CalculatorMode) (inputs : InvestmentInputs) :
  mode = SIP \/ mode = RETIREMENT ->
  strategy host mode inputs
  = sip_branch host (dflt (initialInvestment inputs) 0)
      (dflt (monthlyContribution inputs) 0) (dflt (stepUpRate inputs) 0)
      (dflt (inflationRate inputs) 0)
      (dflt (startYear inputs) (inject_Z (now_year host)))
      (effective_rate inputs / 100) (effective_duration mode inputs * 12).
Proof. intros [-> | ->]; reflexivity. Qed.

Lemma monthly_rate_nonneg (inputs : InvestmentInputs) :
  0 <= effective_rate inputs / 100 / 12.
Proof.
  pose proof (effective_rate_nonneg inputs).
  apply Qle_shift_div_l; [reflexivity|]. apply Qle_shift_div_l; [reflexivity|]. lra.
Qed.




Lemma effective_rate_zero (inputs : InvestmentInputs) :
  interestRate inputs <= q_or (dflt (expenseRatio inputs) 0) 0 ->
  effective_rate inputs == 0.
Proof.
  intros H. unfold effective_rate. apply Q.max_l. lra.
Qed.

(** One month of SIP on a state whose numbers are finite. *)
Lemma sip_month_fin (host : Host) (mr su infl sy : Q) (i : nat) (a : Accum)
    (b v c : Q) :
  currentBalance a = Fin b -> currentInvested a = Fin v ->
  currentMonthlyContribution a = Fin c ->
  let a' := sip_month host mr su infl sy i a in
  currentBalance a' = Fin (b * (1 + mr) + c) /\
  currentInvested a' = Fin (v + c) /\
  currentMonthlyContribution a'
  = Fin (if (i mod 12 =? 0)%nat && Js.is_pos su then c * (1 + su / 100) else c) /\
  rows a'
  = if (i mod 12 =? 0)%nat
    then rows a ++ [month_row host infl sy i (Fin (b * (1 + mr) + c)) (Fin (v + c))]
    else rows a.
Proof.
  intros Hb Hv Hc. cbv zeta. unfold sip_month. rewrite Hb, Hv, Hc.
  change (Js.gt (Fin su) (Fin 0)) with (Js.is_pos su).
  destruct (i mod 12 =? 0)%nat; [destruct (Js.is_pos su)|]; repeat split.
Qed.

(** Under a zero monthly rate the SIP loop keeps the balance equal to what
    was paid in, and every row it pushes shows no interest. *)
Lemma sip_loop_no_growth (host : Host) (mr su infl sy P c : Q) (k : nat) :
  mr == 0 ->
  let a := for_loop k (sip_month host mr su infl sy)
             {| currentBalance := P; currentInvested := P;
                currentMonthlyContribution := c; rows := [] |} in
  (exists b v c', currentBalance a = Fin b /\ currentInvested a = Fin v /\
                  currentMonthlyContribution a = Fin c' /\ b == v) /\
  Forall (fun row => interest row = Fin 0 /\ total row = invested row) (rows a).
Proof.
  intros Hmr. cbv zeta.
  induction k as [|k [(b & v & c' & Hb & Hv & Hc & E) Hrows]].
  - split; [|constructor]. exists P, P, c. repeat split; reflexivity.
  - cbn [for_loop].
    destruct (sip_month_fin host mr su infl sy (S k) _ b v c' Hb Hv Hc)
      as (Hb' & Hv' & Hc' & Hr').
    assert (b * (1 + mr) + c' == v + c') as E' by (rewrite E, Hmr; ring).
    split.
    { eexists (b * (1 + mr) + c'), (v + c'), _.
      split; [exact Hb'|]. split; [exact Hv'|]. split; [exact Hc'|exact E']. }
    rewrite Hr'. destruct (S k mod 12 =? 0)%nat; [|exact Hrows].
    apply Forall_app. split; [exact Hrows|]. constructor; [|constructor].
    unfold month_row. cbn [interest total invested Js.Math_round].
    unfold Js.of_Z. split.
    + change (Fin 0) with (Fin (inject_Z (Js.round_Q 0))).
      change (Fin (b * (1 + mr) + c') - Fin (v + c'))%num
        with (Fin (b * (1 + mr) + c' - (v + c'))).
      cbn [Js.Math_round]. unfold Js.of_Z.
      do 2 f_equal. apply round_Q_comp. rewrite E'. ring.
    + do 2 f_equal. now apply round_Q_comp.
Qed.

(** X2: SIP and RETIREMENT when the interest rate does not exceed the
    expense ratio: nothing grows.  The final value equals the total
    invested, interest and tax are 0, the post-tax value is the final
    value, and every schedule row shows no interest, with or without a
    step-up and for any duration. *)
Theorem sip_without_growth (host : Host) (mode : CalculatorMode)
    (inputs : InvestmentInputs) :
  let r := calculateInvestment host mode inputs in
  mode = SIP \/ mode = RETIREMENT ->
  interestRate inputs <= q_or (dflt (expenseRatio inputs) 0) 0 ->
  finalValue r = totalInvested r /\
  totalInterest r = Fin 0 /\
  taxPayable r = Fin 0 /\
  postTaxValue r = finalValue r /\
  Forall (fun row => interest row = Fin 0 /\ total row = invested row)
    (yearlyData r).
Proof.
  intros r Hmode Hrate.
  assert (effective_rate inputs / 100 / 12 == 0) as Hmr.
  { rewrite (effective_rate_zero inputs Hrate). reflexivity. }
  assert (tax_on mode (dflt (taxRate inputs) 0)
            (l_totalInvested (strategy host mode inputs))
            (l_finalValue (strategy host mode inputs))
          = (let totalGain := (l_finalValue (strategy host mode inputs)
                               - l_totalInvested (strategy host mode inputs))%num in
             if Js.gt totalGain 0
             then (totalGain * (Fin (dflt (taxRate inputs) 0) / Fin 100))%num
             else Fin 0)) as Htax
    by (destruct Hmode as [-> | ->]; reflexivity).
  assert (match mode with TAX => Fin 0 | _ =>
            tax_on mode (dflt (taxRate inputs) 0)
              (l_totalInvested (strategy host mode inputs))
              (l_finalValue (strategy host mode inputs)) end
          = tax_on mode (dflt (taxRate inputs) 0)
              (l_totalInvested (strategy host mode inputs))
              (l_finalValue (strategy host mode inputs))) as Hpost
    by (destruct Hmode as [-> | ->]; reflexivity).
  unfold r, calculateInvestment.
  cbn [finalValue totalInvested totalInterest taxPayable postTaxValue yearlyData].
  rewrite Hpost, Htax. cbv zeta.
  rewrite (sip_strategy host mode inputs Hmode). unfold sip_branch.
  cbn [l_finalValue l_totalInvested l_yearlyData].
  match goal with |- context [for_loop ?k (sip_month _ ?mr ?su ?infl ?sy)
      {| currentBalance := Fin ?P; currentInvested := _;
         currentMonthlyContribution := Fin ?c; rows := _ |}] =>
    destruct (sip_loop_no_growth host mr su infl sy P c k Hmr)
      as [(b & v & c' & -> & -> & _ & E) Hrows]
  end.
  change (Fin b - Fin v)%num with (Fin (b - v)).
  change (Js.gt (Fin (b - v)) (Fin 0)) with (Js.is_pos (b - v)).
  assert (Js.is_pos (b - v) = false) as -> by (apply is_pos_false; lra).
  cbn [Js.Math_round]. unfold Js.of_Z.
  split; [do 2 f_equal; now apply round_Q_comp|]. split.
  { change (Fin 0) with (Fin (inject_Z (Js.round_Q 0))).
    do 2 f_equal. apply round_Q_comp. lra. }
  split; [reflexivity|]. split; [|exact Hrows].
  change (Fin b - Fin 0)%num with (Fin (b - 0)). cbn [Js.Math_round]. unfold Js.of_Z.
  do 2 f_equal. apply round_Q_comp. ring.
Qed.

Lemma sip_without_growth_witness :
  (SIP = SIP \/ SIP = RETIREMENT) /\
  interestRate sip_100 <= q_or (dflt (expenseRatio sip_100) 0) 0 /\
  finalValue (calculateInvestment host_2025 SIP sip_100)
  = totalInvested (calculateInvestment host_2025 SIP sip_100) /\
  totalInterest (calculateInvestment host_2025 SIP sip_100) = Fin 0.
Proof.
  assert (interestRate sip_100 <= q_or (dflt (expenseRatio sip_100) 0) 0) as H
    by (vm_compute; discriminate).
  split; [now left|]. split; [exact H|].
  destruct (sip_without_growth host_2025 SIP sip_100 (or_introl eq_refl) H)
    as (Hf & Hi & _).
  split; [exact Hf|exact Hi].
Defined.

(** With a step-up [su > 0], after [k] months the contribution has been
    raised once for every year end met, and what was paid in is the lump
    sum, twelve contributions for every full year at that year's level,
    and the months of the running year. *)
Lemma sip_loop_stepped (host : Host) (mr su infl sy P c : Q) (k : nat) :
  0 < su ->
  let q := 1 + su / 100 in
  let a := for_loop k (sip_month host mr su infl sy)
             {| currentBalance := P; currentInvested := P;
                currentMonthlyContribution := c; rows := [] |} in
  exists b v c',
    currentBalance a = Fin b /\
    currentInvested a = Fin v /\ currentMonthlyContribution a = Fin c' /\
    c' == c * qpow q (k / 12) /\
    v == P + 12 * c * annuity q (k / 12)
         + inject_Z (Z.of_nat (k mod 12)) * c * qpow q (k / 12).
Proof.
  intros Hsu q. cbv zeta.
  induction k as [|k (b & v & c' & Hb & Hv & Hc & Ec & Ev)].
  - exists P, P, c. repeat split; try reflexivity.
    + change (qpow q (0 / 12)) with 1. ring.
    + change (annuity q (0 / 12)) with 0.
      change (inject_Z (Z.of_nat (0 mod 12))) with 0. ring.
  - pose proof (div12_succ k) as Hd. pose proof (mod12_succ k) as Hm.
    cbn [for_loop].
    destruct (sip_month_fin host mr su infl sy (S k) _ b v c' Hb Hv Hc)
      as (Hb' & Hv' & Hc' & _).
    assert (Js.is_pos su = true) as Hp by (now apply is_pos_true).
    rewrite Hp, andb_true_r in Hc'. fold q in Hc'.
    do 3 eexists. split; [exact Hb'|]. split; [exact Hv'|]. split; [exact Hc'|].
    rewrite Hd. destruct (S k mod 12 =? 0)%nat eqn:E.
    + apply Nat.eqb_eq in E. rewrite Hm in Ev. rewrite E, Nat.add_1_r. split.
      * rewrite Ec. cbn [qpow]. ring.
      * rewrite Ev, Ec, annuity_succ_r.
        change (inject_Z (Z.of_nat 11)) with 11.
        change (inject_Z (Z.of_nat 0)) with 0. cbn [qpow]. ring.
    + rewrite Hm, Nat.add_0_r. split; [exact Ec|].
      rewrite Ev, Ec, Nat2Z.inj_succ. unfold Z.succ. rewrite inject_Z_plus.
      change (inject_Z 1) with 1. ring.
Qed.

(** In exact arithmetic: with a step-up [s > 0] over a whole number [y] of
    years the amount paid in is the lump sum plus
    [12 * c * (1 + q + ... + q^(y-1))], [q = 1 + s / 100]. *)
Lemma sip_stepped_exact (host : Host) (mode : CalculatorMode)
    (inputs : InvestmentInputs) (y : nat) :
  let P := dflt (initialInvestment inputs) 0 in
  let c := dflt (monthlyContribution inputs) 0 in
  let q := 1 + dflt (stepUpRate inputs) 0 / 100 in
  let r := calculateInvestment host mode inputs in
  mode = SIP \/ mode = RETIREMENT ->
  0 < dflt (stepUpRate inputs) 0 ->
  effective_duration mode inputs == inject_Z (Z.of_nat y) ->
  totalInvested r = Js.of_Z (Js.round_Q (P + 12 * c * annuity q y)).
Proof.
  intros P c q r Hmode Hsu Hy.
  assert (effective_duration mode inputs * 12 == inject_Z (Z.of_nat (y * 12))) as Hn.
  { rewrite Hy, Nat2Z.inj_mul, inject_Z_mult. reflexivity. }
  unfold r, calculateInvestment. cbn [totalInvested].
  rewrite (sip_strategy host mode inputs Hmode). unfold sip_branch.
  cbn [l_totalInvested]. rewrite (trip_count_whole _ _ Hn). fold P c.
  match goal with |- context [for_loop ?k (sip_month _ ?mr ?su ?infl ?sy) _] =>
    destruct (sip_loop_stepped host mr su infl sy P c k Hsu)
      as (b & v & c' & _ & -> & _ & _ & Ev)
  end.
  cbn [Js.Math_round]. unfold Js.of_Z. do 2 f_equal. apply round_Q_comp.
  rewrite Ev, Nat.div_mul, Nat.Div0.mod_mul by lia. fold q.
  change (inject_Z (Z.of_nat 0)) with 0. ring.
Qed.

(** X3: SIP and RETIREMENT with a step-up [s > 0] over a whole number [y]
    of years: the contribution of year [j] is the first one raised [j - 1]
    times by [s]%, so the total invested is, to within one unit, the lump
    sum plus [12 * c * (1 + q + ... + q^(y-1))] with [q = 1 + s / 100]. *)
Theorem sip_stepped_total_invested (host : Host) (mode : CalculatorMode)
    (inputs : InvestmentInputs) (y : nat) :
  let P := dflt (initialInvestment inputs) 0 in
  let c := dflt (monthlyContribution inputs) 0 in
  let q := 1 + dflt (stepUpRate inputs) 0 / 100 in
  let r := calculateInvestment host mode inputs in
  mode = SIP \/ mode = RETIREMENT ->
  0 < dflt (stepUpRate inputs) 0 ->
  effective_duration mode inputs == inject_Z (Z.of_nat y) ->
  near (totalInvested r) (P + 12 * c * annuity q y).
Proof.
  intros P c q r Hmode Hsu Hy.
  exact (near_of_eq _ _ _ (sip_stepped_exact host mode inputs y Hmode Hsu Hy)
           (Qeq_refl _)).
Qed.

Lemma sip_stepped_total_invested_witness :
  (SIP = SIP \/ SIP = RETIREMENT) /\
  0 < dflt (stepUpRate sip_stepped) 0 /\
  effective_duration SIP sip_stepped == inject_Z (Z.of_nat 2) /\
  near (totalInvested (calculateInvestment host_2025 SIP sip_stepped)) 3520.
Proof.
  assert (0 < dflt (stepUpRate sip_stepped) 0) as H1 by reflexivity.
  assert (effective_duration SIP sip_stepped == inject_Z (Z.of_nat 2)) as H2
    by reflexivity.
  split; [now left|]. split; [exact H1|]. split; [exact H2|].
  destruct (sip_stepped_total_invested host_2025 SIP sip_stepped 2
              (or_introl eq_refl) H1 H2) as (z & Hz & Hl & Hu).
  exists z. split; [exact Hz|].
  assert (dflt (initialInvestment sip_stepped) 0
          + 12 * dflt (monthlyContribution sip_stepped) 0
            * annuity (1 + dflt (stepUpRate sip_stepped) 0 / 100) 2 == 3520) as E
    by reflexivity.
  rewrite E in Hl, Hu. split; assumption.
Defined.

(** ** The rows of the schedule *)

(** A loop that pushes one row an iteration builds the rows of 1, ..., n. *)
Lemma for_loop_push_map {A : Type} (f : nat -> A) (n : nat) :
  for_loop n (fun i acc => acc ++ [f i]) [] = map f (seq 1 n).
Proof.
  induction n as [|n IH]; [reflexivity|].
  cbn [for_loop]. rewrite IH, seq_S, map_app. reflexivity.
Qed.

Lemma sip_month_rows (host : Host) (mr su infl sy : Q) (i : nat) (a : Accum) :
  rows (sip_month host mr su infl sy i a)
  = if (i mod 12 =? 0)%nat
    then rows a ++ [month_row host infl sy i
                      (currentBalance (sip_month host mr su infl sy i a))
                      (currentInvested (sip_month host mr su infl sy i a))]
    else rows a.
Proof. unfold sip_month. now destruct (i mod 12 =? 0)%nat. Qed.

Lemma goal_month_rows (host : Host) (rpm infl sy : Q) (i : nat) (a : Accum) :
  rows (goal_month host rpm infl sy i a)
  = if (i mod 12 =? 0)%nat
    then rows a ++ [month_row host infl sy i
                      (currentBalance (goal_month host rpm infl sy i a))
                      (currentInvested (goal_month host rpm infl sy i a))]
    else rows a.
Proof. reflexivity. Qed.

Lemma property_year_rows (host : Host) (p ri me ar infl sy : Q) (i : nat)
    (a : PropAccum) :
  let a' := property_year host p ri me ar infl sy i a in
  prop_rows a'
  = prop_rows a ++
    [{| year := Js.of_nat i;
        label := (Fin sy + Js.of_nat i)%num;
        invested := Fin p;
        interest := Js.Math_round ((currentPropValue a' - Fin p) + accumulatedNetRent a')%num;
        total := Js.Math_round (currentPropValue a' + accumulatedNetRent a')%num;
        realValue :=
          Js.Math_round ((currentPropValue a' + accumulatedNetRent a')
                         / Js.Math_pow host (Fin 1 + Fin infl / Fin 100) (Js.of_nat i))%num |}].
Proof. reflexivity. Qed.

Section RowsOfLoops.
Variable host : Host.
Variable P : YearData -> Prop.

Lemma for_loop_push_Forall (f : nat -> YearData) (n : nat) :
  (forall i, P (f i)) ->
  Forall P (for_loop n (fun i acc => acc ++ [f i]) []).
Proof.
  intros H. rewrite for_loop_push_map. apply Forall_forall.
  intros row Hin. apply in_map_iff in Hin as (i & <- & _). apply H.
Qed.

Lemma sip_rows_Forall (mr su infl sy : Q) (a0 : Accum) (k : nat) :
  (forall i bal paid, P (month_row host infl sy i bal paid)) ->
  Forall P (rows a0) ->
  Forall P (rows (for_loop k (sip_month host mr su infl sy) a0)).
Proof.
  intros H H0. induction k as [|k IH]; [exact H0|].
  cbn [for_loop]. rewrite sip_month_rows.
  destruct (S k mod 12 =? 0)%nat; [|exact IH].
  apply Forall_app. split; [exact IH|]. constructor; [apply H|constructor].
Qed.

Lemma goal_rows_Forall (rpm infl sy : Q) (a0 : Accum) (k : nat) :
  (forall i bal paid, P (month_row host infl sy i bal paid)) ->
  Forall P (rows a0) ->
  Forall P (rows (for_loop k (goal_month host rpm infl sy) a0)).
Proof.
  intros H H0. induction k as [|k IH]; [exact H0|].
  cbn [for_loop]. rewrite goal_month_rows.
  destruct (S k mod 12 =? 0)%nat; [|exact IH].
  apply Forall_app. split; [exact IH|]. constructor; [apply H|constructor].
Qed.

Lemma property_rows_Forall (p ri me ar infl sy : Q) (a0 : PropAccum) (k : nat) :
  (forall i value rent,
     P {| year := Js.of_nat i;
          label := (Fin sy + Js.of_nat i)%num;
          invested := Fin p;
          interest := Js.Math_round ((value - Fin p) + rent)%num;
          total := Js.Math_round (value + rent)%num;
          realValue :=
            Js.Math_round ((value + rent)
                           / Js.Math_pow host (Fin 1 + Fin infl / Fin 100)
                               (Js.of_nat i))%num |}) ->
  Forall P (prop_rows a0) ->
  Forall P (prop_rows (for_loop k (property_year host p ri me ar infl sy) a0)).
Proof.
  intros H H0. induction k as [|k IH]; [exact H0|].
  cbn [for_loop]. rewrite property_year_rows.
  apply Forall_app. split; [exact IH|]. constructor; [apply H|constructor].
Qed.

End RowsOfLoops.

Lemma sip_rows_years (host : Host) (mr su infl sy : Q) (a0 : Accum) (k : nat) :
  rows a0 = [] ->
  map year (rows (for_loop k (sip_month host mr su infl sy) a0))
  = map Js.of_nat (seq 1 (k / 12)).
Proof.
  intros H0. induction k as [|k IH]; [cbn [for_loop]; now rewrite H0|].
  cbn [for_loop]. rewrite sip_month_rows, div12_succ.
  destruct (S k mod 12 =? 0)%nat eqn:E.
  - rewrite map_app, IH, Nat.add_1_r, seq_S, map_app. cbn [map year month_row].
    do 3 f_equal. pose proof (div12_succ k) as Hd. rewrite E in Hd. lia.
  - now rewrite Nat.add_0_r.
Qed.

Lemma goal_rows_years (host : Host) (rpm infl sy : Q) (a0 : Accum) (k : nat) :
  rows a0 = [] ->
  map year (rows (for_loop k (goal_month host rpm infl sy) a0))
  = map Js.of_nat (seq 1 (k / 12)).
Proof.
  intros H0. induction k as [|k IH]; [cbn [for_loop]; now rewrite H0|].
  cbn [for_loop]. rewrite goal_month_rows, div12_succ.
  destruct (S k mod 12 =? 0)%nat eqn:E.
  - rewrite map_app, IH, Nat.add_1_r, seq_S, map_app. cbn [map year month_row].
    do 3 f_equal. pose proof (div12_succ k) as Hd. rewrite E in Hd. lia.
  - now rewrite Nat.add_0_r.
Qed.

Lemma property_rows_years (host : Host) (p ri me ar infl sy : Q)
    (a0 : PropAccum) (k : nat) :
  prop_rows a0 = [] ->
  map year (prop_rows (for_loop k (property_year host p ri me ar infl sy) a0))
  = map Js.of_nat (seq 1 k).
Proof.
  intros H0. induction k as [|k IH]; [cbn [for_loop]; now rewrite H0|].
  cbn [for_loop]. rewrite property_year_rows, map_app, IH, seq_S, map_app.
  reflexivity.
Qed.

(** X4: the schedule is numbered from 1.  In every mode but TAX the k-th
    row carries the year k and the label [startYear + k], with the current
    calendar year for an absent [startYear]; the single row of TAX carries
    the year 1 and the label [startYear] itself. *)
Theorem schedule_rows_are_numbered (host : Host) (mode : CalculatorMode)
    (inputs : InvestmentInputs) :
  let r := calculateInvestment host mode inputs in
  let sy := dflt (startYear inputs) (inject_Z (now_year host)) in
  (mode <> TAX ->
   map year (yearlyData r) = map Js.of_nat (seq 1 (length (yearlyData r))) /\
   Forall (fun row => label row = (Fin sy + year row)%num) (yearlyData r)) /\
  (mode = TAX ->
   exists row, yearlyData r = [row] /\ year row = Fin 1 /\ label row = Fin sy).
Proof.
  cbv zeta. split.
  - intros Hm.
    assert (map year (l_yearlyData (strategy host mode inputs))
            = map Js.of_nat
                (seq 1 (trip_count (effective_duration mode inputs)))) as Hy.
    { unfold strategy.
      destruct mode; try (now elim Hm);
        cbn [l_yearlyData sip_branch goal_branch compound_branch loan_branch
             stock_branch property_branch roi_branch];
        try (rewrite for_loop_push_map, map_map; reflexivity).
      - rewrite sip_rows_years by reflexivity. now rewrite trip_count_months.
      - now rewrite property_rows_years.
      - rewrite goal_rows_years by reflexivity. now rewrite trip_count_months.
      - rewrite sip_rows_years by reflexivity. now rewrite trip_count_months. }
    split.
    + change (yearlyData (calculateInvestment host mode inputs))
        with (l_yearlyData (strategy host mode inputs)).
      rewrite strategy_rows_length. rewrite Hy.
      destruct mode; try reflexivity. now elim Hm.
    + change (yearlyData (calculateInvestment host mode inputs))
        with (l_yearlyData (strategy host mode inputs)).
      unfold strategy.
      destruct mode; try (now elim Hm);
        cbn [l_yearlyData sip_branch goal_branch compound_branch loan_branch
             stock_branch property_branch roi_branch];
        try (apply for_loop_push_Forall; reflexivity).
      * apply sip_rows_Forall; [reflexivity|constructor].
      * apply property_rows_Forall; [reflexivity|constructor].
      * apply goal_rows_Forall; [reflexivity|constructor].
      * apply sip_rows_Forall; [reflexivity|constructor].
  - intros ->. eexists. split; [reflexivity|]. split; reflexivity.
Qed.

Lemma schedule_rows_are_numbered_witness :
  LUMPSUM <> TAX /\
  map year (yearlyData (calculateInvestment host_2025 LUMPSUM lumpsum_30_months))
  = [Js.of_nat 1; Js.of_nat 2] /\
  map label (yearlyData (calculateInvestment host_2025 LUMPSUM lumpsum_30_months))
  = [Fin 2026; Fin 2027].
Proof.
  split; [discriminate|].
  destruct (schedule_rows_are_numbered host_2025 LUMPSUM lumpsum_30_months)
    as [H _].
  destruct (H ltac:(discriminate)) as [Hy _].
  split; [rewrite Hy|]; reflexivity.
Defined.

Lemma round_div_one (v : num) (x : Q) :
  x == 1 -> Js.Math_round (v / Fin x)%num = Js.Math_round v.
Proof.
  intros Hx. destruct v as [q| | |]; try reflexivity; unfold Js.div.
  - known_nonzero x. cbn [Js.Math_round]. unfold Js.of_Z. do 2 f_equal.
    apply round_Q_comp. rewrite Hx. field.
  - assert (Js.is_neg x = false) as -> by (apply is_neg_false; lra). reflexivity.
  - assert (Js.is_neg x = false) as -> by (apply is_neg_false; lra). reflexivity.
Qed.

(** Without inflation the deflator of every year is 1. *)
Lemma inflation_factor_one (host : Host) (infl : Q) (i : nat) :
  infl == 0 ->
  exists x, Js.Math_pow host (Fin 1 + Fin infl / Fin 100)%num (Js.of_nat i) = Fin x
            /\ x == 1.
Proof.
  intros H.
  change (Fin 1 + Fin infl / Fin 100)%num with (Fin (1 + infl / 100)).
  assert (1 + infl / 100 == 1) as Hb by (rewrite H; reflexivity).
  unfold Js.of_nat, Js.of_Z, Js.Math_pow.
  destruct (Js.is_zero (inject_Z (Z.of_nat i))); [now exists 1|].
  unfold Js.pow_fin.
  assert (Js.is_int (inject_Z (Z.of_nat i)) = true) as ->.
  { unfold Js.is_int. rewrite Qfloor_Z. apply Qeq_bool_refl. }
  known_nonzero (1 + infl / 100). cbn [andb].
  eexists. split; [reflexivity|]. rewrite Hb. apply Qpower_1.
Qed.

(** X5: without inflation (an absent or zero [inflationRate]) every row of
    the schedule has its inflation-adjusted value equal to its total, in
    every mode but LOAN, whose rows carry 0 there. *)
Theorem no_inflation_real_value (host : Host) (mode : CalculatorMode)
    (inputs : InvestmentInputs) :
  let r := calculateInvestment host mode inputs in
  dflt (inflationRate inputs) 0 == 0 ->
  (mode <> LOAN -> Forall (fun row => realValue row = total row) (yearlyData r)) /\
  (mode = LOAN -> Forall (fun row => realValue row = Fin 0) (yearlyData r)).
Proof.
  intros r Hinfl.
  assert (forall (i : nat) (v : num),
            Js.Math_round
              (v / Js.Math_pow host (Fin 1 + Fin (dflt (inflationRate inputs) 0) / Fin 100)
                     (Js.of_nat i))%num
            = Js.Math_round v) as Hreal.
  { intros i v.
    destruct (inflation_factor_one host _ i Hinfl) as (x & -> & Hx).
    now apply round_div_one. }
  unfold r.
  change (yearlyData (calculateInvestment host mode inputs))
    with (l_yearlyData (strategy host mode inputs)).
  unfold strategy. split.
  - intros Hm.
    destruct mode; try (now elim Hm);
      cbn [l_yearlyData sip_branch goal_branch compound_branch
           stock_branch property_branch roi_branch tax_branch].
    + apply sip_rows_Forall; [|constructor]. intros. apply Hreal.
    + apply for_loop_push_Forall. intros. apply Hreal.
    + apply for_loop_push_Forall. intros. apply Hreal.
    + apply property_rows_Forall; [|constructor]. intros. apply Hreal.
    + apply for_loop_push_Forall. intros. apply Hreal.
    + apply for_loop_push_Forall. intros. apply Hreal.
    + constructor; [reflexivity|constructor].
    + apply goal_rows_Forall; [|constructor]. intros. apply Hreal.
    + apply sip_rows_Forall; [|constructor]. intros. apply Hreal.
  - intros ->. cbn [l_yearlyData loan_branch].
    apply for_loop_push_Forall. reflexivity.
Qed.

Lemma no_inflation_real_value_witness :
  dflt (inflationRate sip_level) 0 == 0 /\ SIP <> LOAN /\
  map realValue (yearlyData (calculateInvestment host_2025 SIP sip_level))
  = map total (yearlyData (calculateInvestment host_2025 SIP sip_level)).
Proof.
  assert (dflt (inflationRate sip_level) 0 == 0) as H by reflexivity.
  split; [exact H|]. split; [discriminate|].
  destruct (no_inflation_real_value host_2025 SIP sip_level H) as [Hall _].
  specialize (Hall ltac:(discriminate)).
  induction Hall as [|row rest Hrow _ IH]; [reflexivity|].
  cbn [map]. now rewrite Hrow, IH.
Defined.

(** The sign and wholeness tests do not see the representation of a
    rational. *)
Lemma is_zero_comp (a b : Q) : a == b -> Js.is_zero a = Js.is_zero b.
Proof. intros H. apply eq_true_iff_eq. rewrite !is_zero_true. now rewrite H. Qed.

Lemma is_pos_comp (a b : Q) : a == b -> Js.is_pos a = Js.is_pos b.
Proof. intros H. apply eq_true_iff_eq. rewrite !is_pos_true. now rewrite H. Qed.

Lemma is_neg_comp (a b : Q) : a == b -> Js.is_neg a = Js.is_neg b.
Proof. intros H. apply eq_true_iff_eq. rewrite !is_neg_true. now rewrite H. Qed.

Lemma is_int_comp (a b : Q) : a == b -> Js.is_int a = Js.is_int b.
Proof.
  intros H. unfold Js.is_int. apply eq_true_iff_eq.
  assert (Qfloor a = Qfloor b) as Hf by (now apply Qfloor_comp).
  rewrite !Qeq_bool_iff, Hf.
  split; intros E;
    [exact (Qeq_trans _ _ _ E H) | exact (Qeq_trans _ _ _ E (Qeq_sym _ _ H))].
Qed.

(** [Math.pow] at a whole exponent does not see its representation. *)
Lemma Math_pow_whole_exponent (host : Host) (x : num) (e e' : Q) :
  e == e' -> Js.is_int e = true ->
  Js.Math_pow host x (Fin e) = Js.Math_pow host x (Fin e').
Proof.
  intros H Hint.
  assert (Js.is_int e' = true) as Hint' by (now rewrite <- (is_int_comp _ _ H)).
  assert (Qfloor e = Qfloor e') as Hf by (now apply Qfloor_comp).
  unfold Js.Math_pow, Js.pow_fin, Js.is_odd_int.
  rewrite (is_zero_comp _ _ H), (is_pos_comp _ _ H), (is_neg_comp _ _ H).
  now rewrite Hint, Hint', Hf.
Qed.

Lemma last_row_map (f : nat -> YearData) (n : nat) :
  last_row (for_loop (S n) (fun i acc => acc ++ [f i]) []) = Some (f (S n)).
Proof. cbn [for_loop]. apply last_row_push. Qed.

Lemma sip_last_row (host : Host) (mr su infl sy : Q) (a0 : Accum) (k : nat) :
  (0 < k)%nat -> (k mod 12 = 0)%nat ->
  let a := for_loop k (sip_month host mr su infl sy) a0 in
  last_row (rows a)
  = Some (month_row host infl sy k (currentBalance a) (currentInvested a)).
Proof.
  intros Hk Hm. destruct k as [|k]; [lia|]. cbv zeta. cbn [for_loop].
  rewrite sip_month_rows. apply Nat.eqb_eq in Hm. rewrite Hm.
  apply last_row_push.
Qed.

Lemma goal_last_row (host : Host) (rpm infl sy : Q) (a0 : Accum) (k : nat) :
  (0 < k)%nat -> (k mod 12 = 0)%nat ->
  let a := for_loop k (goal_month host rpm infl sy) a0 in
  last_row (rows a)
  = Some (month_row host infl sy k (currentBalance a) (currentInvested a)).
Proof.
  intros Hk Hm. destruct k as [|k]; [lia|]. cbv zeta. cbn [for_loop].
  rewrite goal_month_rows. apply Nat.eqb_eq in Hm. rewrite Hm.
  apply last_row_push.
Qed.

Lemma whole_months (dur : Q) (d : nat) :
  dur == inject_Z (Z.of_nat d) -> trip_count (dur * 12) = (d * 12)%nat.
Proof.
  intros H. apply trip_count_whole.
  rewrite H, Nat2Z.inj_mul, inject_Z_mult. reflexivity.
Qed.

(** In exact arithmetic the last row of a schedule over a whole number of
    years shows the figures of the summary. *)
Lemma last_row_exact (host : Host) (mode : CalculatorMode)
    (inputs : InvestmentInputs) (d : nat) :
  let r := calculateInvestment host mode inputs in
  mode <> LOAN -> mode <> TAX ->
  (0 < d)%nat ->
  effective_duration mode inputs == inject_Z (Z.of_nat d) ->
  (mode = COMPOUND ->
   Js.is_int (q_or (dflt (compoundingFrequency inputs) 1) 1) = true) ->
  exists row,
    last_row (yearlyData r) = Some row /\
    total row = finalValue r /\
    interest row = totalInterest r.
Proof.
  intros r Nl Nt Hd Hy Hfreq.
  assert (~ effective_duration mode inputs == 0) as Hnz.
  { rewrite Hy. intros H.
    assert (inject_Z 0 < inject_Z (Z.of_nat d)) as H' by (rewrite <- Zlt_Qlt; lia).
    rewrite H in H'. now apply Qlt_irrefl in H'. }
  assert (trip_count (effective_duration mode inputs) = d) as Htrip
    by (now apply trip_count_whole).
  assert (trip_count (effective_duration mode inputs * 12) = (d * 12)%nat)
    as Hmonths by (now apply whole_months).
  assert (forall n : Q, Js.is_int n = true ->
            Js.Math_pow host (Fin 1 + Fin (effective_rate inputs / 100) / Fin n)%num
              (Fin n * Js.of_nat d)%num
            = Js.Math_pow host (Fin 1 + Fin (effective_rate inputs / 100) / Fin n)%num
                (Fin n * Fin (effective_duration mode inputs))%num) as Hpow.
  { intros n Hn.
    change (Fin n * Js.of_nat d)%num with (Fin (n * inject_Z (Z.of_nat d))).
    change (Fin n * Fin (effective_duration mode inputs))%num
      with (Fin (n * effective_duration mode inputs)).
    apply Math_pow_whole_exponent; [now rewrite Hy|].
    unfold Js.is_int in *. apply Qeq_bool_iff in Hn. apply Qeq_bool_iff.
    set (z := Qfloor n) in *.
    assert (n * inject_Z (Z.of_nat d) == inject_Z (z * Z.of_nat d)) as H1
      by (rewrite inject_Z_mult, Hn; reflexivity).
    rewrite (Qfloor_comp _ _ H1), Qfloor_Z. now symmetry. }
  unfold r, calculateInvestment. cbn [yearlyData finalValue totalInterest].
  unfold strategy. destruct mode; try (now elim Nl); try (now elim Nt);
    cbn [l_yearlyData l_finalValue l_totalInvested sip_branch goal_branch
         compound_branch stock_branch property_branch roi_branch].
  - (* SIP *)
    rewrite Hmonths. eexists. split.
    + apply sip_last_row; [lia|apply Nat.Div0.mod_mul].
    + split; reflexivity.
  - (* LUMPSUM *)
    rewrite Htrip. destruct d as [|d']; [lia|]. rewrite last_row_map.
    eexists. split; [reflexivity|]. unfold compound_row. cbn [total interest].
    rewrite (Hpow 1 eq_refl). split; reflexivity.
  - (* STOCK *)
    rewrite Htrip. destruct d as [|d']; [lia|]. rewrite last_row_map.
    eexists. split; [reflexivity|]. unfold stock_row. cbn [total interest].
    set (dur := effective_duration STOCK inputs) in *.
    unfold Js.of_nat, Js.of_Z, Js.div.
    assert (Js.is_zero dur = false) as Hz by (now apply is_zero_false).
    rewrite Hz. assert (Js.is_zero 100 = false) as -> by reflexivity.
    cbn [Js.mul Js.add Js.sub Js.neg Js.Math_round]. unfold Js.of_Z.
    split; do 2 f_equal; apply round_Q_comp; rewrite Hy; field;
      rewrite <- Hy; exact Hnz.
  - (* PROPERTY *)
    rewrite Htrip. destruct d as [|d']; [lia|]. cbn [for_loop].
    rewrite property_year_rows, last_row_push.
    eexists. split; [reflexivity|]. cbn [total interest]. split; [reflexivity|].
    match goal with |- context [property_year host ?p ?ri ?me ?ar ?infl ?sy (S d') ?a] =>
      change (property_year host p ri me ar infl sy (S d') a)
        with (for_loop (S d') (property_year host p ri me ar infl sy)
                {| currentPropValue := p; accumulatedNetRent := 0; prop_rows := [] |});
      destruct (property_loop_finite host p ri me ar infl sy (S d')) as (v & w & -> & ->)
    end.
    cbn [Js.mul Js.add Js.sub Js.neg Js.Math_round]. unfold Js.of_Z.
    do 2 f_equal. apply round_Q_comp. ring.
  - (* COMPOUND *)
    rewrite Htrip. destruct d as [|d']; [lia|]. rewrite last_row_map.
    eexists. split; [reflexivity|]. unfold compound_row. cbn [total interest].
    rewrite (Hpow _ (Hfreq eq_refl)). split; reflexivity.
  - (* ROI *)
    rewrite Htrip. destruct d as [|d']; [lia|]. rewrite last_row_map.
    eexists. split; [reflexivity|]. unfold roi_row. cbn [total interest].
    set (dur := effective_duration ROI inputs) in *.
    unfold Js.of_nat, Js.of_Z, Js.div.
    assert (Js.is_zero dur = false) as Hz by (now apply is_zero_false).
    rewrite Hz.
    cbn [Js.mul Js.add Js.sub Js.neg Js.Math_round]. unfold Js.of_Z.
    split; do 2 f_equal; apply round_Q_comp; rewrite Hy; field;
      rewrite <- Hy; exact Hnz.
  - (* GOAL *)
    rewrite Hmonths. eexists. split.
    + apply goal_last_row; [lia|apply Nat.Div0.mod_mul].
    + split; reflexivity.
  - (* RETIREMENT *)
    rewrite Hmonths. eexists. split.
    + apply sip_last_row; [lia|apply Nat.Div0.mod_mul].
    + split; reflexivity.
Qed.

(** The figures of STOCK, ROI and PROPERTY are finite. *)
Lemma plain_modes_are_finite (host : Host) (mode : CalculatorMode)
    (inputs : InvestmentInputs) :
  mode = STOCK \/ mode = ROI \/ mode = PROPERTY ->
  exists f v : Q,
    l_finalValue (strategy host mode inputs) = Fin f /\
    l_totalInvested (strategy host mode inputs) = Fin v.
Proof.
  intros [-> | [-> | ->]]; unfold strategy.
  - unfold stock_branch. cbn [l_finalValue l_totalInvested].
    change (Fin (or_dflt (dividendYield inputs) 0) / Fin 100)%num
      with (Fin (or_dflt (dividendYield inputs) 0 / 100)).
    do 2 eexists. split; reflexivity.
  - do 2 eexists. split; reflexivity.
  - unfold property_branch. cbn [l_finalValue l_totalInvested].
    match goal with |- context [for_loop ?k (property_year host ?p ?ri ?me ?ar ?infl ?sy) _] =>
      destruct (property_loop_finite host p ri me ar infl sy k) as (v & w & -> & ->)
    end.
    do 2 eexists. split; reflexivity.
Qed.

(** X6: over a whole number of years the last schedule row agrees with the
    summary.  In SIP, RETIREMENT, GOAL, LUMPSUM and COMPOUND (there for a
    whole compounding frequency) the [total] of the last row is the
    returned [finalValue] and its [interest] the returned [totalInterest];
    in PROPERTY the totals are equal and the interest figures, which are
    summed in another order, are at most one unit apart; in STOCK and
    ROI, whose last row is recomputed from the gain, both figures are at
    most one unit apart. *)
Theorem last_row_matches_summary (host : Host) (mode : CalculatorMode)
    (inputs : InvestmentInputs) (d : nat) :
  let r := calculateInvestment host mode inputs in
  mode <> LOAN -> mode <> TAX ->
  (0 < d)%nat ->
  effective_duration mode inputs == inject_Z (Z.of_nat d) ->
  (mode = COMPOUND ->
   Js.is_int (q_or (dflt (compoundingFrequency inputs) 1) 1) = true) ->
  exists row,
    last_row (yearlyData r) = Some row /\
    (mode <> STOCK -> mode <> ROI -> total row = finalValue r) /\
    (mode <> STOCK -> mode <> ROI -> mode <> PROPERTY ->
     interest row = totalInterest r) /\
    (mode = STOCK \/ mode = ROI \/ mode = PROPERTY ->
     within_one (total row) (finalValue r) /\
     within_one (interest row) (totalInterest r)).
Proof.
  intros r Nl Nt Hd Hy Hfreq.
  destruct (last_row_exact host mode inputs d Nl Nt Hd Hy Hfreq)
    as (row & Hlast & Ht & Hi).
  exists row. split; [exact Hlast|].
  split; [intros _ _; exact Ht|]. split; [intros _ _ _; exact Hi|].
  intros Hm. destruct (plain_modes_are_finite host mode inputs Hm) as (f & v & Hf & Hv).
  assert (finalValue r = Js.of_Z (Js.round_Q f)) as Ef.
  { unfold r, calculateInvestment. cbn [finalValue]. now rewrite Hf. }
  assert (totalInterest r = Js.of_Z (Js.round_Q (f - v))) as Ei.
  { unfold r, calculateInvestment. cbn [totalInterest]. now rewrite Hf, Hv. }
  split.
  - exists (Js.round_Q f), (Js.round_Q f).
    split; [now rewrite Ht|]. split; [exact Ef|]. lia.
  - exists (Js.round_Q (f - v)), (Js.round_Q (f - v)).
    split; [now rewrite Hi|]. split; [exact Ei|]. lia.
Qed.

Lemma last_row_matches_summary_witness :
  SIP <> LOAN /\ SIP <> TAX /\ (0 < 2)%nat /\
  effective_duration SIP sip_stepped == inject_Z (Z.of_nat 2) /\
  exists row,
    last_row (yearlyData (calculateInvestment host_2025 SIP sip_stepped)) = Some row /\
    total row = finalValue (calculateInvestment host_2025 SIP sip_stepped) /\
    interest row = totalInterest (calculateInvestment host_2025 SIP sip_stepped).
Proof.
  split; [discriminate|]. split; [discriminate|]. split; [lia|].
  split; [reflexivity|].
  destruct (last_row_matches_summary host_2025 SIP sip_stepped 2)
    as (row & Hl & Ht & Hi & _); try discriminate; [lia|reflexivity|].
  exists row. split; [exact Hl|]. split.
  - apply Ht; discriminate.
  - apply Hi; discriminate.
Defined.

(** ** How the modes compose *)

(** X7: LUMPSUM is COMPOUND at one period a year: the two modes return the
    same result when the compounding frequency is 1, absent or 0. *)
Theorem lumpsum_is_yearly_compound (host : Host) (inputs : InvestmentInputs) :
  calculateInvestment host LUMPSUM inputs
  = calculateInvestment host COMPOUND (set_compoundingFrequency (Some 1) inputs) /\
  calculateInvestment host LUMPSUM inputs
  = calculateInvestment host COMPOUND (set_compoundingFrequency None inputs) /\
  calculateInvestment host LUMPSUM inputs
  = calculateInvestment host COMPOUND (set_compoundingFrequency (Some 0) inputs) /\
  (forall f, calculateInvestment host LUMPSUM (set_compoundingFrequency f inputs)
             = calculateInvestment host LUMPSUM inputs).
Proof. repeat split. Qed.

(** X8: RETIREMENT is SIP over the effective duration: the result is the
    one SIP returns with [timePeriodYears] set to the effective duration,
    which is the time period itself unless both ages are supplied and not
    zero. *)
Theorem retirement_is_sip (host : Host) (inputs : InvestmentInputs) :
  calculateInvestment host RETIREMENT inputs
  = calculateInvestment host SIP
      (set_timePeriodYears (effective_duration RETIREMENT inputs) inputs) /\
  (supplied (currentAge inputs) && supplied (retirementAge inputs) = false ->
   calculateInvestment host RETIREMENT inputs
   = calculateInvestment host SIP inputs).
Proof.
  split; [reflexivity|].
  intros H. unfold calculateInvestment, strategy, effective_duration.
  now rewrite H.
Qed.

Lemma retirement_is_sip_witness :
  supplied (currentAge retire_from_birth)
  && supplied (retirementAge retire_from_birth) = false /\
  calculateInvestment host_2025 RETIREMENT retire_from_birth
  = calculateInvestment host_2025 SIP retire_from_birth.
Proof.
  split; [reflexivity|].
  apply (retirement_is_sip host_2025 retire_from_birth). reflexivity.
Defined.

(** X9: GOAL is SIP fed with the solved payment.  Whenever the payment
    GOAL solves for is a finite number, its schedule and every figure of
    its result except [monthlyPayment] are those of SIP run with that
    payment as a level monthly contribution; SIP itself reports no
    monthly payment. *)
Theorem goal_is_sip_with_payment (host : Host) (inputs : InvestmentInputs)
    (pmt : Q) :
  let g := calculateInvestment host GOAL inputs in
  let s := calculateInvestment host SIP
             (set_stepUpRate (Some 0)
                (set_monthlyContribution (Some pmt) inputs)) in
  l_monthlyPayment (strategy host GOAL inputs) = Fin pmt ->
  yearlyData g = yearlyData s /\
  totalInvested g = totalInvested s /\
  finalValue g = finalValue s /\
  totalInterest g = totalInterest s /\
  taxPayable g = taxPayable s /\
  postTaxValue g = postTaxValue s /\
  roiPercentage g = roiPercentage s /\
  cagr g = cagr s /\
  durationYears g = durationYears s /\
  doublingTime g = doublingTime s /\
  purchasingPowerLoss g = purchasingPowerLoss s /\
  monthlyPayment g = Js.Math_round (Fin pmt) /\
  monthlyPayment s = Fin 0.
Proof.
  intros g s Hpay.
  assert (strategy host SIP
            (set_stepUpRate (Some 0) (set_monthlyContribution (Some pmt) inputs))
          = {| l_totalInvested := l_totalInvested (strategy host GOAL inputs);
               l_finalValue := l_finalValue (strategy host GOAL inputs);
               l_yearlyData := l_yearlyData (strategy host GOAL inputs);
               l_monthlyPayment := Fin 0;
               l_roiPercentage := Fin 0 |}) as Hs.
  { unfold strategy, sip_branch, goal_branch.
    cbn [l_totalInvested l_finalValue l_yearlyData effective_duration].
    unfold set_stepUpRate, set_monthlyContribution, effective_rate.
    cbn [initialInvestment monthlyContribution stepUpRate inflationRate
         startYear timePeriodYears interestRate expenseRatio dflt].
    rewrite sip_loop_level.
    change (goal_payment host (or_dflt (targetAmount inputs) 1000000)
              (dflt (initialInvestment inputs) 0)
              (Qmax 0 (interestRate inputs
                       - q_or (dflt (expenseRatio inputs) 0) 0) / 100 / 12)
              (timePeriodYears inputs * 12))
      with (l_monthlyPayment (strategy host GOAL inputs)).
    rewrite Hpay. reflexivity. }
  unfold g, s, calculateInvestment. rewrite Hs.
  cbn [yearlyData totalInvested finalValue totalInterest taxPayable postTaxValue
       cagr purchasingPowerLoss monthlyPayment roiPercentage durationYears
       doublingTime
       l_totalInvested l_finalValue l_yearlyData l_monthlyPayment l_roiPercentage].
  rewrite Hpay. repeat split.
Qed.

Lemma goal_is_sip_with_payment_witness :
  exists pmt : Q,
    l_monthlyPayment (strategy host_2025 GOAL goal_24000) = Fin pmt /\
    pmt == 1000 /\
    yearlyData (calculateInvestment host_2025 GOAL goal_24000)
    = yearlyData (calculateInvestment host_2025 SIP
                    (set_stepUpRate (Some 0)
                       (set_monthlyContribution (Some pmt) goal_24000))).
Proof.
  eexists. split; [vm_compute; reflexivity|]. split; [reflexivity|].
  apply (goal_is_sip_with_payment host_2025 goal_24000). vm_compute. reflexivity.
Defined.

(** ** LOAN mode *)

Lemma annuity_le (g : Q) (k : nat) :
  1 <= g -> annuity g k <= inject_Z (Z.of_nat k) * qpow g k.
Proof.
  intros Hg. induction k as [|k IH].
  { cbn [annuity qpow]. change (inject_Z (Z.of_nat 0)) with 0. lra. }
  pose proof (qpow_ge_1 g (S k) Hg) as H1.
  pose proof (qpow_ge_1 g k Hg) as H0.
  assert (0 <= inject_Z (Z.of_nat k)) as Hk.
  { change 0 with (inject_Z 0). rewrite <- Zle_Qle. lia. }
  rewrite Nat2Z.inj_succ. unfold Z.succ. rewrite inject_Z_plus.
  change (inject_Z 1) with 1.
  cbn [annuity qpow] in *.
  assert (annuity g k * g <= inject_Z (Z.of_nat k) * qpow g k * g) as H2
    by (apply Qmult_le_compat_r; lra).
  lra.
Qed.

Lemma amortize_closed (P g emi : Q) (m : nat) :
  amortize P g emi m == P * qpow g m - emi * annuity g m.
Proof.
  induction m as [|m IH]; cbn [amortize qpow annuity]; [ring|].
  rewrite IH. ring.
Qed.

(** The figures of LOAN mode at a positive rate over [n > 0] whole months:
    the growth factor to the [n] exceeds 1, and the payment is finite. *)
Lemma loan_payment_positive_rate (host : Host) (P R N : Q) (n : nat) :
  0 < R -> (0 < n)%nat -> N == inject_Z (Z.of_nat n) ->
  1 < qpow (1 + R) n /\
  Js.Math_pow host (Fin (1 + R)) (Fin N) = Fin ((1 + R) ^ Z.of_nat n) /\
  loan_payment host P R N
  = Fin (P * R * (1 + R) ^ Z.of_nat n / ((1 + R) ^ Z.of_nat n - 1)).
Proof.
  intros HR Hn HN.
  assert (0 < 1 + R) as Hg by lra.
  pose proof (Qpower_qpow (1 + R) n Hg) as Hpow.
  pose proof (qpow_gt_1 (1 + R) n ltac:(lra) Hn) as Hx.
  pose proof (Math_pow_whole host (1 + R) N n Hg HN Hn) as Hp.
  split; [exact Hx|]. split; [exact Hp|].
  unfold loan_payment, Js.strict_eq. fold (Js.is_zero R). known_nonzero R.
  change (Fin 1 + Fin R)%num with (Fin (1 + R)). rewrite Hp.
  set (x := (1 + R) ^ Z.of_nat n) in *.
  change (Fin P * Fin R * Fin x)%num with (Fin (P * R * x)).
  change (Fin x - Fin 1)%num with (Fin (x - 1)).
  unfold Js.div. known_nonzero (x - 1). reflexivity.
Qed.

(** In exact arithmetic a loan over a whole number of years costs at least
    its principal, and exactly its principal at a zero rate. *)
Lemma loan_cost_exact (host : Host) (inputs : InvestmentInputs)
    (d : nat) :
  let r := calculateInvestment host LOAN inputs in
  0 <= dflt (initialInvestment inputs) 0 ->
  0 <= interestRate inputs ->
  (0 < d)%nat ->
  timePeriodYears inputs == inject_Z (Z.of_nat d) ->
  (exists z : Z, totalInterest r = Js.of_Z z /\ (0 <= z)%Z) /\
  (interestRate inputs == 0 ->
   totalInterest r = Fin 0 /\ finalValue r = totalInvested r) /\
  taxPayable r = Fin 0 /\
  postTaxValue r = finalValue r.
Proof.
  intros r HP Hrate Hd Hy.
  set (P := dflt (initialInvestment inputs) 0) in *.
  set (R := interestRate inputs / 12 / 100).
  set (N := timePeriodYears inputs * 12).
  assert (0 <= R) as HR0.
  { unfold R. apply Qle_shift_div_l; [reflexivity|].
    apply Qle_shift_div_l; [reflexivity|]. lra. }
  assert (N == inject_Z (Z.of_nat (d * 12))) as HN.
  { unfold N. rewrite Hy, Nat2Z.inj_mul, inject_Z_mult. reflexivity. }
  assert (0 < inject_Z (Z.of_nat (d * 12))) as Hnpos.
  { change 0 with (inject_Z 0). rewrite <- Zlt_Qlt. lia. }
  assert (exists fv, l_finalValue (strategy host LOAN inputs) = Fin fv /\
                     0 <= fv - P /\ (interestRate inputs == 0 -> fv == P))
    as (fv & Hfv & Hge & Hzero).
  { unfold strategy, loan_branch. cbn [l_finalValue effective_duration].
    fold P R N.
    destruct (Qlt_le_dec 0 R) as [HR|HR].
    - destruct (loan_payment_positive_rate host P R N (d * 12) HR ltac:(lia) HN)
        as (Hx & _ & ->).
      pose proof (Qpower_qpow (1 + R) (d * 12) ltac:(lra)) as Hpow.
      set (x := (1 + R) ^ Z.of_nat (d * 12)) in *.
      eexists. split; [reflexivity|]. split.
      + pose proof (annuity_closed (1 + R) (d * 12)) as Hc.
        pose proof (annuity_le (1 + R) (d * 12) ltac:(lra)) as Hle.
        rewrite <- Hpow in Hle, Hx, Hc.
        set (ann := annuity (1 + R) (d * 12)) in *.
        assert (x - 1 == R * ann) as Hx1 by (rewrite <- Hc; ring).
        assert (0 < x - 1) as Hxp by lra.
        assert (P * R * x / (x - 1) * N - P
                == P * (R * (inject_Z (Z.of_nat (d * 12)) * x - ann)) / (x - 1)) as ->.
        { rewrite HN. setoid_replace (R * (inject_Z (Z.of_nat (d * 12)) * x - ann))
            with (R * inject_Z (Z.of_nat (d * 12)) * x - (x - 1)) by (rewrite Hx1; ring).
          field. lra. }
        apply Qle_shift_div_l; [exact Hxp|]. rewrite Qmult_0_l.
        apply Qmult_le_0_compat; [exact HP|].
        apply Qmult_le_0_compat; lra.
      + intros E. exfalso. assert (R == 0) by (unfold R; rewrite E; reflexivity). lra.
    - assert (R == 0) as ER by lra.
      unfold loan_payment, Js.strict_eq. fold (Js.is_zero R).
      assert (Js.is_zero R = true) as -> by (now apply is_zero_true).
      unfold Js.div. known_nonzero N.
      eexists. split; [reflexivity|].
      assert (P / N * N == P) as E by (field; lra).
      split; [lra|]. intros _. exact E. }
  unfold r, calculateInvestment.
  cbn [totalInterest finalValue totalInvested taxPayable postTaxValue tax_on].
  rewrite Hfv.
  change (l_totalInvested (strategy host LOAN inputs)) with (Fin P).
  change (Fin fv - Fin P)%num with (Fin (fv - P)).
  change (Fin fv - Fin 0)%num with (Fin (fv - 0)).
  cbn [Js.Math_round]. unfold Js.of_Z.
  split; [eexists; split; [reflexivity|now apply round_Q_nonneg]|].
  split.
  { intros E. specialize (Hzero E). split.
    - change (Fin 0) with (Fin (inject_Z (Js.round_Q 0))).
      do 2 f_equal. apply round_Q_comp. lra.
    - do 2 f_equal. now apply round_Q_comp. }
  split; [reflexivity|]. do 2 f_equal. apply round_Q_comp. ring.
Qed.

(** X10: a loan never costs less than its principal.  For a principal
    that is not negative, a rate that is not negative and a whole number
    of years, the returned [totalInterest] is a whole number [>= 0]; at a
    zero rate it is 0 and the total payable is the principal to within
    one unit.  LOAN charges no tax: [taxPayable] is 0 and [postTaxValue]
    is [finalValue]. *)
Theorem loan_costs_at_least_principal (host : Host) (inputs : InvestmentInputs)
    (d : nat) :
  let r := calculateInvestment host LOAN inputs in
  0 <= dflt (initialInvestment inputs) 0 ->
  0 <= interestRate inputs ->
  (0 < d)%nat ->
  timePeriodYears inputs == inject_Z (Z.of_nat d) ->
  (exists z : Z, totalInterest r = Js.of_Z z /\ (0 <= z)%Z) /\
  (interestRate inputs == 0 ->
   totalInterest r = Fin 0 /\ within_one (finalValue r) (totalInvested r)) /\
  taxPayable r = Fin 0 /\
  postTaxValue r = finalValue r.
Proof.
  intros r HP Hrate Hd Hy.
  destruct (loan_cost_exact host inputs d HP Hrate Hd Hy) as (Hz & Hzero & Ht & Hp).
  split; [exact Hz|]. split; [|split; [exact Ht|exact Hp]].
  intros E. destruct (Hzero E) as [Hi Hf]. split; [exact Hi|].
  assert (exists q, l_totalInvested (strategy host LOAN inputs) = Fin q)
    as (q & Hq) by (now eexists).
  assert (totalInvested r = Js.of_Z (Js.round_Q q)) as Hv.
  { unfold r, calculateInvestment. cbn [totalInvested]. now rewrite Hq. }
  exists (Js.round_Q q), (Js.round_Q q).
  split; [now rewrite <- Hv|]. split; [exact Hv|]. lia.
Qed.

Lemma loan_costs_at_least_principal_witness :
  0 <= dflt (initialInvestment loan_12_percent) 0 /\
  0 <= interestRate loan_12_percent /\ (0 < 1)%nat /\
  timePeriodYears loan_12_percent == inject_Z (Z.of_nat 1) /\
  totalInterest (calculateInvestment host_2025 LOAN loan_12_percent) = Fin 794 /\
  taxPayable (calculateInvestment host_2025 LOAN loan_12_percent) = Fin 0.
Proof.
  assert (0 <= dflt (initialInvestment loan_12_percent) 0) as H1
    by (vm_compute; discriminate).
  assert (0 <= interestRate loan_12_percent) as H2 by (vm_compute; discriminate).
  assert (timePeriodYears loan_12_percent == inject_Z (Z.of_nat 1)) as H3
    by reflexivity.
  split; [exact H1|]. split; [exact H2|]. split; [lia|]. split; [exact H3|].
  destruct (loan_costs_at_least_principal host_2025 loan_12_percent 1 H1 H2
              ltac:(lia) H3) as (_ & _ & Ht & _).
  split; [reflexivity|exact Ht].
Defined.

Lemma nth_error_seq_1 (d k : nat) : (k < d)%nat -> nth_error (seq 1 d) k = Some (S k).
Proof.
  intros H. rewrite (nth_error_nth' _ 0%nat) by (now rewrite length_seq).
  now rewrite seq_nth.
Qed.

(** In exact arithmetic the rows of LOAN are the balances of an
    amortization at the payment the engine solves for. *)
Lemma loan_schedule_exact (host : Host) (inputs : InvestmentInputs)
    (d k : nat) :
  let P := dflt (initialInvestment inputs) 0 in
  let R := interestRate inputs / 12 / 100 in
  let r := calculateInvestment host LOAN inputs in
  0 < interestRate inputs ->
  timePeriodYears inputs == inject_Z (Z.of_nat d) ->
  (k < d)%nat ->
  exists (emi rem : Q) (row : YearData),
    l_monthlyPayment (strategy host LOAN inputs) = Fin emi /\
    monthlyPayment r = Js.of_Z (Js.round_Q emi) /\
    nth_error (yearlyData r) k = Some row /\
    rem == amortize P (1 + R) emi (S k * 12) /\
    total row = Js.of_Z (Js.round_Q rem) /\
    invested row = Js.of_Z (Js.round_Q (P - rem)) /\
    interest row
    = Js.of_Z (Js.round_Q (emi * inject_Z (Z.of_nat (S k * 12)) - (P - rem))) /\
    amortize P (1 + R) emi (d * 12) == 0.
Proof.
  intros P R r Hrate Hy Hk.
  assert (0 < R) as HR.
  { unfold R. apply Qlt_shift_div_l; [reflexivity|].
    apply Qlt_shift_div_l; [reflexivity|]. lra. }
  assert (0 < 1 + R) as Hg by lra.
  assert (timePeriodYears inputs * 12 == inject_Z (Z.of_nat (d * 12))) as HN.
  { rewrite Hy, Nat2Z.inj_mul, inject_Z_mult. reflexivity. }
  assert (inject_Z (Z.of_nat (S k)) * 12 == inject_Z (Z.of_nat (S k * 12))) as HM.
  { rewrite Nat2Z.inj_mul, inject_Z_mult. reflexivity. }
  destruct (loan_payment_positive_rate host P R _ (d * 12) HR ltac:(lia) HN)
    as (Hx & Hpx & Hpay).
  pose proof (Math_pow_whole host (1 + R) _ (S k * 12) Hg HM ltac:(lia)) as Hpy.
  pose proof (Qpower_qpow (1 + R) (d * 12) Hg) as Ex.
  pose proof (Qpower_qpow (1 + R) (S k * 12) Hg) as Ey.
  pose proof (annuity_closed (1 + R) (d * 12)) as Ax.
  pose proof (annuity_closed (1 + R) (S k * 12)) as Ay.
  set (x := (1 + R) ^ Z.of_nat (d * 12)) in *.
  set (y := (1 + R) ^ Z.of_nat (S k * 12)) in *.
  rewrite <- Ex in Hx, Ax. rewrite <- Ey in Ay.
  assert (annuity (1 + R) (d * 12) == (x - 1) / R) as Annx
    by (rewrite <- Ax; field; lra).
  assert (annuity (1 + R) (S k * 12) == (y - 1) / R) as Anny
    by (rewrite <- Ay; field; lra).
  set (emi := P * R * x / (x - 1)) in *.
  exists emi, (P * (x - y) / (x - 1)).
  assert (l_monthlyPayment (strategy host LOAN inputs) = Fin emi) as Hm
    by exact Hpay.
  assert (l_yearlyData (strategy host LOAN inputs)
          = map (loan_row host P R (timePeriodYears inputs * 12)
                   (dflt (startYear inputs) (inject_Z (now_year host))) (Fin emi))
              (seq 1 d)) as Hrows.
  { unfold strategy, loan_branch. cbn [l_yearlyData effective_duration].
    fold P R. rewrite (trip_count_whole d _ Hy), for_loop_push_map.
    now rewrite Hpay. }
  eexists. split; [exact Hm|]. split.
  { unfold r, calculateInvestment. cbn [monthlyPayment]. now rewrite Hm. }
  split.
  { unfold r. change (yearlyData (calculateInvestment host LOAN inputs))
      with (l_yearlyData (strategy host LOAN inputs)).
    rewrite Hrows. apply map_nth_error. now apply nth_error_seq_1. }
  split.
  { rewrite amortize_closed, <- Ey, Anny. unfold emi. field. lra. }
  unfold loan_row. cbn [total invested interest].
  change (Fin 1 + Fin R)%num with (Fin (1 + R)).
  change (Js.of_nat (S k) * Fin 12)%num
    with (Fin (inject_Z (Z.of_nat (S k)) * 12)).
  rewrite Hpx, Hpy. fold x y.
  change (Fin P * (Fin x - Fin y))%num with (Fin (P * (x - y))).
  change (Fin x - Fin 1)%num with (Fin (x - 1)).
  unfold Js.div. known_nonzero (x - 1).
  cbn [Js.mul Js.add Js.sub Js.neg Js.Math_round]. unfold Js.of_Z.
  split; [reflexivity|]. split; [reflexivity|]. split.
  - do 2 f_equal. apply round_Q_comp. rewrite HM. reflexivity.
  - rewrite amortize_closed, <- Ex, Annx. unfold emi. field. lra.
Qed.

(** X11: the LOAN schedule is an amortization at the quoted payment.  At a
    positive rate and over a whole number [d] of years, with [emi] the
    payment [P R (1+R)^N / ((1+R)^N - 1)] in exact arithmetic, the returned
    [monthlyPayment] is [emi] to within one unit; the row of year [k + 1]
    shows, to within one unit, the balance that remains after [12 (k + 1)]
    monthly payments of [emi], each made after a month of interest, the
    principal paid so far and the interest paid so far; and after [12 d]
    such payments nothing remains. *)
Theorem loan_schedule_amortizes (host : Host) (inputs : InvestmentInputs)
    (d k : nat) :
  let P := dflt (initialInvestment inputs) 0 in
  let R := interestRate inputs / 12 / 100 in
  let r := calculateInvestment host LOAN inputs in
  0 < interestRate inputs ->
  timePeriodYears inputs == inject_Z (Z.of_nat d) ->
  (k < d)%nat ->
  exists (emi : Q) (row : YearData),
    emi == P * R * (1 + R) ^ Z.of_nat (d * 12) / ((1 + R) ^ Z.of_nat (d * 12) - 1) /\
    amortize P (1 + R) emi (d * 12) == 0 /\
    near (monthlyPayment r) emi /\
    nth_error (yearlyData r) k = Some row /\
    near (total row) (amortize P (1 + R) emi (S k * 12)) /\
    near (invested row) (P - amortize P (1 + R) emi (S k * 12)) /\
    near (interest row)
      (emi * inject_Z (Z.of_nat (S k * 12))
       - (P - amortize P (1 + R) emi (S k * 12))).
Proof.
  intros P R r Hrate Hy Hk.
  destruct (loan_schedule_exact host inputs d k Hrate Hy Hk)
    as (emi & rem & row & Hm & Hmp & Hn & Hrem & Ht & Hi & Hg & Hend).
  assert (0 < R) as HR.
  { unfold R. apply Qlt_shift_div_l; [reflexivity|].
    apply Qlt_shift_div_l; [reflexivity|]. lra. }
  assert (timePeriodYears inputs * 12 == inject_Z (Z.of_nat (d * 12))) as HN.
  { rewrite Hy, Nat2Z.inj_mul, inject_Z_mult. reflexivity. }
  destruct (loan_payment_positive_rate host P R _ (d * 12) HR ltac:(lia) HN)
    as (_ & _ & Hpay).
  assert (emi == P * R * (1 + R) ^ Z.of_nat (d * 12)
                 / ((1 + R) ^ Z.of_nat (d * 12) - 1)) as Eemi.
  { change (l_monthlyPayment (strategy host LOAN inputs))
      with (loan_payment host P R (timePeriodYears inputs * 12)) in Hm.
    rewrite Hpay in Hm. injection Hm as <-. reflexivity. }
  exists emi, row. split; [exact Eemi|]. split; [exact Hend|].
  split; [exact (near_of_eq _ _ _ Hmp (Qeq_refl _))|].
  split; [exact Hn|].
  split; [exact (near_of_eq _ _ _ Ht Hrem)|].
  split; [apply (near_of_eq _ _ _ Hi); now rewrite Hrem|].
  apply (near_of_eq _ _ _ Hg). now rewrite Hrem.
Qed.

Lemma loan_schedule_amortizes_witness :
  0 < interestRate loan_12_percent /\
  timePeriodYears loan_12_percent == inject_Z (Z.of_nat 1) /\ (0 < 1)%nat /\
  exists (emi : Q) (row : YearData),
    near (monthlyPayment (calculateInvestment host_2025 LOAN loan_12_percent)) emi /\
    nth_error (yearlyData (calculateInvestment host_2025 LOAN loan_12_percent)) 0
    = Some row /\
    near (total row) (amortize 12000 (1 + 12 / 12 / 100) emi 12).
Proof.
  assert (0 < interestRate loan_12_percent) as H1 by reflexivity.
  assert (timePeriodYears loan_12_percent == inject_Z (Z.of_nat 1)) as H2
    by reflexivity.
  split; [exact H1|]. split; [exact H2|]. split; [lia|].
  destruct (loan_schedule_amortizes host_2025 loan_12_percent 1 0 H1 H2 ltac:(lia))
    as (emi & row & _ & _ & Hm & Hn & Ht & _).
  exists emi, row. repeat split; assumption.
Defined.

(** ** Inflation *)

(** With inflation that is not negative the deflator of a year is at
    least 1. *)
Lemma inflation_factor_ge_1 (host : Host) (infl : Q) (i : nat) :
  0 <= infl ->
  exists x, Js.Math_pow host (Fin 1 + Fin infl / Fin 100)%num (Js.of_nat i) = Fin x
            /\ 1 <= x.
Proof.
  intros H.
  change (Fin 1 + Fin infl / Fin 100)%num with (Fin (1 + infl / 100)).
  assert (0 <= infl / 100) as H' by (apply Qle_shift_div_l; [reflexivity|lra]).
  destruct i as [|i].
  - exists 1. split; [reflexivity|apply Qle_refl].
  - unfold Js.of_nat, Js.of_Z.
    rewrite (Math_pow_whole host _ _ (S i)); [|lra|reflexivity|lia].
    eexists. split; [reflexivity|].
    rewrite Qpower_qpow by lra. apply qpow_ge_1. lra.
Qed.

(** Dividing by a deflator [>= 1] moves a rounded amount towards 0. *)
Lemma deflated_between (v : num) (x : Q) (t : Z) :
  1 <= x -> Js.Math_round v = Js.of_Z t ->
  exists w, Js.Math_round (v / Fin x)%num = Js.of_Z w /\
            ((0 <= t)%Z -> (0 <= w <= t)%Z) /\ ((t <= 0)%Z -> (t <= w <= 0)%Z).
Proof.
  intros Hx Hv. destruct (round_Fin_inv v _ Hv) as (q & -> & Ht).
  unfold inject_Z in Ht. injection Ht as ->. clear Hv.
  unfold Js.div. known_nonzero x. cbn [Js.Math_round].
  exists (Js.round_Q (q / x)). split; [reflexivity|].
  assert (0 < x) as Hx0 by lra.
  assert (q == q / x * x) as Hq by (field; lra).
  set (y := q / x) in *.
  destruct (Qlt_le_dec q 0) as [Hneg|Hpos].
  - assert (y <= 0) as H2.
    { destruct (Qlt_le_dec 0 y) as [Hc|Hc]; [|exact Hc].
      assert (0 < y * x) as Hc' by (apply Qmult_lt_0_compat; lra). lra. }
    assert (q <= y) as H1.
    { assert (0 <= (- y) * (x - 1)) as Hm by (apply Qmult_le_0_compat; lra).
      assert (y - q == (- y) * (x - 1)) as E by (rewrite Hq at 1; ring).
      lra. }
    pose proof (round_Q_le _ _ H1). pose proof (round_Q_le _ _ H2).
    pose proof (round_Q_le q 0 ltac:(lra)).
    rewrite round_Q_0 in *. split; intros; lia.
  - assert (0 <= y) as H1.
    { destruct (Qlt_le_dec y 0) as [Hc|Hc]; [|exact Hc].
      assert (0 < (- y) * x) as Hc' by (apply Qmult_lt_0_compat; lra).
      lra. }
    assert (y <= q) as H2.
    { assert (0 <= y * (x - 1)) as Hm by (apply Qmult_le_0_compat; lra).
      assert (q - y == y * (x - 1)) as E by (rewrite Hq at 1; ring).
      lra. }
    pose proof (round_Q_le _ _ H1). pose proof (round_Q_le _ _ H2).
    pose proof (round_Q_le 0 q ltac:(lra)).
    rewrite round_Q_0 in *. split; intros; lia.
Qed.

(** X12: with an inflation rate that is not negative, no row of the
    schedule shows an inflation-adjusted value beyond its total: whenever
    the total of a row is a whole number, the [realValue] of the row is a
    whole number between 0 and that total. *)
Theorem real_value_within_total (host : Host) (mode : CalculatorMode)
    (inputs : InvestmentInputs) :
  let r := calculateInvestment host mode inputs in
  0 <= dflt (inflationRate inputs) 0 ->
  Forall (fun row =>
            forall t : Z, total row = Js.of_Z t ->
              exists w : Z, realValue row = Js.of_Z w /\
                ((0 <= t)%Z -> (0 <= w <= t)%Z) /\
                ((t <= 0)%Z -> (t <= w <= 0)%Z))
    (yearlyData r).
Proof.
  intros r Hinfl.
  assert (forall (i : nat) (v : num) (t : Z),
            Js.Math_round v = Js.of_Z t ->
            exists w : Z,
              Js.Math_round
                (v / Js.Math_pow host
                       (Fin 1 + Fin (dflt (inflationRate inputs) 0) / Fin 100)
                       (Js.of_nat i))%num = Js.of_Z w /\
              ((0 <= t)%Z -> (0 <= w <= t)%Z) /\
              ((t <= 0)%Z -> (t <= w <= 0)%Z)) as Hreal.
  { intros i v t Ht.
    destruct (inflation_factor_ge_1 host _ i Hinfl) as (x & -> & Hx).
    now apply deflated_between. }
  unfold r.
  change (yearlyData (calculateInvestment host mode inputs))
    with (l_yearlyData (strategy host mode inputs)).
  unfold strategy.
  destruct mode;
    cbn [l_yearlyData sip_branch goal_branch compound_branch loan_branch
         stock_branch property_branch roi_branch tax_branch].
  - apply sip_rows_Forall; [|constructor]. intros. now apply Hreal.
  - apply for_loop_push_Forall. intros. now apply Hreal.
  - apply for_loop_push_Forall. intros. now apply Hreal.
  - apply property_rows_Forall; [|constructor]. intros. now apply Hreal.
  - apply for_loop_push_Forall. intros i t Ht.
    cbn [realValue]. exists 0%Z. split; [reflexivity|]. lia.
  - apply for_loop_push_Forall. intros. now apply Hreal.
  - apply for_loop_push_Forall. intros. now apply Hreal.
  - constructor; [|constructor]. intros t Ht. cbn [total realValue] in *.
    exists t. split; [exact Ht|]. lia.
  - apply goal_rows_Forall; [|constructor]. intros. now apply Hreal.
  - apply sip_rows_Forall; [|constructor]. intros. now apply Hreal.
Qed.

Lemma real_value_within_total_witness :
  0 <= dflt (inflationRate sip_inflated) 0 /\
  Forall (fun row =>
            forall t : Z, total row = Js.of_Z t ->
              exists w : Z, realValue row = Js.of_Z w /\
                ((0 <= t)%Z -> (0 <= w <= t)%Z) /\
                ((t <= 0)%Z -> (t <= w <= 0)%Z))
    (yearlyData (calculateInvestment host_2025 SIP sip_inflated)).
Proof.
  assert (0 <= dflt (inflationRate sip_inflated) 0) as H by (vm_compute; discriminate).
  split; [exact H|].
  exact (real_value_within_total host_2025 SIP sip_inflated H).
Defined.

(** ** SIP without contributions *)

Lemma qpow_comp (g g' : Q) (k : nat) : g == g' -> qpow g k == qpow g' k.
Proof.
  intros E. induction k as [|k IH]; [reflexivity|].
  cbn [qpow]. now rewrite IH, E.
Qed.







(** ** SIP never loses *)

Lemma sip_loop_covers (host : Host) (mr su infl sy P c : Q) (k : nat) :
  0 <= mr -> 0 <= P -> 0 <= c ->
  let a := for_loop k (sip_month host mr su infl sy)
             {| currentBalance := P; currentInvested := P;
                currentMonthlyContribution := c; rows := [] |} in
  exists b v c',
    currentBalance a = Fin b /\ currentInvested a = Fin v /\
    currentMonthlyContribution a = Fin c' /\
    0 <= v /\ v <= b /\ 0 <= c' /\ Forall row_covers (rows a).
Proof.
  intros Hmr HP Hc. cbv zeta.
  induction k as [|k (b & v & c' & Hb & Hv & Hc' & Ev & Eb & Ec & Hrows)].
  - exists P, P, c. cbn [for_loop currentBalance currentInvested
                         currentMonthlyContribution rows].
    repeat split; try reflexivity; try assumption; [apply Qle_refl|constructor].
  - cbn [for_loop].
    destruct (sip_month_fin host mr su infl sy (S k) _ b v c' Hb Hv Hc')
      as (Hb' & Hv' & Hc'' & Hr').
    cbv zeta in Hb', Hv', Hc'', Hr'. rewrite Hb', Hv', Hc'', Hr'.
    assert (0 <= b * mr) as Hbm by (apply Qmult_le_0_compat; lra).
    assert (v + c' <= b * (1 + mr) + c') as Hcov.
    { assert (b * (1 + mr) == b + b * mr) as E by ring. lra. }
    do 3 eexists.
    split; [reflexivity|]. split; [reflexivity|]. split; [reflexivity|].
    split; [lra|]. split; [exact Hcov|]. split.
    { destruct (_ && Js.is_pos su) eqn:E; [|exact Ec].
      apply andb_true_iff in E as [_ E]. apply is_pos_true in E.
      apply Qmult_le_0_compat; [exact Ec|].
      assert (0 <= su / 100) by (apply Qle_shift_div_l; [reflexivity|lra]).
      lra. }
    destruct (S k mod 12 =? 0)%nat; [|exact Hrows].
    apply Forall_app. split; [exact Hrows|]. constructor; [|constructor].
    unfold row_covers, month_row. cbn [invested total interest].
    change (Fin (b * (1 + mr) + c') - Fin (v + c'))%num
      with (Fin (b * (1 + mr) + c' - (v + c'))).
    cbn [Js.Math_round].
    exists (Js.round_Q (v + c')), (Js.round_Q (b * (1 + mr) + c')),
      (Js.round_Q (b * (1 + mr) + c' - (v + c'))).
    split; [reflexivity|]. split; [reflexivity|]. split; [reflexivity|].
    pose proof (round_Q_nonneg (v + c') ltac:(lra)).
    pose proof (round_Q_le _ _ Hcov).
    pose proof (round_Q_nonneg (b * (1 + mr) + c' - (v + c')) ltac:(lra)).
    lia.
Qed.

(** X14: a SIP never shows a loss.  In SIP and RETIREMENT, with an
    initial investment and a monthly contribution that are not negative,
    the amount invested, the final value and the interest are whole
    numbers with [0 <= totalInvested <= finalValue] and
    [0 <= totalInterest], and every row of the schedule has whole figures
    with a total that covers the amount paid in and an interest that is
    not negative. *)
Theorem sip_never_loses (host : Host) (mode : CalculatorMode)
    (inputs : InvestmentInputs) :
  let r := calculateInvestment host mode inputs in
  mode = SIP \/ mode = RETIREMENT ->
  0 <= dflt (initialInvestment inputs) 0 ->
  0 <= dflt (monthlyContribution inputs) 0 ->
  (exists i f t : Z,
     totalInvested r = Js.of_Z i /\ finalValue r = Js.of_Z f /\
     totalInterest r = Js.of_Z t /\ (0 <= i <= f)%Z /\ (0 <= t)%Z) /\
  Forall row_covers (yearlyData r).
Proof.
  intros r Hmode HP Hc.
  pose proof (monthly_rate_nonneg inputs) as Hmr.
  unfold r, calculateInvestment.
  cbn [totalInvested finalValue totalInterest yearlyData].
  rewrite (sip_strategy host mode inputs Hmode). unfold sip_branch.
  cbn [l_finalValue l_totalInvested l_yearlyData].
  destruct (sip_loop_covers host (effective_rate inputs / 100 / 12)
              (dflt (stepUpRate inputs) 0) (dflt (inflationRate inputs) 0)
              (dflt (startYear inputs) (inject_Z (now_year host)))
              (dflt (initialInvestment inputs) 0)
              (dflt (monthlyContribution inputs) 0)
              (trip_count (effective_duration mode inputs * 12)) Hmr HP Hc)
    as (b & v & c' & -> & -> & _ & Ev & Eb & _ & Hrows).
  split; [|exact Hrows].
  change (Fin b - Fin v)%num with (Fin (b - v)). cbn [Js.Math_round].
  exists (Js.round_Q v), (Js.round_Q b), (Js.round_Q (b - v)).
  split; [reflexivity|]. split; [reflexivity|]. split; [reflexivity|].
  pose proof (round_Q_nonneg v Ev).
  pose proof (round_Q_le _ _ Eb).
  pose proof (round_Q_nonneg (b - v) ltac:(lra)).
  lia.
Qed.

Lemma sip_never_loses_witness :
  (SIP = SIP \/ SIP = RETIREMENT) /\
  0 <= dflt (initialInvestment sip_stepped) 0 /\
  0 <= dflt (monthlyContribution sip_stepped) 0 /\
  Forall row_covers (yearlyData (calculateInvestment host_2025 SIP sip_stepped)).
Proof.
  assert (0 <= dflt (initialInvestment sip_stepped) 0) as H1
    by (vm_compute; discriminate).
  assert (0 <= dflt (monthlyContribution sip_stepped) 0) as H2
    by (vm_compute; discriminate).
  split; [now left|]. split; [exact H1|]. split; [exact H2|].
  exact (proj2 (sip_never_loses host_2025 SIP sip_stepped (or_introl eq_refl) H1 H2)).
Defined.

(** ** PROPERTY, STOCK and ROI *)

(** The PROPERTY loop after [k] years: the value has compounded [k] times,
    the net rent has accrued [k] times, and the row of year [j + 1] shows
    the figures of that year. *)
Lemma property_loop_closed (host : Host) (p ri me ar infl sy : Q) (k : nat) :
  let g := 1 + ar / 100 in
  let a := for_loop k (property_year host p ri me ar infl sy)
             {| currentPropValue := p; accumulatedNetRent := 0; prop_rows := [] |} in
  exists v w,
    currentPropValue a = Fin v /\ accumulatedNetRent a = Fin w /\
    v == p * qpow g k /\ w == inject_Z (Z.of_nat k) * (ri - me) /\
    length (prop_rows a) = k /\
    forall j, (j < k)%nat ->
      exists row, nth_error (prop_rows a) j = Some row /\
        invested row = Fin p /\
        total row
        = Js.of_Z (Js.round_Q (p * qpow g (S j)
                               + inject_Z (Z.of_nat (S j)) * (ri - me))) /\
        interest row
        = Js.of_Z (Js.round_Q (p * qpow g (S j) - p
                               + inject_Z (Z.of_nat (S j)) * (ri - me))).
Proof.
  cbv zeta. induction k as [|k (v & w & Hv & Hw & Ev & Ew & Hlen & Hrows)].
  - exists p, 0. cbn [for_loop currentPropValue accumulatedNetRent prop_rows qpow].
    repeat split; try reflexivity; [ring|]. intros j Hj. lia.
  - cbn [for_loop]. rewrite property_year_rows.
    set (a := for_loop k _ _) in *.
    assert (currentPropValue (property_year host p ri me ar infl sy (S k) a)
            = Fin (v * (1 + ar / 100))) as Hv'.
    { unfold property_year. cbn [currentPropValue]. now rewrite Hv. }
    assert (accumulatedNetRent (property_year host p ri me ar infl sy (S k) a)
            = Fin (w + (ri - me))) as Hw'.
    { unfold property_year. cbn [accumulatedNetRent]. now rewrite Hw. }
    rewrite Hv', Hw'.
    assert (v * (1 + ar / 100) == p * qpow (1 + ar / 100) (S k)) as Ev'.
    { cbn [qpow]. rewrite Ev. ring. }
    assert (w + (ri - me) == inject_Z (Z.of_nat (S k)) * (ri - me)) as Ew'.
    { rewrite Ew, Nat2Z.inj_succ. unfold Z.succ. rewrite inject_Z_plus.
      change (inject_Z 1) with 1. ring. }
    exists (v * (1 + ar / 100)), (w + (ri - me)).
    split; [reflexivity|]. split; [reflexivity|].
    split; [exact Ev'|]. split; [exact Ew'|].
    split; [rewrite length_app, Hlen; cbn [length]; lia|].
    intros j Hj. destruct (Nat.eq_dec j k) as [->|Hne].
    + eexists. split.
      { rewrite nth_error_app2 by lia. rewrite Hlen, Nat.sub_diag. reflexivity. }
      cbn [invested total interest]. split; [reflexivity|].
      change (Fin (v * (1 + ar / 100)) + Fin (w + (ri - me)))%num
        with (Fin (v * (1 + ar / 100) + (w + (ri - me)))).
      change (Fin (v * (1 + ar / 100)) - Fin p + Fin (w + (ri - me)))%num
        with (Fin (v * (1 + ar / 100) - p + (w + (ri - me)))).
      cbn [Js.Math_round]. unfold Js.of_Z.
      split; do 2 f_equal; apply round_Q_comp; rewrite Ev', Ew'; reflexivity.
    + destruct (Hrows j ltac:(lia)) as (row & Hn & Hrow).
      exists row. split; [|exact Hrow].
      rewrite nth_error_app1 by lia. exact Hn.
Qed.

(** In exact arithmetic: the figures of PROPERTY over a whole number of
    years. *)
Lemma property_exact (host : Host) (inputs : InvestmentInputs) (d : nat) :
  let p := or_dflt (propertyPrice inputs) 0 in
  let g := 1 + or_dflt (appreciationRate inputs) 0 / 100 in
  let net := or_dflt (rentalIncome inputs) 0 * 12
             - or_dflt (monthlyExpenses inputs) 0 * 12 in
  let r := calculateInvestment host PROPERTY inputs in
  timePeriodYears inputs == inject_Z (Z.of_nat d) ->
  totalInvested r = Js.of_Z (Js.round_Q p) /\
  finalValue r = Js.of_Z (Js.round_Q (p * qpow g d + inject_Z (Z.of_nat d) * net)) /\
  totalInterest r
  = Js.of_Z (Js.round_Q (p * qpow g d - p + inject_Z (Z.of_nat d) * net)) /\
  length (yearlyData r) = d /\
  forall k, (k < d)%nat ->
    exists row, nth_error (yearlyData r) k = Some row /\
      invested row = Fin p /\
      total row
      = Js.of_Z (Js.round_Q (p * qpow g (S k) + inject_Z (Z.of_nat (S k)) * net)) /\
      interest row
      = Js.of_Z (Js.round_Q (p * qpow g (S k) - p
                             + inject_Z (Z.of_nat (S k)) * net)).
Proof.
  intros p g net r Hy.
  unfold r, calculateInvestment, strategy, property_branch.
  cbn [totalInvested finalValue totalInterest yearlyData l_totalInvested
       l_finalValue l_yearlyData effective_duration].
  rewrite (trip_count_whole d _ Hy).
  fold p.
  destruct (property_loop_closed host p (or_dflt (rentalIncome inputs) 0 * 12)
              (or_dflt (monthlyExpenses inputs) 0 * 12)
              (or_dflt (appreciationRate inputs) 0)
              (dflt (inflationRate inputs) 0)
              (dflt (startYear inputs) (inject_Z (now_year host))) d)
    as (v & w & Hv & Hw & Ev & Ew & Hlen & Hrows).
  cbv zeta in Hv, Hw, Ev, Ew, Hlen, Hrows. fold g net in Ev, Ew, Hrows.
  rewrite Hv, Hw.
  split; [reflexivity|].
  change (Fin v + Fin w)%num with (Fin (v + w)).
  change (Fin (v + w) - Fin p)%num with (Fin (v + w - p)).
  cbn [Js.Math_round]. unfold Js.of_Z. split.
  { do 2 f_equal. apply round_Q_comp. rewrite Ev, Ew. reflexivity. }
  split.
  { do 2 f_equal. apply round_Q_comp. rewrite Ev, Ew. ring. }
  split; [exact Hlen|exact Hrows].
Qed.

(** X15: PROPERTY mode in closed form.  Over a whole number [d] of years
    the property's price compounds once a year at the appreciation rate
    while the rent, net of the expenses, accrues without compounding: the
    final value is, to within one unit,
    [price (1 + a/100)^d + 12 d (rent - expenses)], and the row of year
    [k + 1] shows, to within one unit, the same figure at [k + 1] years.
    The price itself is carried as it is. *)
Theorem property_closed_form (host : Host) (inputs : InvestmentInputs) (d : nat) :
  let p := or_dflt (propertyPrice inputs) 0 in
  let g := 1 + or_dflt (appreciationRate inputs) 0 / 100 in
  let net := or_dflt (rentalIncome inputs) 0 * 12
             - or_dflt (monthlyExpenses inputs) 0 * 12 in
  let r := calculateInvestment host PROPERTY inputs in
  timePeriodYears inputs == inject_Z (Z.of_nat d) ->
  totalInvested r = Js.of_Z (Js.round_Q p) /\
  near (finalValue r) (p * qpow g d + inject_Z (Z.of_nat d) * net) /\
  near (totalInterest r) (p * qpow g d - p + inject_Z (Z.of_nat d) * net) /\
  length (yearlyData r) = d /\
  forall k, (k < d)%nat ->
    exists row, nth_error (yearlyData r) k = Some row /\
      invested row = Fin p /\
      near (total row) (p * qpow g (S k) + inject_Z (Z.of_nat (S k)) * net) /\
      near (interest row)
        (p * qpow g (S k) - p + inject_Z (Z.of_nat (S k)) * net).
Proof.
  intros p g net r Hy.
  destruct (property_exact host inputs d Hy) as (Hv & Hf & Hi & Hlen & Hrows).
  split; [exact Hv|].
  split; [exact (near_of_eq _ _ _ Hf (Qeq_refl _))|].
  split; [exact (near_of_eq _ _ _ Hi (Qeq_refl _))|].
  split; [exact Hlen|].
  intros k Hk. destruct (Hrows k Hk) as (row & Hn & Hp & Ht & Hg).
  exists row. split; [exact Hn|]. split; [exact Hp|]. split.
  - exact (near_of_eq _ _ _ Ht (Qeq_refl _)).
  - exact (near_of_eq _ _ _ Hg (Qeq_refl _)).
Qed.

Lemma property_closed_form_witness :
  timePeriodYears property_let == inject_Z (Z.of_nat 2) /\
  near (finalValue (calculateInvestment host_2025 PROPERTY property_let)) 130600 /\
  near (totalInterest (calculateInvestment host_2025 PROPERTY property_let)) 30600.
Proof.
  assert (timePeriodYears property_let == inject_Z (Z.of_nat 2)) as H by reflexivity.
  split; [exact H|].
  destruct (property_closed_form host_2025 property_let 2 H)
    as (_ & (f & Hf & Lf & Uf) & (t & Ht & Lt & Ut) & _).
  split.
  - exists f. split; [exact Hf|].
    assert (or_dflt (propertyPrice property_let) 0
            * qpow (1 + or_dflt (appreciationRate property_let) 0 / 100) 2
            + inject_Z (Z.of_nat 2)
              * (or_dflt (rentalIncome property_let) 0 * 12
                 - or_dflt (monthlyExpenses property_let) 0 * 12) == 130600) as E
      by reflexivity.
    rewrite E in Lf, Uf. split; assumption.
  - exists t. split; [exact Ht|].
    assert (or_dflt (propertyPrice property_let) 0
            * qpow (1 + or_dflt (appreciationRate property_let) 0 / 100) 2
            - or_dflt (propertyPrice property_let) 0
            + inject_Z (Z.of_nat 2)
              * (or_dflt (rentalIncome property_let) 0 * 12
                 - or_dflt (monthlyExpenses property_let) 0 * 12) == 30600) as E
      by reflexivity.
    rewrite E in Lt, Ut. split; assumption.
Defined.

Lemma whole_years_positive (q : Q) (d k : nat) :
  q == inject_Z (Z.of_nat d) -> (k < d)%nat -> 0 < q.
Proof.
  intros E H. rewrite E. change 0 with (inject_Z 0). rewrite <- Zlt_Qlt. lia.
Qed.

(** In exact arithmetic: the totals and the rows of STOCK and ROI over a
    whole number of years. *)
Lemma stock_and_roi_exact (host : Host) (mode : CalculatorMode)
    (inputs : InvestmentInputs) (d : nat) :
  let st := strategy host mode inputs in
  let r := calculateInvestment host mode inputs in
  let years := timePeriodYears inputs in
  mode = STOCK \/ mode = ROI ->
  years == inject_Z (Z.of_nat d) ->
  exists I F : Q,
    l_totalInvested st = Fin I /\ l_finalValue st = Fin F /\
    (mode = STOCK ->
     I == or_dflt (quantity inputs) 0 * or_dflt (buyPrice inputs) 0 /\
     F == or_dflt (quantity inputs) 0 * or_dflt (sellPrice inputs) 0
          + I * (or_dflt (dividendYield inputs) 0 / 100) * years) /\
    (mode = ROI ->
     I = dflt (initialInvestment inputs) 0 /\
     F = or_dflt (sellPrice inputs) (dflt (initialInvestment inputs) 0)) /\
    length (yearlyData r) = d /\
    forall k, (k < d)%nat ->
      exists row, nth_error (yearlyData r) k = Some row /\
        invested row = Fin I /\
        total row
        = Js.of_Z (Js.round_Q (I + (F - I) * (inject_Z (Z.of_nat (S k)) / years))) /\
        interest row
        = Js.of_Z (Js.round_Q ((F - I) * (inject_Z (Z.of_nat (S k)) / years))).
Proof.
  intros st r years Hmode Hy.
  unfold r.
  change (yearlyData (calculateInvestment host mode inputs))
    with (l_yearlyData (strategy host mode inputs)).
  unfold st, strategy.
  destruct Hmode as [-> | ->];
    cbn [l_totalInvested l_finalValue l_yearlyData stock_branch roi_branch
         effective_duration];
    fold years; rewrite (trip_count_whole d _ Hy), for_loop_push_map.
  - set (qty := or_dflt (quantity inputs) 0).
    set (b := or_dflt (buyPrice inputs) 0).
    set (s := or_dflt (sellPrice inputs) 0).
    set (y := or_dflt (dividendYield inputs) 0).
    exists (qty * b), (qty * b + (s - b) * qty + b * qty * (y / 100) * years).
    split; [reflexivity|]. split; [reflexivity|].
    split; [intros _; split; [reflexivity|ring]|].
    split; [intros [=]|].
    split; [now rewrite length_map, length_seq|].
    intros k Hk. pose proof (whole_years_positive _ _ _ Hy Hk) as Hpos.
    eexists. split; [apply map_nth_error; now apply nth_error_seq_1|].
    unfold stock_row. cbn [invested total interest].
    split; [reflexivity|].
    change (Fin y / Fin 100)%num with (Fin (y / 100)).
    unfold Js.of_nat, Js.of_Z, Js.div. known_nonzero years.
    cbn [Js.mul Js.add Js.sub Js.neg Js.Math_round]. unfold Js.of_Z.
    split; do 2 f_equal; apply round_Q_comp; field; lra.
  - set (P := dflt (initialInvestment inputs) 0).
    set (s := or_dflt (sellPrice inputs) P).
    exists P, s.
    split; [reflexivity|]. split; [reflexivity|].
    split; [intros [=]|].
    split; [intros _; split; reflexivity|].
    split; [now rewrite length_map, length_seq|].
    intros k Hk. pose proof (whole_years_positive _ _ _ Hy Hk) as Hpos.
    eexists. split; [apply map_nth_error; now apply nth_error_seq_1|].
    unfold roi_row. cbn [invested total interest].
    split; [reflexivity|].
    unfold Js.of_nat, Js.of_Z, Js.div. known_nonzero years.
    cbn [Js.mul Js.add Js.sub Js.neg Js.Math_round]. unfold Js.of_Z.
    split; do 2 f_equal; apply round_Q_comp; field; lra.
Qed.

(** X16: the schedules of STOCK and ROI are straight lines.  With [I] the
    investment and [F] the final value in exact arithmetic (in STOCK the
    cost of the purchase and the proceeds of the sale plus simple
    dividends on that cost; in ROI the initial investment and the sale
    price, or the investment when none is given), the returned
    [totalInvested] and [finalValue] are [I] and [F] to within one unit,
    and over a whole number [d] of years the row of year [k + 1] carries
    the unrounded investment and, to within one unit, [I] plus the share
    [(k + 1) / d] of the gain [F - I]. *)
Theorem stock_and_roi_are_linear (host : Host) (mode : CalculatorMode)
    (inputs : InvestmentInputs) (d : nat) :
  let r := calculateInvestment host mode inputs in
  let years := timePeriodYears inputs in
  mode = STOCK \/ mode = ROI ->
  years == inject_Z (Z.of_nat d) ->
  exists I F : Q,
    (mode = STOCK ->
     I == or_dflt (quantity inputs) 0 * or_dflt (buyPrice inputs) 0 /\
     F == or_dflt (quantity inputs) 0 * or_dflt (sellPrice inputs) 0
          + I * (or_dflt (dividendYield inputs) 0 / 100) * years) /\
    (mode = ROI ->
     I = dflt (initialInvestment inputs) 0 /\
     F = or_dflt (sellPrice inputs) (dflt (initialInvestment inputs) 0)) /\
    near (totalInvested r) I /\ near (finalValue r) F /\
    length (yearlyData r) = d /\
    forall k, (k < d)%nat ->
      exists row, nth_error (yearlyData r) k = Some row /\
        Js.Math_round (invested row) = totalInvested r /\
        near (total row) (I + (F - I) * (inject_Z (Z.of_nat (S k)) / years)) /\
        near (interest row) ((F - I) * (inject_Z (Z.of_nat (S k)) / years)).
Proof.
  intros r years Hmode Hy.
  destruct (stock_and_roi_exact host mode inputs d Hmode Hy)
    as (I & F & HI & HF & Hs & Hr & Hlen & Hrows).
  exists I, F. split; [exact Hs|]. split; [exact Hr|].
  assert (totalInvested r = Js.Math_round (Fin I)) as EI.
  { unfold r, calculateInvestment. cbn [totalInvested]. now rewrite HI. }
  assert (finalValue r = Js.Math_round (Fin F)) as EF.
  { unfold r, calculateInvestment. cbn [finalValue]. now rewrite HF. }
  split; [rewrite EI; apply round_Q_near; reflexivity|].
  split; [rewrite EF; apply round_Q_near; reflexivity|].
  split; [exact Hlen|].
  intros k Hk. destruct (Hrows k Hk) as (row & Hn & Hp & Ht & Hg).
  exists row. split; [exact Hn|]. split; [now rewrite Hp, EI|]. split.
  - exact (near_of_eq _ _ _ Ht (Qeq_refl _)).
  - exact (near_of_eq _ _ _ Hg (Qeq_refl _)).
Qed.

Lemma stock_and_roi_are_linear_witness :
  (STOCK = STOCK \/ STOCK = ROI) /\
  timePeriodYears stock_held == inject_Z (Z.of_nat 2) /\
  near (totalInvested (calculateInvestment host_2025 STOCK stock_held)) 1000 /\
  near (finalValue (calculateInvestment host_2025 STOCK stock_held)) 1540 /\
  length (yearlyData (calculateInvestment host_2025 STOCK stock_held)) = 2%nat.
Proof.
  assert (timePeriodYears stock_held == inject_Z (Z.of_nat 2)) as H by reflexivity.
  split; [now left|]. split; [exact H|].
  destruct (stock_and_roi_are_linear host_2025 STOCK stock_held 2 (or_introl eq_refl) H)
    as (I & F & Hs & _ & (a & Ha & La & Ua) & (b & Hb & Lb & Ub) & Hlen & _).
  destruct (Hs eq_refl) as [EI EF].
  assert (I == 1000) as EI' by (rewrite EI; reflexivity).
  assert (F == 1540) as EF' by (rewrite EF, EI'; reflexivity).
  split; [exists a; rewrite EI' in La, Ua; repeat split; assumption|].
  split; [exists b; rewrite EF' in Lb, Ub; repeat split; assumption|exact Hlen].
Defined.

(** Over one year the compound annual growth rate is the simple return. *)
Lemma cagr_one_year (host : Host) (duration I F : Q) :
  duration == 1 -> 0 < I -> 0 < F ->
  exists c, cagr_of host duration (Fin I) (Fin F) = Fin c /\
            c == (F - I) / I * 100.
Proof.
  intros Hd HI HF. unfold cagr_of.
  change (Js.gt (Fin I) (Fin 0)) with (Js.is_pos I).
  change (Js.gt (Fin F) (Fin 0)) with (Js.is_pos F).
  change (Js.gt (Fin duration) (Fin 0)) with (Js.is_pos duration).
  known_positive I. known_positive F. known_positive duration. cbn [andb].
  unfold Js.div. known_nonzero I. known_nonzero duration.
  assert (0 < F / I) as Hq by (apply Qlt_shift_div_l; lra).
  rewrite (Math_pow_whole host (F / I) (1 / duration) 1 Hq);
    [|rewrite Hd; reflexivity|lia].
  eexists. split; [reflexivity|].
  rewrite Qpower_qpow by exact Hq. cbn [qpow]. field. lra.
Qed.

(** Over one year the compound annual growth rate is the simple return,
    written as the growth factor less one. *)
Lemma cagr_one_year_factor (host : Host) (duration I F : Q) :
  duration == 1 -> 0 < I -> 0 < F ->
  exists c, cagr_of host duration (Fin I) (Fin F) = Fin c /\
            c == (F / I - 1) * 100.
Proof.
  intros Hd HI HF.
  destruct (cagr_one_year host duration I F Hd HI HF) as (c & Hc & Ec).
  exists c. split; [exact Hc|]. rewrite Ec. field. lra.
Qed.

(** X17: the return on investment.  [roiPercentage] is 0 in every mode but
    ROI, and in ROI when nothing was invested; for a positive investment it
    is the profit as a percentage of the investment, the profit being the
    sale price, or the investment when none is given, less the investment.
    Over exactly one year, with a positive sale price, the reported [cagr]
    is the growth factor less one, as a percentage: the same return,
    computed along another route. *)
Theorem roi_is_simple_return (host : Host) (inputs : InvestmentInputs) :
  let P := dflt (initialInvestment inputs) 0 in
  let s := or_dflt (sellPrice inputs) P in
  let r := calculateInvestment host ROI inputs in
  (forall mode, mode <> ROI ->
     roiPercentage (calculateInvestment host mode inputs) = Fin 0) /\
  (P <= 0 -> roiPercentage r = Fin 0) /\
  (0 < P ->
   exists rho, roiPercentage r = Fin rho /\ rho == (s - P) / P * 100 /\
     (0 < s -> timePeriodYears inputs == 1 ->
      exists c, cagr r = Fin c /\ c == (s / P - 1) * 100)).
Proof.
  intros P s r. split; [|split].
  - intros mode Hm. unfold calculateInvestment. cbn [roiPercentage].
    unfold strategy. now destruct mode.
  - intros HP. unfold r, calculateInvestment. cbn [roiPercentage].
    unfold strategy, roi_branch. cbn [l_roiPercentage]. fold P.
    change (Js.gt (Fin P) (Fin 0)) with (Js.is_pos P).
    assert (Js.is_pos P = false) as -> by (apply is_pos_false; lra).
    reflexivity.
  - intros HP. unfold r, calculateInvestment. cbn [roiPercentage cagr].
    unfold strategy, roi_branch.
    cbn [l_roiPercentage l_totalInvested l_finalValue effective_duration].
    fold P. fold s.
    change (Js.gt (Fin P) (Fin 0)) with (Js.is_pos P).
    known_positive P.
    change (Fin s - Fin P)%num with (Fin (s - P)).
    unfold Js.div at 1. known_nonzero P.
    eexists. split; [reflexivity|]. split; [reflexivity|].
    intros Hs Hy.
    destruct (cagr_one_year_factor host _ P s Hy HP Hs) as (c & -> & Hc).
    exists c. split; [reflexivity|exact Hc].
Qed.

Lemma roi_is_simple_return_witness :
  roiPercentage (calculateInvestment host_2025 LUMPSUM roi_quarter) = Fin 0 /\
  0 < dflt (initialInvestment roi_quarter) 0 /\
  exists rho c,
    roiPercentage (calculateInvestment host_2025 ROI roi_quarter) = Fin rho /\
    cagr (calculateInvestment host_2025 ROI roi_quarter) = Fin c /\
    rho == 150 /\ c == 150.
Proof.
  destruct (roi_is_simple_return host_2025 roi_quarter) as (Hother & _ & Hpos).
  split; [apply Hother; discriminate|].
  assert (0 < dflt (initialInvestment roi_quarter) 0) as H by reflexivity.
  split; [exact H|].
  destruct (Hpos H) as (rho & Hr & Hv & Hc).
  destruct (Hc ltac:(reflexivity) ltac:(reflexivity)) as (c & Ec & Hcr).
  exists rho, c. split; [exact Hr|]. split; [exact Ec|].
  split; [rewrite Hv; reflexivity|rewrite Hcr; reflexivity].
Defined.

(** ** The summary figures *)

(** X18: the rule of 72.  In every mode, LOAN and TAX included, the
    reported [doublingTime] depends on the interest rate net of the expense
    ratio alone: it is 0 when the net rate is not positive, and otherwise
    72 divided by the net rate. *)
Theorem doubling_time_rule_of_72 (host : Host) (mode : CalculatorMode)
    (inputs : InvestmentInputs) :
  let net := interestRate inputs - dflt (expenseRatio inputs) 0 in
  let r := calculateInvestment host mode inputs in
  (net <= 0 -> doublingTime r = Fin 0) /\
  (0 < net -> exists t, doublingTime r = Fin t /\ t * net == 72).
Proof.
  intros net r. unfold r, calculateInvestment. cbn [doublingTime].
  unfold doubling_of, effective_rate.
  assert (q_or (dflt (expenseRatio inputs) 0) 0 == dflt (expenseRatio inputs) 0) as Hq.
  { unfold q_or. destruct (Js.is_zero _) eqn:E; [|reflexivity].
    apply is_zero_true in E. now rewrite E. }
  set (e := q_or (dflt (expenseRatio inputs) 0) 0) in *.
  change (Js.gt (Fin (Qmax 0 (interestRate inputs - e))) (Fin 0))
    with (Js.is_pos (Qmax 0 (interestRate inputs - e))).
  split.
  - intros Hn.
    assert (Qmax 0 (interestRate inputs - e) == 0) as Hm
      by (apply Q.max_l; unfold net in Hn; lra).
    assert (Js.is_pos (Qmax 0 (interestRate inputs - e)) = false) as ->
      by (apply is_pos_false; lra).
    reflexivity.
  - intros Hn.
    assert (Qmax 0 (interestRate inputs - e) == interestRate inputs - e) as Hm
      by (apply Q.max_r; unfold net in Hn; lra).
    assert (0 < Qmax 0 (interestRate inputs - e)) as Hp
      by (rewrite Hm; unfold net in Hn; lra).
    known_positive (Qmax 0 (interestRate inputs - e)).
    unfold Js.div. known_nonzero (Qmax 0 (interestRate inputs - e)).
    cbn [Js.isFinite]. eexists. split; [reflexivity|].
    assert (net == Qmax 0 (interestRate inputs - e)) as En
      by (rewrite Hm, Hq; reflexivity).
    set (m := Qmax 0 (interestRate inputs - e)) in *.
    rewrite En. field. lra.
Qed.

Lemma doubling_time_rule_of_72_witness :
  0 < interestRate sip_level - dflt (expenseRatio sip_level) 0 /\
  exists t, doublingTime (calculateInvestment host_2025 LOAN sip_level) = Fin t /\
            t == 6.
Proof.
  assert (0 < interestRate sip_level - dflt (expenseRatio sip_level) 0) as H
    by reflexivity.
  split; [exact H|].
  destruct (doubling_time_rule_of_72 host_2025 LOAN sip_level) as [_ Hpos].
  destruct (Hpos H) as (t & Ht & Ev).
  exists t. split; [exact Ht|].
  assert (t * 12 == 72) as E by (rewrite <- Ev; reflexivity).
  lra.
Defined.

(** X19: the tax never takes more than the gain.  With a tax rate between
    0 and 100, whenever the final value and the amount invested are finite
    the value after tax is a whole number that does not exceed the final
    value, and that does not fall below the amount invested unless the
    final value itself does. *)
Theorem post_tax_keeps_the_principal (host : Host) (mode : CalculatorMode)
    (inputs : InvestmentInputs) (f i : Z) :
  let r := calculateInvestment host mode inputs in
  0 <= dflt (taxRate inputs) 0 <= 100 ->
  finalValue r = Js.of_Z f -> totalInvested r = Js.of_Z i ->
  exists p : Z, postTaxValue r = Js.of_Z p /\ (p <= f)%Z /\
                ((i <= f)%Z -> (i <= p)%Z).
Proof.
  intros r [Hlo Hhi] Hf Hi. unfold r, calculateInvestment in *.
  cbn [finalValue totalInvested postTaxValue] in *.
  destruct (of_Z_round_inv _ _ Hf) as (F & EF & ->).
  destruct (of_Z_round_inv _ _ Hi) as (I & EI & ->).
  rewrite EF, EI. clear Hf Hi.
  set (rate := dflt (taxRate inputs) 0) in *.
  assert (0 <= rate / 100) as H0 by (apply Qle_shift_div_l; [reflexivity|lra]).
  assert (rate / 100 <= 1) as H1 by (apply Qle_shift_div_r; [reflexivity|lra]).
  assert (forall p, p == F -> exists z : Z, Js.Math_round (Fin p) = Js.of_Z z /\
            (z <= Js.round_Q F)%Z /\
            ((Js.round_Q I <= Js.round_Q F)%Z -> (Js.round_Q I <= z)%Z)) as Hsame.
  { intros p Hp. exists (Js.round_Q p). split; [reflexivity|].
    rewrite (round_Q_comp _ _ Hp). lia. }
  assert (exists z : Z,
            Js.Math_round
              (Fin F - (let totalGain := (Fin F - Fin I)%num in
                        if Js.gt totalGain (Fin 0)
                        then (totalGain * (Fin rate / Fin 100))%num
                        else Fin 0))%num = Js.of_Z z /\
            (z <= Js.round_Q F)%Z /\
            ((Js.round_Q I <= Js.round_Q F)%Z -> (Js.round_Q I <= z)%Z)) as Hgain.
  { cbv zeta.
    change (Fin F - Fin I)%num with (Fin (F - I)).
    change (Js.gt (Fin (F - I)) (Fin 0)) with (Js.is_pos (F - I)).
    destruct (Js.is_pos (F - I)) eqn:E.
    - apply is_pos_true in E.
      change (Fin rate / Fin 100)%num with (Fin (rate / 100)).
      change (Fin F - Fin (F - I) * Fin (rate / 100))%num
        with (Fin (F - (F - I) * (rate / 100))).
      assert (0 <= (F - I) * (rate / 100)) as G0
        by (apply Qmult_le_0_compat; lra).
      assert (0 <= (F - I) * (1 - rate / 100)) as G1
        by (apply Qmult_le_0_compat; lra).
      exists (Js.round_Q (F - (F - I) * (rate / 100))).
      split; [reflexivity|]. split.
      + apply round_Q_le. lra.
      + intros _. apply round_Q_le.
        assert (F - (F - I) * (rate / 100) - I == (F - I) * (1 - rate / 100)) as E'
          by ring.
        lra.
    - apply Hsame. change (Fin F - Fin 0)%num with (Fin (F - 0)).
      ring. }
  destruct mode; cbn [tax_on]; try exact Hgain.
  - apply Hsame. ring.
  - apply Hsame. ring.
Qed.

Lemma post_tax_keeps_the_principal_witness :
  0 <= dflt (taxRate stock_held) 0 <= 100 /\
  finalValue (calculateInvestment host_2025 STOCK stock_held) = Js.of_Z 1540 /\
  totalInvested (calculateInvestment host_2025 STOCK stock_held) = Js.of_Z 1000 /\
  exists p : Z,
    postTaxValue (calculateInvestment host_2025 STOCK stock_held) = Js.of_Z p /\
    (1000 <= p <= 1540)%Z.
Proof.
  assert (0 <= dflt (taxRate stock_held) 0 <= 100) as H
    by (split; vm_compute; discriminate).
  assert (finalValue (calculateInvestment host_2025 STOCK stock_held)
          = Js.of_Z 1540) as Hf by reflexivity.
  assert (totalInvested (calculateInvestment host_2025 STOCK stock_held)
          = Js.of_Z 1000) as Hi by reflexivity.
  split; [exact H|]. split; [exact Hf|]. split; [exact Hi|].
  destruct (post_tax_keeps_the_principal host_2025 STOCK stock_held _ _ H Hf Hi)
    as (p & Hp & Hle & Hge).
  exists p. split; [exact Hp|]. lia.
Defined.

(** The flat tax lies between 0 and the income. *)
Lemma tax_amount_bounds (income ded rate : Q) :
  0 <= income -> 0 <= ded -> 0 <= rate <= 100 ->
  0 <= Qmax 0 (income - ded) * (rate / 100) <= income.
Proof.
  intros Hi Hd [Hlo Hhi].
  set (taxable := Qmax 0 (income - ded)).
  assert (0 <= rate / 100) as H0 by (apply Qle_shift_div_l; [reflexivity|lra]).
  assert (rate / 100 <= 1) as H1 by (apply Qle_shift_div_r; [reflexivity|lra]).
  assert (0 <= taxable) as Ht0 by apply Q.le_max_l.
  assert (taxable <= income) as Ht1 by (unfold taxable; apply Q.max_lub; lra).
  assert (0 <= taxable * (rate / 100)) as Htax0 by (apply Qmult_le_0_compat; lra).
  assert (0 <= taxable * (1 - rate / 100)) as Htax1
    by (apply Qmult_le_0_compat; lra).
  assert (taxable - taxable * (rate / 100) == taxable * (1 - rate / 100)) as E
    by ring.
  split; lra.
Qed.


(** X20: the take-home pay of TAX mode.  With an income and deductions
    that are not negative and a tax rate between 0 and 100, the tax and
    the income after tax are whole numbers between 0 and the rounded
    income; when the deductions cover the income there is no tax and the
    whole income is kept. *)
Theorem tax_take_home_bounds (host : Host) (inputs : InvestmentInputs) :
  let income := or_dflt (annualIncome inputs) 0 in
  let ded := or_dflt (deductions inputs) 0 in
  let r := calculateInvestment host TAX inputs in
  0 <= income -> 0 <= ded -> 0 <= dflt (taxRate inputs) 0 <= 100 ->
  exists f t : Z,
    finalValue r = Js.of_Z f /\ taxPayable r = Js.of_Z t /\
    totalInvested r = Js.of_Z (Js.round_Q income) /\
    (0 <= f <= Js.round_Q income)%Z /\ (0 <= t <= Js.round_Q income)%Z /\
    (income <= ded -> t = 0%Z /\ f = Js.round_Q income).
Proof.
  intros income ded r Hi Hd [Hlo Hhi].
  set (rate := dflt (taxRate inputs) 0) in *.
  pose proof (tax_final_value host inputs) as (fv & Efv & Hfv).
  pose proof (tax_mode_payable host inputs) as Etp.
  cbv zeta in Hfv, Etp. fold income ded rate in Hfv, Etp.
  set (taxable := Qmax 0 (income - ded)) in *.
  destruct (tax_amount_bounds income ded rate Hi Hd (conj Hlo Hhi))
    as [Htax0 Htax2].
  fold taxable in Htax0, Htax2.
  exists (Js.round_Q fv), (Js.round_Q (taxable * (rate / 100))).
  split.
  { unfold r, calculateInvestment. cbn [finalValue]. now rewrite Efv. }
  split; [exact Etp|].
  split; [reflexivity|].
  pose proof (round_Q_le 0 fv ltac:(lra)) as A1.
  pose proof (round_Q_le fv income ltac:(lra)) as A2.
  pose proof (round_Q_le 0 _ Htax0) as A3.
  pose proof (round_Q_le _ income Htax2) as A4.
  rewrite round_Q_0 in *.
  split; [lia|]. split; [lia|].
  intros Hcov.
  assert (taxable == 0) as Ez by (unfold taxable; apply Q.max_l; lra).
  split.
  - rewrite (round_Q_comp (taxable * (rate / 100)) 0); [reflexivity|].
    rewrite Ez. ring.
  - apply round_Q_comp. rewrite Hfv, Ez. ring.
Qed.

Lemma tax_take_home_bounds_witness :
  0 <= or_dflt (annualIncome tax_60000) 0 /\
  0 <= or_dflt (deductions tax_60000) 0 /\
  0 <= dflt (taxRate tax_60000) 0 <= 100 /\
  exists f t : Z,
    finalValue (calculateInvestment host_2025 TAX tax_60000) = Js.of_Z f /\
    taxPayable (calculateInvestment host_2025 TAX tax_60000) = Js.of_Z t /\
    (0 <= f <= 60000)%Z /\ (0 <= t <= 60000)%Z.
Proof.
  assert (0 <= or_dflt (annualIncome tax_60000) 0) as H1
    by (vm_compute; discriminate).
  assert (0 <= or_dflt (deductions tax_60000) 0) as H2
    by (vm_compute; discriminate).
  assert (0 <= dflt (taxRate tax_60000) 0 <= 100) as H3
    by (split; vm_compute; discriminate).
  split; [exact H1|]. split; [exact H2|]. split; [exact H3|].
  destruct (tax_take_home_bounds host_2025 tax_60000 H1 H2 H3)
    as (f & t & Hf & Ht & _ & Bf & Bt & _).
  exists f, t. split; [exact Hf|]. split; [exact Ht|].
  change (Js.round_Q (or_dflt (annualIncome tax_60000) 0)) with 60000%Z in Bf, Bt.
  split; assumption.
Defined.

Lemma round_sub_0 (x : num) : Js.Math_round (x - Fin 0)%num = Js.Math_round x.
Proof.
  destruct x as [q| | |]; try reflexivity.
  change (Fin q - Fin 0)%num with (Fin (q - 0)).
  cbn [Js.Math_round]. unfold Js.of_Z. do 2 f_equal. apply round_Q_comp. ring.
Qed.

(** X21: [purchasingPowerLoss] outside the investment modes.  In TAX mode,
    whose single row repeats the final value as its [realValue], it is
    always 0; in LOAN mode, whose rows carry [realValue] 0, it is the
    unrounded total payable, so that rounding it gives [finalValue]. *)
Theorem purchasing_power_loss_edges (host : Host) (inputs : InvestmentInputs) :
  Js.strict_eq (purchasingPowerLoss (calculateInvestment host TAX inputs)) (Fin 0)
  = true /\
  Js.Math_round (purchasingPowerLoss (calculateInvestment host LOAN inputs))
  = finalValue (calculateInvestment host LOAN inputs).
Proof.
  split.
  - assert (forall x q, x = Fin q ->
              Js.strict_eq (x - Js.or_else x (Fin 0))%num (Fin 0) = true) as Key.
    { intros x q ->. unfold Js.or_else. cbn [Js.truthy].
      destruct (Js.is_zero q) eqn:E; cbn [negb].
      - apply is_zero_true in E.
        change (Fin q - Fin 0)%num with (Fin (q - 0)). cbn [Js.strict_eq].
        apply Qeq_bool_iff. rewrite E. reflexivity.
      - change (Fin q - Fin q)%num with (Fin (q - q)). cbn [Js.strict_eq].
        apply Qeq_bool_iff. ring. }
    destruct (tax_final_value host inputs) as (fv & Efv & _).
    exact (Key _ fv Efv).
  - unfold calculateInvestment. cbn [purchasingPowerLoss finalValue].
    assert (match last_row (l_yearlyData (strategy host LOAN inputs)) with
            | Some row => Js.or_else (realValue row) (Fin 0)
            | None => Fin 0
            end = Fin 0) as ->.
    { unfold strategy, loan_branch. cbn [l_yearlyData].
      destruct (trip_count _) as [|n]; [reflexivity|].
      now rewrite last_row_map. }
    apply round_sub_0.
Qed.

(** ** The pie chart of the results view *)

(** X22: the pie chart accounts for the headline figure.  Whenever the
    amount invested and the final value are finite the chart has two
    slices with whole values; in LOAN mode they add up to the total
    payable and in TAX mode to the gross income, within one unit of
    rounding; in the other modes the first slice is the amount invested,
    the second is never negative, and they add up, within one unit, to the
    larger of the amount invested and the final value. *)
Theorem pie_accounts_for_the_total (host : Host) (mode : CalculatorMode)
    (inputs : InvestmentInputs) (i f : Z) :
  let r := calculateInvestment host mode inputs in
  totalInvested r = Js.of_Z i -> finalValue r = Js.of_Z f ->
  exists a b : Z,
    map Results.value (Results.pieData r mode) = [Js.of_Z a; Js.of_Z b] /\
    (mode = LOAN -> (-1 <= a + b - f <= 1)%Z) /\
    (mode = TAX -> (-1 <= a + b - i <= 1)%Z) /\
    (mode <> LOAN -> mode <> TAX ->
     a = i /\ (0 <= b)%Z /\ (-1 <= a + b - Z.max i f <= 1)%Z).
Proof.
  intros r Hi Hf. unfold r, calculateInvestment in *.
  cbn [totalInvested finalValue] in Hi, Hf.
  destruct (of_Z_round_inv _ _ Hi) as (I & EI & ->).
  destruct (of_Z_round_inv _ _ Hf) as (F & EF & ->).
  clear Hi Hf.
  pose proof (round_Q_diff F I) as D1.
  pose proof (round_Q_diff I F) as D2.
  assert (Js.gt (Js.of_Z (Js.round_Q (F - I))) (Fin 0) = (0 <? Js.round_Q (F - I))%Z)
    as Hgt.
  { unfold Js.of_Z. change (Js.gt (Fin ?q) (Fin 0)) with (Js.is_pos q).
    destruct (0 <? Js.round_Q (F - I))%Z eqn:E.
    - apply is_pos_true. change 0 with (inject_Z 0). rewrite <- Zlt_Qlt.
      now apply Z.ltb_lt.
    - apply is_pos_false. change 0 with (inject_Z 0). rewrite <- Zle_Qle.
      now apply Z.ltb_ge. }
  assert (exists b : Z,
            (if Js.gt (Js.of_Z (Js.round_Q (F - I))) (Fin 0)
             then Js.of_Z (Js.round_Q (F - I)) else Fin 0) = Js.of_Z b /\
            (0 <= b)%Z /\
            (-1 <= Js.round_Q I + b - Z.max (Js.round_Q I) (Js.round_Q F) <= 1)%Z)
    as (g & Eg & Hg0 & Hg1).
  { rewrite Hgt. destruct (0 <? Js.round_Q (F - I))%Z eqn:E.
    - apply Z.ltb_lt in E. exists (Js.round_Q (F - I)).
      split; [reflexivity|]. lia.
    - apply Z.ltb_ge in E. exists 0%Z. split; [reflexivity|]. lia. }
  unfold Results.pieData.
  cbn [totalInvested finalValue totalInterest taxPayable].
  rewrite EI, EF.
  change (Fin F - Fin I)%num with (Fin (F - I)).
  change (Js.Math_round (Fin I)) with (Js.of_Z (Js.round_Q I)).
  change (Js.Math_round (Fin F)) with (Js.of_Z (Js.round_Q F)).
  change (Js.Math_round (Fin (F - I))) with (Js.of_Z (Js.round_Q (F - I))).
  destruct mode; cbn [Results.assign map Results.value tax_on];
    try (exists (Js.round_Q I), g; rewrite Eg;
         split; [reflexivity|];
         split; [intros [=]|]; split; [intros [=]|];
         intros _ _; split; [reflexivity|]; split; [exact Hg0|exact Hg1]).
  - exists (Js.round_Q I), (Js.round_Q (F - I)). split; [reflexivity|].
    split; [intros _; lia|]. split; [intros [=]|]. intros H. now elim H.
  - exists (Js.round_Q F), (Js.round_Q (I - F)).
    change (Fin I - Fin F)%num with (Fin (I - F)).
    split; [reflexivity|].
    split; [intros [=]|]. split; [intros _; lia|]. intros _ H. now elim H.
Qed.

Lemma pie_accounts_for_the_total_witness :
  totalInvested (calculateInvestment host_2025 STOCK stock_held) = Js.of_Z 1000 /\
  finalValue (calculateInvestment host_2025 STOCK stock_held) = Js.of_Z 1540 /\
  exists a b : Z,
    map Results.value
      (Results.pieData (calculateInvestment host_2025 STOCK stock_held) STOCK)
    = [Js.of_Z a; Js.of_Z b] /\
    a = 1000%Z /\ (1539 <= a + b <= 1541)%Z.
Proof.
  assert (totalInvested (calculateInvestment host_2025 STOCK stock_held)
          = Js.of_Z 1000) as Hi by reflexivity.
  assert (finalValue (calculateInvestment host_2025 STOCK stock_held)
          = Js.of_Z 1540) as Hf by reflexivity.
  split; [exact Hi|]. split; [exact Hf|].
  destruct (pie_accounts_for_the_total host_2025 STOCK stock_held _ _ Hi Hf)
    as (a & b & Hp & _ & _ & Hs).
  destruct (Hs ltac:(discriminate) ltac:(discriminate)) as (Ea & _ & Hsum).
  exists a, b. split; [exact Hp|]. split; [exact Ea|]. lia.
Defined.

(** X23: the effective tax rate shown in TAX mode is a percentage.  With
    an income and deductions that are not negative and a tax rate between
    0 and 100, the figure of the fourth card lies between 0 and 100; it is
    0 when the rounded income is not positive. *)
Theorem effective_tax_rate_is_a_percentage (host : Host)
    (inputs : InvestmentInputs) :
  let income := or_dflt (annualIncome inputs) 0 in
  let r := calculateInvestment host TAX inputs in
  0 <= income -> 0 <= or_dflt (deductions inputs) 0 ->
  0 <= dflt (taxRate inputs) 0 <= 100 ->
  exists e : Q, Results.effectiveTaxRate r = Fin e /\ (0 <= e <= 100) /\
                ((Js.round_Q income <= 0)%Z -> e == 0).
Proof.
  intros income r Hi Hd Hrate.
  pose proof (tax_mode_payable host inputs) as Etp. cbv zeta in Etp.
  pose proof (tax_amount_bounds _ _ _ Hi Hd Hrate) as [T0 T1].
  fold income in Etp, T0, T1.
  set (tax := Qmax 0 (income - or_dflt (deductions inputs) 0)
              * (dflt (taxRate inputs) 0 / 100)) in *.
  pose proof (round_Q_le _ _ T0) as A0. pose proof (round_Q_le _ _ T1) as A1.
  rewrite round_Q_0 in A0.
  unfold Results.effectiveTaxRate. subst r. rewrite Etp.
  change (totalInvested (calculateInvestment host TAX inputs))
    with (Js.of_Z (Js.round_Q income)).
  unfold Js.of_Z.
  change (Js.gt (Fin ?q) (Fin 0)) with (Js.is_pos q).
  set (I := Js.round_Q income) in *. set (t := Js.round_Q tax) in *.
  destruct (Z_lt_le_dec 0 I) as [Hpos|Hnon].
  - assert (0 < inject_Z I) as HI
      by (change 0 with (inject_Z 0); rewrite <- Zlt_Qlt; exact Hpos).
    assert (0 <= inject_Z t) as Ht0
      by (change 0 with (inject_Z 0); rewrite <- Zle_Qle; exact A0).
    assert (inject_Z t <= inject_Z I) as Ht1 by (rewrite <- Zle_Qle; exact A1).
    known_positive (inject_Z I). unfold Js.div. known_nonzero (inject_Z I).
    cbn [Js.mul]. eexists. split; [reflexivity|]. split; [|intros; lia].
    assert (0 <= inject_Z t / inject_Z I) as B0
      by (apply Qle_shift_div_l; lra).
    assert (inject_Z t / inject_Z I <= 1) as B1
      by (apply Qle_shift_div_r; lra).
    split; lra.
  - assert (Js.is_pos (inject_Z I) = false) as ->.
    { apply is_pos_false. change 0 with (inject_Z 0). now rewrite <- Zle_Qle. }
    exists 0. split; [reflexivity|]. split; [split; discriminate|reflexivity].
Qed.

Lemma effective_tax_rate_is_a_percentage_witness :
  0 <= or_dflt (annualIncome tax_60000) 0 /\
  0 <= or_dflt (deductions tax_60000) 0 /\
  0 <= dflt (taxRate tax_60000) 0 <= 100 /\
  exists e : Q,
    Results.effectiveTaxRate (calculateInvestment host_2025 TAX tax_60000) = Fin e /\
    0 <= e <= 100.
Proof.
  assert (0 <= or_dflt (annualIncome tax_60000) 0) as H1
    by (vm_compute; discriminate).
  assert (0 <= or_dflt (deductions tax_60000) 0) as H2
    by (vm_compute; discriminate).
  assert (0 <= dflt (taxRate tax_60000) 0 <= 100) as H3
    by (split; vm_compute; discriminate).
  split; [exact H1|]. split; [exact H2|]. split; [exact H3|].
  destruct (effective_tax_rate_is_a_percentage host_2025 tax_60000 H1 H2 H3)
    as (e & He & Hb & _).
  exists e. split; [exact He|exact Hb].
Defined.

(** ** The progress indicator *)

(** X24: the progress indicator stalls at 90.  After [n] ticks of the
    interval the progress is [min (10 n) 90]; and a tick that finds a
    progress of 90 or more, the 100 of a finished calculation included,
    sets it to 90. *)
Theorem progress_stalls_at_90 (n : nat) (p : Q) :
  (exists q, progress_after n = Fin q /\
             q == Qmin (10 * inject_Z (Z.of_nat n)) 90) /\
  (90 <= p -> progress_tick (Fin p) = Fin 90).
Proof.
  split.
  2:{ intros Hp. unfold progress_tick.
      change (Js.ge (Fin p) (Fin 90)) with (Qle_bool 90 p).
      now apply Qle_bool_iff in Hp as ->. }
  induction n as [|n (q & Hq & Eq)].
  - exists 0. split; reflexivity.
  - cbn [progress_after]. rewrite Hq. unfold progress_tick.
    assert (inject_Z (Z.of_nat (S n)) == inject_Z (Z.of_nat n) + 1) as Hs.
    { rewrite Nat2Z.inj_succ. unfold Z.succ. rewrite inject_Z_plus. reflexivity. }
    assert (0 <= inject_Z (Z.of_nat n)) as Hn0.
    { change 0 with (inject_Z 0). rewrite <- Zle_Qle. lia. }
    set (m := inject_Z (Z.of_nat n)) in *.
    change (Js.ge (Fin q) (Fin 90)) with (Qle_bool 90 q).
    destruct (Q.min_spec (10 * m) 90) as [[Hlt Hmin]|[Hge Hmin]];
      rewrite Hmin in Eq.
    + assert (Qle_bool 90 q = false) as ->.
      { destruct (Qle_bool 90 q) eqn:E; [|reflexivity].
        apply Qle_bool_iff in E. lra. }
      exists (q + 10). split; [reflexivity|].
      assert (m <= 8) as Hm.
      { assert (inject_Z (Z.of_nat n) < inject_Z 9) as Hz
          by (fold m; change (inject_Z 9) with 9; lra).
        rewrite <- Zlt_Qlt in Hz.
        assert (inject_Z (Z.of_nat n) <= inject_Z 8) as Hz'
          by (rewrite <- Zle_Qle; lia).
        exact Hz'. }
      rewrite Q.min_l by (rewrite Hs; lra). rewrite Hs, Eq. ring.
    + assert (Qle_bool 90 q = true) as ->
        by (apply Qle_bool_iff; lra).
      exists 90. split; [reflexivity|].
      rewrite Q.min_r by (rewrite Hs; lra). reflexivity.
Qed.

Lemma progress_stalls_at_90_witness :
  90 <= 100 /\ progress_after 12 = Fin 90 /\ progress_tick (Fin 100) = Fin 90.
Proof.
  assert (90 <= 100) as H by discriminate.
  split; [exact H|]. split; [reflexivity|].
  exact (proj2 (progress_stalls_at_90 12 100) H).
Defined.

(** ** What an absent field is read as (C4) *)

(** A field read through [|| 0] is read as 0 when it is absent, and as
    itself otherwise. *)
Lemma or_dflt_zero (x : option Q) : or_dflt x 0 == dflt x 0.
Proof.
  destruct x as [q|]; [|reflexivity]. cbn [or_dflt dflt].
  destruct (Js.is_zero q) eqn:E; [|reflexivity].
  apply is_zero_true in E. now rewrite E.
Qed.

(** The totals of STOCK before rounding. *)
Lemma stock_totals (host : Host) (inputs : InvestmentInputs) :
  let q := or_dflt (quantity inputs) 0 in
  let b := or_dflt (buyPrice inputs) 0 in
  let s := or_dflt (sellPrice inputs) 0 in
  let y := or_dflt (dividendYield inputs) 0 in
  let st := strategy host STOCK inputs in
  l_totalInvested st = Fin (q * b) /\
  l_finalValue st
  = Fin (q * b + (s - b) * q + b * q * (y / 100) * timePeriodYears inputs).
Proof.
  cbv zeta. unfold strategy, stock_branch.
  cbn [l_totalInvested l_finalValue effective_duration].
  change (Fin (or_dflt (dividendYield inputs) 0) / Fin 100)%num
    with (Fin (or_dflt (dividendYield inputs) 0 / 100)).
  split; reflexivity.
Qed.

(** C4 (amended): what the engine reads for an absent optional field.

    The fields destructured with a default give, when absent, the result
    of the default written out: 0 for [initialInvestment],
    [monthlyContribution], [stepUpRate], [inflationRate], [taxRate] and
    [expenseRatio], 1 for [compoundingFrequency] (so that COMPOUND without
    a frequency is LUMPSUM) and the current calendar year for
    [startYear].  GOAL without a [targetAmount] aims at 1000000: it
    returns the result of the target 1000000 written out and, at a zero
    rate over [n] months, asks for [(1000000 - initial) / n] a month.  ROI
    without a [sellPrice] returns the result of a sale at the amount
    invested, so its final value is the amount invested.  Without either
    age RETIREMENT is SIP.  The fields that STOCK, PROPERTY and TAX read
    through [|| 0] enter their closed forms as 0 when absent: the figures
    are, to within one unit, the closed forms evaluated at the field, or
    at 0 when it is absent. *)
Theorem absent_fields_take_their_defaults (host : Host)
    (inputs : InvestmentInputs) :
  let calc := calculateInvestment host in
  let P := dflt (initialInvestment inputs) 0 in
  let years := timePeriodYears inputs in
  (forall mode,
     calc mode (set_initialInvestment None inputs)
     = calc mode (set_initialInvestment (Some 0) inputs) /\
     calc mode (set_monthlyContribution None inputs)
     = calc mode (set_monthlyContribution (Some 0) inputs) /\
     calc mode (set_stepUpRate None inputs)
     = calc mode (set_stepUpRate (Some 0) inputs) /\
     calc mode (set_inflationRate None inputs)
     = calc mode (set_inflationRate (Some 0) inputs) /\
     calc mode (set_taxRate None inputs)
     = calc mode (set_taxRate (Some 0) inputs) /\
     calc mode (set_expenseRatio None inputs)
     = calc mode (set_expenseRatio (Some 0) inputs) /\
     calc mode (set_compoundingFrequency None inputs)
     = calc mode (set_compoundingFrequency (Some 1) inputs) /\
     calc mode (set_startYear None inputs)
     = calc mode (set_startYear (Some (inject_Z (now_year host))) inputs)) /\
  calc COMPOUND (set_compoundingFrequency None inputs) = calc LUMPSUM inputs /\
  calc GOAL (set_targetAmount None inputs)
  = calc GOAL (set_targetAmount (Some 1000000) inputs) /\
  (forall n : nat,
     targetAmount inputs = None -> (0 < n)%nat ->
     years * 12 == inject_Z (Z.of_nat n) ->
     interestRate inputs <= dflt (expenseRatio inputs) 0 ->
     P < 1000000 ->
     near (monthlyPayment (calc GOAL inputs))
       ((1000000 - P) / inject_Z (Z.of_nat n))) /\
  calc ROI (set_sellPrice None inputs) = calc ROI (set_sellPrice (Some P) inputs) /\
  (sellPrice inputs = None ->
   finalValue (calc ROI inputs) = totalInvested (calc ROI inputs)) /\
  (currentAge inputs = None \/ retirementAge inputs = None ->
   calc RETIREMENT inputs = calc SIP inputs) /\
  (near (totalInvested (calc STOCK inputs))
     (dflt (quantity inputs) 0 * dflt (buyPrice inputs) 0) /\
   near (finalValue (calc STOCK inputs))
     (dflt (quantity inputs) 0 * dflt (sellPrice inputs) 0
      + dflt (quantity inputs) 0 * dflt (buyPrice inputs) 0
        * (dflt (dividendYield inputs) 0 / 100) * years)) /\
  (near (totalInvested (calc PROPERTY inputs)) (dflt (propertyPrice inputs) 0) /\
   forall d : nat, years == inject_Z (Z.of_nat d) ->
     near (finalValue (calc PROPERTY inputs))
       (dflt (propertyPrice inputs) 0
        * qpow (1 + dflt (appreciationRate inputs) 0 / 100) d
        + inject_Z (Z.of_nat d)
          * (dflt (rentalIncome inputs) 0 * 12
             - dflt (monthlyExpenses inputs) 0 * 12))) /\
  (near (totalInvested (calc TAX inputs)) (dflt (annualIncome inputs) 0) /\
   near (finalValue (calc TAX inputs))
     (dflt (annualIncome inputs) 0
      - Qmax 0 (dflt (annualIncome inputs) 0 - dflt (deductions inputs) 0)
        * (dflt (taxRate inputs) 0 / 100))).
Proof.
  intros calc P years.
  split; [intros mode; unfold calc; repeat split; now destruct mode|].
  split; [reflexivity|]. split; [reflexivity|].
  split.
  { intros n Ht Hn Hm Hrate Hp.
    assert (interestRate inputs <= q_or (dflt (expenseRatio inputs) 0) 0) as Hrate'.
    { unfold q_or. destruct (Js.is_zero _) eqn:E; [|exact Hrate].
      apply is_zero_true in E. now rewrite <- E. }
    pose proof (effective_rate_zero inputs Hrate') as Ez.
    assert (effective_rate inputs / 100 / 12 == 0) as Ei by (rewrite Ez; reflexivity).
    destruct (goal_round_trip_exact host inputs n Hn Hm) as [_ Hgt].
    cbv zeta in Hgt. fold P in Hgt. rewrite Ht in Hgt. cbn [or_dflt] in Hgt.
    assert ((1 + effective_rate inputs / 100 / 12) ^ Z.of_nat n == 1) as Epow.
    { rewrite Qpower_qpow by (rewrite Ei; reflexivity).
      apply qpow_one. rewrite Ei. reflexivity. }
    destruct Hgt as (pmt & _ & Hmp & Hflat & _); [rewrite Epow; lra|].
    unfold calc. rewrite Hmp. apply round_Q_near.
    rewrite (Hflat Ei), Epow. field.
    intros H. assert (inject_Z 0 < inject_Z (Z.of_nat n)) as H'
      by (rewrite <- Zlt_Qlt; lia).
    rewrite H in H'. now apply Qlt_irrefl in H'. }
  split.
  { unfold calc, calculateInvestment, strategy, roi_branch, set_sellPrice.
    cbn [sellPrice initialInvestment inflationRate startYear taxRate
         timePeriodYears interestRate expenseRatio effective_duration
         or_dflt dflt l_totalInvested l_finalValue l_yearlyData
         l_monthlyPayment l_roiPercentage].
    fold P. now destruct (Js.is_zero P). }
  split.
  { intros Hs. unfold calc, calculateInvestment, strategy, roi_branch.
    cbn [finalValue totalInvested l_finalValue l_totalInvested].
    now rewrite Hs. }
  split.
  { intros Hage. unfold calc, calculateInvestment, strategy, effective_duration.
    assert (supplied (currentAge inputs) && supplied (retirementAge inputs) = false)
      as ->; [|reflexivity].
    destruct Hage as [-> | ->]; [reflexivity|].
    now destruct (supplied (currentAge inputs)). }
  split.
  { destruct (stock_totals host inputs) as [Hv Hf]. cbv zeta in Hv, Hf.
    unfold calc, calculateInvestment. cbn [totalInvested finalValue].
    rewrite Hv, Hf.
    pose proof (or_dflt_zero (quantity inputs)) as E1.
    pose proof (or_dflt_zero (buyPrice inputs)) as E2.
    pose proof (or_dflt_zero (sellPrice inputs)) as E3.
    pose proof (or_dflt_zero (dividendYield inputs)) as E4.
    set (q := or_dflt (quantity inputs) 0) in *.
    set (b := or_dflt (buyPrice inputs) 0) in *.
    set (s := or_dflt (sellPrice inputs) 0) in *.
    set (y := or_dflt (dividendYield inputs) 0) in *.
    split; apply round_Q_near.
    - now rewrite E1, E2.
    - rewrite <- E1, <- E2, <- E3, <- E4. fold years. ring. }
  split.
  { split.
    - unfold calc, calculateInvestment, strategy, property_branch.
      cbn [totalInvested l_totalInvested]. apply round_Q_near, or_dflt_zero.
    - intros d Hy.
      destruct (property_exact host inputs d Hy) as (_ & Hf & _).
      unfold calc. apply (near_of_eq _ _ _ Hf).
      pose proof (or_dflt_zero (propertyPrice inputs)) as E1.
      pose proof (or_dflt_zero (appreciationRate inputs)) as E2.
      pose proof (or_dflt_zero (rentalIncome inputs)) as E3.
      pose proof (or_dflt_zero (monthlyExpenses inputs)) as E4.
      set (a := or_dflt (propertyPrice inputs) 0) in *.
      set (b := or_dflt (appreciationRate inputs) 0) in *.
      set (c := or_dflt (rentalIncome inputs) 0) in *.
      set (e := or_dflt (monthlyExpenses inputs) 0) in *.
      rewrite (qpow_comp (1 + b / 100) (1 + dflt (appreciationRate inputs) 0 / 100) d)
        by (now rewrite E2).
      now rewrite E1, E3, E4. }
  destruct (tax_final_value host inputs) as (fv & Efv & Hfv).
  unfold calc, calculateInvestment. cbn [totalInvested finalValue].
  rewrite Efv.
  change (l_totalInvested (strategy host TAX inputs))
    with (Fin (or_dflt (annualIncome inputs) 0)).
  pose proof (or_dflt_zero (annualIncome inputs)) as E1.
  pose proof (or_dflt_zero (deductions inputs)) as E2.
  set (a := or_dflt (annualIncome inputs) 0) in *.
  set (b := or_dflt (deductions inputs) 0) in *.
  split; apply round_Q_near; [exact E1|].
  rewrite Hfv. now rewrite E1, E2.
Qed.

Lemma absent_fields_take_their_defaults_witness :
  sellPrice roi_unsold = None /\
  finalValue (calculateInvestment host_2025 ROI roi_unsold)
  = totalInvested (calculateInvestment host_2025 ROI roi_unsold) /\
  targetAmount (blank 1 0) = None /\
  near (monthlyPayment (calculateInvestment host_2025 GOAL (blank 1 0)))
    (1000000 / 12).
Proof.
  assert (sellPrice roi_unsold = None) as H1 by reflexivity.
  assert (targetAmount (blank 1 0) = None) as H2 by reflexivity.
  split; [exact H1|]. split.
  - destruct (absent_fields_take_their_defaults host_2025 roi_unsold)
      as (_ & _ & _ & _ & _ & Hroi & _).
    exact (Hroi H1).
  - split; [exact H2|].
    destruct (absent_fields_take_their_defaults host_2025 (blank 1 0))
      as (_ & _ & _ & Hgoal & _).
    destruct (Hgoal 12%nat H2 ltac:(lia) ltac:(reflexivity)
                ltac:(vm_compute; discriminate) ltac:(reflexivity))
      as (z & Hz & L & U).
    exists z. split; [exact Hz|].
    assert ((1000000 - dflt (initialInvestment (blank 1 0)) 0)
            / inject_Z (Z.of_nat 12) == 1000000 / 12) as E by reflexivity.
    rewrite E in L, U. split; assumption.
Defined.
